(** * librbd deep-copy: the per-object snapshot-delta planner and executor

    A shallow embedding of [librbd::deep_copy::ObjectCopyRequest]
    (src/librbd/deep_copy/ObjectCopyRequest.cc).  The request copies one
    destination object across its snapshot history: it lists the source
    snapshots, plans and issues reads, merges the results into per-snapshot
    write batches, synthesises zero / truncate / remove ops, issues the
    batches and finally updates the object map.

    Conventions of the embedding:
    - [uint64_t] values and [int] results are [Z]; the additions the code
      performs on offsets are written with their 64-bit wrap-around;
    - a [std::map] is an association list that [upd] keeps in ascending key
      order, so iterating the list is iterating the map;
    - a failed [ceph_assert], [front()] of an empty vector and an
      [end_of_buffer] exception all abort the process: the functions return
      [option] and [None] stands for the abort;
    - collaborators that live outside this file (image contexts, the striper,
      the OSD) are records of functions or oracles passed as arguments. *)

From Stdlib Require Import ZArith List Bool Lia Sorted.
Import ListNotations.
Open Scope Z_scope.

(** ** Abort monad *)

Definition bind {A B : Type} (m : option A) (f : A -> option B) : option B :=
  match m with
  | Some a => f a
  | None => None
  end.

Notation "'let*' x ':=' m 'in' k" := (bind m (fun x => k))
  (at level 10, x pattern, m at level 100, k at level 200).

Definition ceph_assert (b : bool) : option unit :=
  if b then Some tt else None.

(** [for (auto& x : xs) body] over a loop state, stopping at an abort. *)
Fixpoint foreach {A S : Type} (body : S -> A -> option S) (xs : list A) (s : S)
  : option S :=
  match xs with
  | [] => Some s
  | x :: rest => let* s' := body s x in foreach body rest s'
  end.

(** [c.empty()] of a container *)
Definition is_empty {A : Type} (l : list A) : bool :=
  match l with
  | [] => true
  | _ :: _ => false
  end.

(** ** 64-bit arithmetic *)

Definition u64_mod : Z := 2 ^ 64.
Definition u32_mod : Z := 2 ^ 32.
Definition add64 (a b : Z) : Z := (a + b) mod u64_mod.
Definition sub64 (a b : Z) : Z := (a - b) mod u64_mod.

(** include/rados.h: [#define CEPH_NOSNAP ((__u64)(-2))]. *)
Definition CEPH_NOSNAP : Z := u64_mod - 2.

(** errno values of the platform (asm-generic/errno-base.h). *)
Definition ENOENT : Z := 2.
Definition EINVAL : Z := 22.
Definition ERANGE : Z := 34.

(** ** std::map as an ordered association list *)

Class Ord (K : Type) := {
  key_eqb : K -> K -> bool;
  key_ltb : K -> K -> bool;
  key_eqb_eq : forall a b, key_eqb a b = true <-> a = b;
  key_ltb_irrefl : forall a, key_ltb a a = false;
  key_ltb_trans : forall a b c,
    key_ltb a b = true -> key_ltb b c = true -> key_ltb a c = true;
  key_ltb_total : forall a b,
    key_eqb a b = false -> key_ltb a b = false -> key_ltb b a = true
}.

#[export, refine] Instance Ord_Z : Ord Z :=
  {| key_eqb := Z.eqb; key_ltb := Z.ltb |}.
Proof.
  - intros a b; apply Z.eqb_eq.
  - intros a; apply Z.ltb_irrefl.
  - intros a b c; rewrite !Z.ltb_lt; lia.
  - intros a b; rewrite Z.eqb_neq, Z.ltb_ge, Z.ltb_lt; lia.
Defined.

Definition pair_eqb (a b : Z * Z) : bool :=
  (fst a =? fst b) && (snd a =? snd b).

(** [operator<] of [std::pair]: lexicographic *)
Definition pair_ltb (a b : Z * Z) : bool :=
  (fst a <? fst b) || ((fst a =? fst b) && (snd a <? snd b)).

#[export, refine] Instance Ord_pair : Ord (Z * Z) :=
  {| key_eqb := pair_eqb; key_ltb := pair_ltb |}.
Proof.
  - intros [a1 a2] [b1 b2]. unfold pair_eqb; simpl.
    rewrite andb_true_iff, !Z.eqb_eq. split.
    + intros [-> ->]; reflexivity.
    + intros Heq; inversion Heq; auto.
  - intros [a1 a2]. unfold pair_ltb; simpl.
    rewrite !Z.ltb_irrefl, andb_false_r. reflexivity.
  - intros [a1 a2] [b1 b2] [c1 c2]. unfold pair_ltb; simpl.
    rewrite !orb_true_iff, !andb_true_iff, !Z.ltb_lt, !Z.eqb_eq. lia.
  - intros [a1 a2] [b1 b2]. unfold pair_eqb, pair_ltb; simpl.
    rewrite orb_true_iff, andb_true_iff, Z.ltb_lt, Z.ltb_lt, Z.eqb_eq.
    destruct (Z.eqb_spec a1 b1); destruct (Z.eqb_spec a2 b2);
      destruct (Z.ltb_spec a1 b1); destruct (Z.ltb_spec a2 b2);
      simpl; intros; try discriminate; lia.
Defined.

Section StdMap.
Context {K V : Type} `{Ord K}.

(** [m.find(k)] *)
Fixpoint find (k : K) (m : list (K * V)) : option V :=
  match m with
  | [] => None
  | (k', v) :: rest => if key_eqb k k' then Some v else find k rest
  end.

(** [m[k] = v] *)
Fixpoint upd (k : K) (v : V) (m : list (K * V)) : list (K * V) :=
  match m with
  | [] => [(k, v)]
  | (k', v') :: rest =>
      if key_eqb k k' then (k, v) :: rest
      else if key_ltb k k' then (k, v) :: m
      else (k', v') :: upd k v rest
  end.

(** [m[k]] read with the default-constructed value for a missing key *)
Definition find_or (d : V) (k : K) (m : list (K * V)) : V :=
  match find k m with
  | Some v => v
  | None => d
  end.

Definition keys (m : list (K * V)) : list K := map fst m.

(** [m.count(k) != 0] *)
Definition has_key (k : K) (m : list (K * V)) : bool :=
  match find k m with
  | Some _ => true
  | None => false
  end.

(** the keys are in strictly ascending order, as in a [std::map] *)
Definition sorted_keys (m : list (K * V)) : Prop :=
  StronglySorted (fun a b => key_ltb a b = true) (keys m).

End StdMap.

(** [std::map<K, V>] *)
Abbreviation omap K V := (list (K * V)) (only parsing).

(** ** interval_set<uint64_t> *)

(** Modelled from the spec: [interval_set] (include/interval_set.h) is not
    part of the file under verification.  Section 9 of the specification asks
    for "an ordered non-overlapping interval-set abstraction with
    insert/union/intersect/subtract/iter" that "must coalesce on insert".
    An interval set is the ascending list of its [(start, length)] runs. *)
Abbreviation interval_set := (list (Z * Z)) (only parsing).

Definition in_extent (x : Z) (e : Z * Z) : Prop :=
  fst e <= x < fst e + snd e.

(** the bytes covered by a list of extents *)
Definition covers (s : list (Z * Z)) (x : Z) : Prop :=
  exists e, In e s /\ in_extent x e.

(** a run that fits 64 bits *)
Definition run_in_range (e : Z * Z) : Prop :=
  0 <= fst e /\ 0 <= snd e /\ fst e + snd e < u64_mod.

(** Modelled from the spec: [union_insert(off, len)], the coalescing insert.
    Runs that overlap or touch the new one are merged into it. *)
Fixpoint union_insert (off len : Z) (s : interval_set) : interval_set :=
  match s with
  | [] => [(off, len)]
  | (o, l) :: rest =>
      if off + len <? o then (off, len) :: s
      else if o + l <? off then (o, l) :: union_insert off len rest
      else
        let lo := Z.min off o in
        let hi := Z.max (off + len) (o + l) in
        union_insert lo (hi - lo) rest
  end.

(** Modelled from the spec: [insert(off, len)].  The class asserts that the
    new run is disjoint from the set; the runs of one interval map are, so
    the insert is the coalescing one. *)
Definition iset_insert (off len : Z) (s : interval_set) : interval_set :=
  union_insert off len s.

(** Modelled from the spec: the part of an interval set inside
    [off, off+len), the step of [intersection_of]. *)
Fixpoint clip (off len : Z) (s : interval_set) : interval_set :=
  match s with
  | [] => []
  | (o, l) :: rest =>
      let lo := Z.max off o in
      let hi := Z.min (off + len) (o + l) in
      (if lo <? hi then [(lo, hi - lo)] else []) ++ clip off len rest
  end.

(** Modelled from the spec: [intersection_of(a, b)]. *)
Definition intersection_of (a b : interval_set) : interval_set :=
  flat_map (fun e => clip (fst e) (snd e) b) a.

(** Modelled from the spec: the part of an interval set outside
    [off, off+len), the step of [subtract]. *)
Fixpoint erase (off len : Z) (s : interval_set) : interval_set :=
  match s with
  | [] => []
  | (o, l) :: rest =>
      let lend := Z.min (o + l) off in
      let rbeg := Z.max o (off + len) in
      (if o <? lend then [(o, lend - o)] else []) ++
      (if rbeg <? o + l then [(rbeg, o + l - rbeg)] else []) ++
      erase off len rest
  end.

(** Modelled from the spec: [a.subtract(b)]. *)
Definition subtract (a b : interval_set) : interval_set :=
  fold_left (fun acc e => erase (fst e) (snd e) acc) b a.

Definition iset_empty (s : interval_set) : bool := is_empty s.

(** ** Data model (librbd/io/Types.h, ObjectCopyRequest.h) *)

Abbreviation snap_t := (Z) (only parsing).
Abbreviation SnapIds := (list snap_t) (only parsing).
Abbreviation SnapMap := (omap snap_t SnapIds) (only parsing).

(** [io::WriteReadSnapIds], a pair (write snap, read snap) *)
Abbreviation WriteReadSnapIds := (Z * Z)%type (only parsing).
Definition INITIAL_WRITE_READ_SNAP_IDS : WriteReadSnapIds := (0, 0).

Inductive SnapshotExtentState :=
| SNAPSHOT_EXTENT_STATE_DNE
| SNAPSHOT_EXTENT_STATE_ZEROED
| SNAPSHOT_EXTENT_STATE_DATA.

(** one run of an [io::SparseExtents] interval map *)
Record SparseExtent := {
  get_off : Z;
  get_len : Z;
  get_state : SnapshotExtentState
}.

Abbreviation SnapshotDelta :=
  (omap WriteReadSnapIds (list SparseExtent)) (only parsing).

Abbreviation bufferlist := (list Byte.byte) (only parsing).
Abbreviation Extents := (list (Z * Z)) (only parsing).

Record ReadOp := {
  image_interval : interval_set;
  image_extent_map : Extents;
  out_bl : bufferlist
}.

Definition ReadOp_default : ReadOp :=
  {| image_interval := []; image_extent_map := []; out_bl := [] |}.

Inductive WriteOpType :=
| WRITE_OP_TYPE_WRITE
| WRITE_OP_TYPE_ZERO
| WRITE_OP_TYPE_REMOVE_TRUNC
| WRITE_OP_TYPE_TRUNC
| WRITE_OP_TYPE_REMOVE.

Record WriteOp := {
  wo_type : WriteOpType;
  object_offset : Z;
  object_length : Z;
  wo_bl : bufferlist
}.

Definition mkWriteOp (t : WriteOpType) (off len : Z) : WriteOp :=
  {| wo_type := t; object_offset := off; object_length := len; wo_bl := [] |}.

Abbreviation WriteOps := (list WriteOp) (only parsing).

Definition WriteOpType_eqb (a b : WriteOpType) : bool :=
  match a, b with
  | WRITE_OP_TYPE_WRITE, WRITE_OP_TYPE_WRITE
  | WRITE_OP_TYPE_ZERO, WRITE_OP_TYPE_ZERO
  | WRITE_OP_TYPE_REMOVE_TRUNC, WRITE_OP_TYPE_REMOVE_TRUNC
  | WRITE_OP_TYPE_TRUNC, WRITE_OP_TYPE_TRUNC
  | WRITE_OP_TYPE_REMOVE, WRITE_OP_TYPE_REMOVE => true
  | _, _ => false
  end.

(** include/rbd/object_map_types.h *)
Definition OBJECT_EXISTS : Z := 1.
Definition OBJECT_EXISTS_CLEAN : Z := 3.

(** [striper::LightweightObjectExtent] *)
Record ObjectExtent := {
  oe_object_no : Z;
  oe_offset : Z;
  oe_length : Z
}.

(** The image-context interface the request consumes (librbd/ImageCtx.h).
    [get_parent_overlap] is [None] when the call returns a negative result
    (the out-parameter is then left untouched); [prune_parent_extents]
    returns the pruned extents together with the overlap it reports. *)
Record ImageCtx := {
  snap_id : snap_t;
  snaps : list snap_t;
  parent : bool;
  feature_object_map : bool;
  feature_fast_diff : bool;
  migration_info_empty : bool;
  object_size : Z;
  get_object_count : snap_t -> Z;
  get_parent_overlap : snap_t -> option Z;
  prune_parent_extents : Extents -> Z -> Extents * Z
}.

(** [Striper::file_to_extents(cct, layout, offset, len, 0, buffer_offset, ..)]
    and the result of [Striper::extent_to_file] for the destination object. *)
Record Striper := {
  file_to_extents : Z -> Z -> Z -> list ObjectExtent;
  extent_to_file : Extents
}.

(** The constructor arguments of the request. *)
Record Request := {
  m_src_image_ctx : ImageCtx;
  m_dst_image_ctx : ImageCtx;
  m_src_snap_id_start : snap_t;
  m_dst_snap_id_start : snap_t;
  m_snap_map : SnapMap;
  m_dst_object_number : Z;
  m_flatten : bool;
  m_handler : bool;
  m_striper : Striper
}.

(** ** compute_dst_object_may_exist *)

Definition compute_dst_object_may_exist (req : Request) : omap snap_t bool :=
  let snap_ids := snaps (m_dst_image_ctx req) ++ [CEPH_NOSNAP] in
  fold_left
    (fun m (s : snap_t) =>
       upd s (m_dst_object_number req <?
              get_object_count (m_dst_image_ctx req) s) m)
    snap_ids [].

(** [snap_map_it->second.front()] after [find] and its assertion *)
Definition front_of (snap_map : SnapMap) (s : snap_t) : option snap_t :=
  let* ids := find s snap_map in
  match ids with
  | [] => None
  | d :: _ => Some d
  end.

(** [m_dst_object_may_exist.find(dst_snap_seq)->second] for the primary
    destination snapshot of [src_snap] *)
Definition dst_may_exist (snap_map : SnapMap) (may_exist : omap snap_t bool)
    (src_snap : snap_t) : option bool :=
  let* dst_snap_seq := front_of snap_map src_snap in
  find dst_snap_seq may_exist.

(** ** compute_read_ops *)

Abbreviation ReadOps := (omap WriteReadSnapIds ReadOp) (only parsing).

(** [m_read_ops[key].image_interval.union_insert(off, len)] *)
Definition read_op_union_insert (key : WriteReadSnapIds) (off len : Z)
    (ops : ReadOps) : ReadOps :=
  let ro := find_or ReadOp_default key ops in
  upd key {| image_interval := union_insert off len (image_interval ro);
             image_extent_map := image_extent_map ro;
             out_bl := out_bl ro |} ops.

(** the locals of [compute_read_ops] together with [m_read_ops] *)
Record ReadPlan := {
  rp_read_ops : ReadOps;
  rp_only_dne_extents : bool;
  rp_dne_image_interval : interval_set
}.

Definition read_from_parent (req : Request) : bool :=
  (m_src_snap_id_start req =? 0) && parent (m_src_image_ctx req).

(** the [switch (state)] of the inner loop (lines 443-474) *)
Definition classify_extent (req : Request) (key : WriteReadSnapIds)
    (st : ReadPlan) (e : SparseExtent) : option ReadPlan :=
  match get_state e with
  | SNAPSHOT_EXTENT_STATE_DNE =>
      let* _ := ceph_assert (key_eqb key INITIAL_WRITE_READ_SNAP_IDS) in
      if read_from_parent req then
        Some {| rp_read_ops := rp_read_ops st;
                rp_only_dne_extents := rp_only_dne_extents st;
                rp_dne_image_interval :=
                  iset_insert (get_off e) (get_len e)
                              (rp_dne_image_interval st) |}
      else Some st
  | SNAPSHOT_EXTENT_STATE_ZEROED =>
      Some {| rp_read_ops := rp_read_ops st;
              rp_only_dne_extents := false;
              rp_dne_image_interval := rp_dne_image_interval st |}
  | SNAPSHOT_EXTENT_STATE_DATA =>
      Some {| rp_read_ops :=
                read_op_union_insert key (get_off e) (get_len e)
                                     (rp_read_ops st);
              rp_only_dne_extents := false;
              rp_dne_image_interval := rp_dne_image_interval st |}
  end.

(** one iteration of the loop over [m_snapshot_delta] (lines 423-475) *)
Definition read_ops_for_key (req : Request) (may_exist : omap snap_t bool)
    (st : ReadPlan) (entry : WriteReadSnapIds * list SparseExtent)
  : option ReadPlan :=
  let write_read_snap_ids := fst entry in
  let classify := foreach (classify_extent req write_read_snap_ids)
                          (snd entry) in
  if negb (key_eqb write_read_snap_ids INITIAL_WRITE_READ_SNAP_IDS) then
    let* exists_ := dst_may_exist (m_snap_map req) may_exist
                                  (fst write_read_snap_ids) in
    if negb exists_ then Some st else classify st
  else classify st.

(** the clamp of one DNE run to the parent overlap (lines 496-510) *)
Definition parent_read_op (key : WriteReadSnapIds) (src_parent_overlap : Z)
    (ops : ReadOps) (e : Z * Z) : ReadOps :=
  let image_offset := fst e in
  let end_image_offset :=
    Z.min (add64 image_offset (snd e)) src_parent_overlap in
  if end_image_offset <=? image_offset then ops
  else read_op_union_insert key image_offset
         (sub64 end_image_offset image_offset) ops.

(** the parent stage (lines 477-512) *)
Definition parent_read_ops (req : Request) (st : ReadPlan) : option ReadOps :=
  if negb (iset_empty (rp_dne_image_interval st)) &&
     (negb (rp_only_dne_extents st) || m_flatten req) then
    match m_snap_map req with
    | [] => None
    | (src_snap_seq, _) :: _ =>
        match get_parent_overlap (m_src_image_ctx req) src_snap_seq with
        | None => Some (rp_read_ops st)
        | Some src_parent_overlap =>
            Some (fold_left
                    (parent_read_op (src_snap_seq, src_snap_seq)
                                    src_parent_overlap)
                    (rp_dne_image_interval st) (rp_read_ops st))
        end
    end
  else Some (rp_read_ops st).

Definition ReadPlan_init : ReadPlan :=
  {| rp_read_ops := []; rp_only_dne_extents := true;
     rp_dne_image_interval := [] |}.

(** [m_read_ops] after [compute_read_ops]; [m_read_snaps] is its key list *)
Definition compute_read_ops (req : Request) (may_exist : omap snap_t bool)
    (snapshot_delta : SnapshotDelta) : option ReadOps :=
  let* st := foreach (read_ops_for_key req may_exist) snapshot_delta
                     ReadPlan_init in
  parent_read_ops req st.

Definition read_snaps_of (read_ops : ReadOps) : list WriteReadSnapIds :=
  keys read_ops.

(** ** merge_write_ops *)

(** Modelled from the spec: [bufferlist::substr_of] (include/buffer.h) is
    not part of the file under verification; the write planner must
    "substring-slice the buffer".  The method is declared
    [substr_of(const list& other, unsigned off, unsigned len)], so the 64-bit
    arguments of line 558 are converted to 32 bits.  [off + len], computed
    in 32 bits, beyond the length throws [end_of_buffer]; a slice that
    passes that test only because the sum wrapped runs past the last buffer,
    which ends the run as well. *)
Definition substr_of (bl : bufferlist) (off len : Z) : option bufferlist :=
  let off := off mod u32_mod in
  let len := len mod u32_mod in
  if Z.of_nat (length bl) <? (off + len) mod u32_mod then None
  else if off + len <=? Z.of_nat (length bl) then
    Some (firstn (Z.to_nat len) (skipn (Z.to_nat off) bl))
  else None.

(** [m_write_ops[src_snap_seq].emplace_back(op)] *)
Definition emplace_back (src_snap_seq : snap_t) (op : WriteOp)
    (write_ops : omap snap_t WriteOps) : omap snap_t WriteOps :=
  upd src_snap_seq (find_or [] src_snap_seq write_ops ++ [op]) write_ops.

Record Plan := {
  m_dst_data_interval : omap snap_t interval_set;
  m_dst_zero_interval : omap snap_t interval_set;
  m_write_ops : omap snap_t WriteOps;
  m_dst_object_state : omap snap_t Z
}.

Definition Plan_init : Plan :=
  {| m_dst_data_interval := []; m_dst_zero_interval := [];
     m_write_ops := []; m_dst_object_state := [] |}.

(** the body of the loop over object extents (lines 552-564) *)
Definition write_object_extent (src_snap_seq : snap_t) (bl : bufferlist)
    (acc : omap snap_t WriteOps * Z) (oe : ObjectExtent)
  : option (omap snap_t WriteOps * Z) :=
  let buffer_offset := snd acc in
  let* tmp_bl := substr_of bl buffer_offset (oe_length oe) in
  Some (emplace_back src_snap_seq
          {| wo_type := WRITE_OP_TYPE_WRITE; object_offset := oe_offset oe;
             object_length := oe_length oe; wo_bl := tmp_bl |} (fst acc),
        add64 buffer_offset (oe_length oe)).

(** the body of the loop over the extent map (lines 547-565) *)
Definition write_image_extent (striper : Striper) (src_snap_seq : snap_t)
    (bl : bufferlist) (acc : omap snap_t WriteOps * Z) (e : Z * Z)
  : option (omap snap_t WriteOps * Z) :=
  foreach (write_object_extent src_snap_seq bl)
          (file_to_extents striper (fst e) (snd e) (snd acc)) acc.

(** one iteration of the loop over [m_read_ops] (lines 523-566) *)
Definition merge_read_op (striper : Striper) (p : Plan)
    (entry : WriteReadSnapIds * ReadOp) : option Plan :=
  let src_snap_seq := fst (fst entry) in
  let read_op := snd entry in
  let image_data_interval :=
    fold_left (fun s e => union_insert (fst e) (snd e) s)
              (image_extent_map read_op)
              (find_or [] src_snap_seq (m_dst_data_interval p)) in
  let intersection :=
    intersection_of (image_interval read_op) image_data_interval in
  let zeroed := subtract (image_interval read_op) intersection in
  let zero_interval :=
    fold_left
      (fun m e =>
         upd src_snap_seq
             (union_insert (fst e) (snd e) (find_or [] src_snap_seq m)) m)
      zeroed (m_dst_zero_interval p) in
  let* w := foreach (write_image_extent striper src_snap_seq (out_bl read_op))
                    (image_extent_map read_op) (m_write_ops p, 0) in
  Some {| m_dst_data_interval :=
            upd src_snap_seq image_data_interval (m_dst_data_interval p);
          m_dst_zero_interval := zero_interval;
          m_write_ops := fst w;
          m_dst_object_state := m_dst_object_state p |}.

Definition merge_write_ops (striper : Striper) (read_ops : ReadOps)
  : option Plan :=
  foreach (merge_read_op striper) read_ops Plan_init.

(** ** compute_zero_ops *)

Definition hide_parent_init (req : Request) : bool :=
  (m_src_snap_id_start req =? 0) && parent (m_src_image_ctx req).

(** [m_dst_zero_interval[s].union_insert(off, len)] *)
Definition zero_union_insert (s : snap_t) (off len : Z)
    (m : omap snap_t interval_set) : omap snap_t interval_set :=
  upd s (union_insert off len (find_or [] s m)) m.

(** the [switch (state)] of the collection loop (lines 581-609) *)
Definition collect_zeroed_extent (hide_parent : bool)
    (first_src_snap_id : snap_t) (key : WriteReadSnapIds)
    (m : omap snap_t interval_set) (e : SparseExtent)
  : omap snap_t interval_set :=
  match get_state e with
  | SNAPSHOT_EXTENT_STATE_ZEROED =>
      if negb (key_eqb key (0, 0)) then
        zero_union_insert (fst key) (get_off e) (get_len e) m
      else if hide_parent then
        zero_union_insert first_src_snap_id (get_off e) (get_len e) m
      else m
  | SNAPSHOT_EXTENT_STATE_DNE
  | SNAPSHOT_EXTENT_STATE_DATA => m
  end.

(** the collection loop over [m_snapshot_delta] (lines 579-610) *)
Definition collect_zeroed (hide_parent : bool) (first_src_snap_id : snap_t)
    (snapshot_delta : SnapshotDelta) (m : omap snap_t interval_set)
  : omap snap_t interval_set :=
  fold_left
    (fun m entry =>
       fold_left (collect_zeroed_extent hide_parent first_src_snap_id
                                        (fst entry))
                 (snd entry) m)
    snapshot_delta m.

(** "ensure we have a zeroed interval for each snapshot" (lines 616-618) *)
Definition ensure_zero_intervals (snap_map : SnapMap)
    (m : omap snap_t interval_set) : omap snap_t interval_set :=
  fold_left
    (fun m entry =>
       match find (fst entry) m with
       | Some _ => m
       | None => upd (fst entry) [] m
       end)
    snap_map m.

(** the hide-parent block (lines 644-670): the new flag and the new
    [prev_end_size]; [first] tells whether this is the first key of
    [m_dst_zero_interval] *)
Definition update_hide_parent (req : Request) (dst_snap_seq : snap_t)
    (first : bool) (hide_parent : bool) (prev_end_size : Z)
  : option (bool * Z) :=
  if hide_parent then
    let parent_overlap :=
      match get_parent_overlap (m_dst_image_ctx req) dst_snap_seq with
      | Some v => v
      | None => 0
      end in
    if parent_overlap =? 0 then Some (false, prev_end_size)
    else
      let pruned := prune_parent_extents (m_dst_image_ctx req)
                      (extent_to_file (m_striper req)) parent_overlap in
      if snd pruned =? 0 then Some (false, prev_end_size)
      else if first then
        let prev_end_size' :=
          fold_left (fun acc e => add64 acc (snd e)) (fst pruned)
                    prev_end_size in
        let* _ := ceph_assert
                    (prev_end_size' <=? object_size (m_dst_image_ctx req)) in
        Some (true, prev_end_size')
      else Some (true, prev_end_size)
  else Some (false, prev_end_size).

(** "update end_size if there are writes into higher offsets"
    (lines 672-681) *)
Definition end_size_of_writes (prev_end_size : Z) (src_snap_seq : snap_t)
    (write_ops : omap snap_t WriteOps) : Z :=
  match find src_snap_seq write_ops with
  | Some ops =>
      fold_left
        (fun end_size write_op =>
           Z.max end_size
                 (add64 (object_offset write_op) (object_length write_op)))
        ops prev_end_size
  | None => prev_end_size
  end.

(** the body of the loop over the object extents of one zeroed run
    (lines 692-720), on [m_write_ops] and [end_size] *)
Definition zero_object_extent (src_snap_seq : snap_t) (hide_parent : bool)
    (prev_end_size : Z) (acc : omap snap_t WriteOps * Z) (oe : ObjectExtent)
  : omap snap_t WriteOps * Z :=
  let write_ops := fst acc in
  let end_size := snd acc in
  if end_size <=? add64 (oe_offset oe) (oe_length oe) then
    let write_ops' :=
      if (oe_offset oe =? 0) && hide_parent then
        emplace_back src_snap_seq
                     (mkWriteOp WRITE_OP_TYPE_REMOVE_TRUNC 0 0) write_ops
      else if oe_offset oe <? prev_end_size then
        if oe_offset oe =? 0 then
          emplace_back src_snap_seq
                       (mkWriteOp WRITE_OP_TYPE_REMOVE 0 0) write_ops
        else
          emplace_back src_snap_seq
                       (mkWriteOp WRITE_OP_TYPE_TRUNC (oe_offset oe) 0)
                       write_ops
      else write_ops in
    (write_ops', Z.min end_size (oe_offset oe))
  else
    (emplace_back src_snap_seq
                  (mkWriteOp WRITE_OP_TYPE_ZERO (oe_offset oe) (oe_length oe))
                  write_ops,
     end_size).

(** the loop over the zeroed runs (lines 687-721) *)
Definition zero_ops_of_interval (striper : Striper) (src_snap_seq : snap_t)
    (hide_parent : bool) (prev_end_size : Z) (zero_interval : interval_set)
    (acc : omap snap_t WriteOps * Z) : omap snap_t WriteOps * Z :=
  fold_left
    (fun acc z =>
       fold_left (zero_object_extent src_snap_seq hide_parent prev_end_size)
                 (file_to_extents striper (fst z) (snd z) 0) acc)
    zero_interval acc.

(** the object-map state of one snapshot (lines 725-731) *)
Definition record_object_state (fast_diff : bool) (src_snap_seq : snap_t)
    (hide_parent : bool) (prev_end_size end_size : Z)
    (write_ops : omap snap_t WriteOps) (object_state : omap snap_t Z)
  : omap snap_t Z :=
  if (0 <? end_size) || hide_parent then
    let object_state' := upd src_snap_seq OBJECT_EXISTS object_state in
    if fast_diff && (end_size =? prev_end_size) &&
       negb (has_key src_snap_seq write_ops) then
      upd src_snap_seq OBJECT_EXISTS_CLEAN object_state'
    else object_state'
  else object_state.

(** the loop state of the synthesis loop *)
Record ZeroState := {
  zs_plan : Plan;
  zs_hide_parent : bool;
  zs_prev_end_size : Z
}.

(** one iteration of the loop over [m_dst_zero_interval] (lines 621-733);
    [first_key] is [m_dst_zero_interval.begin()->first] *)
Definition zero_ops_for_snap (req : Request) (may_exist : omap snap_t bool)
    (first_key : snap_t) (st : ZeroState) (src_snap_seq : snap_t)
  : option ZeroState :=
  let p := zs_plan st in
  let data_interval := find_or [] src_snap_seq (m_dst_data_interval p) in
  let zero_interval0 := find_or [] src_snap_seq (m_dst_zero_interval p) in
  let intersection := intersection_of zero_interval0 data_interval in
  let zero_interval := subtract zero_interval0 intersection in
  let data_map := upd src_snap_seq data_interval (m_dst_data_interval p) in
  let zero_map := upd src_snap_seq zero_interval (m_dst_zero_interval p) in
  let* dst_snap_seq := front_of (m_snap_map req) src_snap_seq in
  let* exists_ := find dst_snap_seq may_exist in
  if negb exists_ && (0 <? zs_prev_end_size st) then
    Some {| zs_plan :=
              {| m_dst_data_interval := data_map;
                 m_dst_zero_interval := zero_map;
                 m_write_ops :=
                   emplace_back src_snap_seq
                                (mkWriteOp WRITE_OP_TYPE_REMOVE 0 0)
                                (m_write_ops p);
                 m_dst_object_state := m_dst_object_state p |};
            zs_hide_parent := zs_hide_parent st;
            zs_prev_end_size := 0 |}
  else
    let* hp := update_hide_parent req dst_snap_seq
                 (key_eqb src_snap_seq first_key)
                 (zs_hide_parent st) (zs_prev_end_size st) in
    let hide_parent := fst hp in
    let prev_end_size := snd hp in
    let end_size0 :=
      end_size_of_writes prev_end_size src_snap_seq (m_write_ops p) in
    let w := zero_ops_of_interval (m_striper req) src_snap_seq hide_parent
               prev_end_size zero_interval (m_write_ops p, end_size0) in
    let end_size := snd w in
    Some {| zs_plan :=
              {| m_dst_data_interval := data_map;
                 m_dst_zero_interval := zero_map;
                 m_write_ops := fst w;
                 m_dst_object_state :=
                   record_object_state
                     (feature_fast_diff (m_dst_image_ctx req)) src_snap_seq
                     hide_parent prev_end_size end_size (fst w)
                     (m_dst_object_state p) |};
            zs_hide_parent := hide_parent;
            zs_prev_end_size := end_size |}.

Definition compute_zero_ops (req : Request) (may_exist : omap snap_t bool)
    (snapshot_delta : SnapshotDelta) (p : Plan) : option Plan :=
  match m_snap_map req with
  | [] => None
  | (first_src_snap_id, _) :: _ =>
      let hide_parent := hide_parent_init req in
      let zero_map :=
        ensure_zero_intervals (m_snap_map req)
          (collect_zeroed hide_parent first_src_snap_id snapshot_delta
                          (m_dst_zero_interval p)) in
      let p0 := {| m_dst_data_interval := m_dst_data_interval p;
                   m_dst_zero_interval := zero_map;
                   m_write_ops := m_write_ops p;
                   m_dst_object_state := m_dst_object_state p |} in
      let first_key := match zero_map with
                       | [] => first_src_snap_id
                       | (k, _) :: _ => k
                       end in
      let* st := foreach (zero_ops_for_snap req may_exist first_key)
                         (keys zero_map)
                         {| zs_plan := p0;
                            zs_hide_parent := hide_parent;
                            zs_prev_end_size := 0 |} in
      Some (zs_plan st)
  end.

(** [merge_write_ops(); compute_zero_ops();] of [send_read] *)
Definition plan_writes (req : Request) (may_exist : omap snap_t bool)
    (snapshot_delta : SnapshotDelta) (read_ops : ReadOps) : option Plan :=
  let* p := merge_write_ops (m_striper req) read_ops in
  compute_zero_ops req may_exist snapshot_delta p.

(** ** The asynchronous executor *)

(** The operations composed into one [librados::ObjectWriteOperation]. *)
Inductive RadosOp :=
| OpAssertSnapcSeq (snap_seq : snap_t)
| OpWrite (off : Z) (bl : bufferlist)
| OpZero (off len : Z)
| OpCreate (exclusive : bool)
| OpTruncate (off : Z)
| OpRemove.

(** What the request does to its collaborators, in order. *)
Inductive Event :=
| EvRead (read_snap : snap_t) (image_extents : Extents)
         (disable_clipping : bool)
| EvHandlerRead (bytes_read : Z)
| EvOperate (dst_snap_seq : snap_t) (dst_snaps : SnapIds)
            (ops : list RadosOp)
| EvObjectMapUpdate (dst_snap_id : snap_t) (object_no : Z) (state : Z).

(** The completions the collaborators deliver.
    - [env_list_snaps]: the result and the delta of the list-snaps request;
    - [env_read]: result, sparse extent map and data of a read;
    - [env_exclusive_lock]: [false] when [exclusive_lock == nullptr];
    - [env_start_op]: [None] when the lock hands out an operation token,
      [Some r] when it returns [nullptr] with result [r], asked for the batch
      or update of the given source snapshot ([true] for an update);
    - [env_aio_operate]: the completion result of a batch;
    - [env_object_map]: [false] when [object_map == nullptr];
    - [env_aio_update]: [None] when the update is not sent, else its result. *)
Record Env := {
  env_list_snaps : list snap_t -> Z * SnapshotDelta;
  env_read : snap_t -> Extents -> Z * Extents * bufferlist;
  env_exclusive_lock : bool;
  env_start_op : bool -> snap_t -> option Z;
  env_aio_operate : snap_t -> SnapIds -> list RadosOp -> Z;
  env_object_map : snap_t -> bool;
  env_aio_update : snap_t -> Z -> Z -> option Z
}.

(** A finished request: the events it caused and the value passed to
    [on_finish->complete].  An aborted run has no outcome. *)
Definition Outcome := option (list Event * Z).

Definition finish (trace : list Event) (r : Z) : Outcome := Some (trace, r).

(** [start_lock_op]: [None] when a context is returned *)
Definition start_lock_op (env : Env) (update : bool) (s : snap_t)
  : option Z :=
  if env_exclusive_lock env then env_start_op env update s else None.

(** *** send_update_object_map / handle_update_object_map *)

Definition handle_update_object_map (next : list Event -> Outcome)
    (trace : list Event) (r : Z) : Outcome :=
  if r <? 0 then finish trace r else next trace.

(** [send_update_object_map] once the feature test has passed and
    [m_dst_object_state] is not empty; the recursion is the call from
    [handle_update_object_map] *)
Fixpoint update_object_maps (req : Request) (env : Env)
    (object_state : omap snap_t Z) (trace : list Event) : Outcome :=
  match object_state with
  | [] => finish trace 0
  | (src_snap, state) :: rest =>
      if negb (env_object_map env src_snap) then finish trace (- EINVAL)
      else
        let* dst_snap_id := front_of (m_snap_map req) src_snap in
        match start_lock_op env true src_snap with
        | Some r => finish trace r
        | None =>
            let trace' :=
              trace ++ [EvObjectMapUpdate dst_snap_id
                          (m_dst_object_number req) state] in
            let next := update_object_maps req env rest in
            match env_aio_update env dst_snap_id
                    (m_dst_object_number req) state with
            | None =>
                let* _ := ceph_assert (dst_snap_id =? CEPH_NOSNAP) in
                handle_update_object_map next trace' 0
            | Some r => handle_update_object_map next trace' r
            end
        end
  end.

Definition send_update_object_map (req : Request) (env : Env)
    (object_state : omap snap_t Z) (trace : list Event) : Outcome :=
  if negb (feature_object_map (m_dst_image_ctx req)) ||
     is_empty object_state then
    finish trace 0
  else update_object_maps req env object_state trace.

(** *** send_write_object / handle_write_object *)

(** "retrieve the destination snap context for the op" (lines 198-226):
    [dst_snap_ids] and [dst_snap_seq] of a batch *)
Definition dst_snap_context (snap_map : SnapMap) (may_exist : omap snap_t bool)
    (src_snap_seq : snap_t) (write_ops : WriteOps)
  : option (SnapIds * snap_t) :=
  if negb (src_snap_seq =? 0) then
    let* ids := find src_snap_seq snap_map in
    match ids with
    | [] => None
    | dst_snap_id :: dst_snap_ids =>
        let* exists_ := find dst_snap_id may_exist in
        let* _ :=
          if negb exists_ && negb (is_empty write_ops) then
            let* _ := ceph_assert (Nat.eqb (length write_ops) 1) in
            ceph_assert
              (match write_ops with
               | op :: _ => WriteOpType_eqb (wo_type op) WRITE_OP_TYPE_REMOVE
               | [] => false
               end)
          else Some tt in
        let dst_snap_seq := match dst_snap_ids with
                            | [] => 0
                            | s :: _ => s
                            end in
        let* _ := ceph_assert (negb (dst_snap_seq =? CEPH_NOSNAP)) in
        Some (dst_snap_ids, dst_snap_seq)
    end
  else Some ([], 0).

(** the [switch (write_op.type)] (lines 238-267) *)
Definition rados_ops_of (write_op : WriteOp) : list RadosOp :=
  match wo_type write_op with
  | WRITE_OP_TYPE_WRITE => [OpWrite (object_offset write_op) (wo_bl write_op)]
  | WRITE_OP_TYPE_ZERO =>
      [OpZero (object_offset write_op) (object_length write_op)]
  | WRITE_OP_TYPE_REMOVE_TRUNC =>
      [OpCreate false; OpTruncate (object_offset write_op)]
  | WRITE_OP_TYPE_TRUNC => [OpTruncate (object_offset write_op)]
  | WRITE_OP_TYPE_REMOVE => [OpRemove]
  end.

(** the [ObjectWriteOperation] of a batch *)
Definition build_op (req : Request) (dst_snap_seq : snap_t)
    (write_ops : WriteOps) : list RadosOp :=
  (if negb (migration_info_empty (m_dst_image_ctx req))
   then [OpAssertSnapcSeq dst_snap_seq] else []) ++
  flat_map rados_ops_of write_ops.

(** the normalisation at the head of [handle_write_object] (lines 301-306) *)
Definition normalize_write_result (r : Z) : Z :=
  if r =? - ENOENT then 0
  else if r =? - ERANGE then 0
  else r.

(** [handle_write_object(r)]: [next] is what follows the erase of the first
    batch, [send_write_object] on the rest or [send_update_object_map] *)
Definition handle_write_object (next : list Event -> Outcome)
    (trace : list Event) (r : Z) : Outcome :=
  let r := normalize_write_result r in
  if r <? 0 then finish trace r else next trace.

(** [send_write_object] on a non-empty [m_write_ops]; the recursion is the
    call from [handle_write_object] *)
Fixpoint write_objects (req : Request) (env : Env)
    (may_exist : omap snap_t bool) (object_state : omap snap_t Z)
    (write_ops : omap snap_t WriteOps) (trace : list Event) : Outcome :=
  match write_ops with
  | [] => send_update_object_map req env object_state trace
  | (src_snap_seq, ops) :: rest =>
      let* ctx := dst_snap_context (m_snap_map req) may_exist
                                   src_snap_seq ops in
      let dst_snap_ids := fst ctx in
      let dst_snap_seq := snd ctx in
      let op := build_op req dst_snap_seq ops in
      let next := write_objects req env may_exist object_state rest in
      if Nat.eqb (length op)
                 (if migration_info_empty (m_dst_image_ctx req)
                  then 0%nat else 1%nat) then
        handle_write_object next trace 0
      else
        match start_lock_op env false src_snap_seq with
        | Some r => finish trace r
        | None =>
            handle_write_object next
              (trace ++ [EvOperate dst_snap_seq dst_snap_ids op])
              (env_aio_operate env dst_snap_seq dst_snap_ids op)
        end
  end.

Definition send_write_object (req : Request) (env : Env)
    (may_exist : omap snap_t bool) (object_state : omap snap_t Z)
    (write_ops : omap snap_t WriteOps) (trace : list Event) : Outcome :=
  let* _ := ceph_assert (negb (is_empty write_ops)) in
  write_objects req env may_exist object_state write_ops trace.

(** *** send_read / handle_read *)

(** [handle_read(r)] for the read op at the head of [m_read_snaps]; [next]
    is [send_read] after the erase of that head *)
Definition handle_read (req : Request) (read_op : ReadOp)
    (next : list Event -> Outcome) (trace : list Event) (r : Z) : Outcome :=
  if r <? 0 then finish trace r
  else
    next (if m_handler req
          then trace ++ [EvHandlerRead (Z.of_nat (length (out_bl read_op)))]
          else trace).

(** the read of one key: the read op as the completion leaves it, the events
    and the result handed to [handle_read] (lines 131-167) *)
Definition issue_read (req : Request) (env : Env) (index : WriteReadSnapIds)
    (read_op : ReadOp) : ReadOp * list Event * Z :=
  if iset_empty (image_interval read_op) then (read_op, [], 0)
  else
    let image_extents := image_interval read_op in
    let read_flags := negb (snd index =? snap_id (m_src_image_ctx req)) in
    let res := env_read env (snd index) image_extents in
    ({| image_interval := image_interval read_op;
        image_extent_map := snd (fst res);
        out_bl := snd res |},
     [EvRead (snd index) image_extents read_flags],
     fst (fst res)).

(** [send_read] over [m_read_snaps]; [done] is the planning and write phase
    entered once every snapshot has been read *)
Fixpoint send_read (req : Request) (env : Env)
    (done : ReadOps -> list Event -> Outcome)
    (read_snaps : list WriteReadSnapIds) (read_ops : ReadOps)
    (trace : list Event) : Outcome :=
  match read_snaps with
  | [] => done read_ops trace
  | index :: rest =>
      let read_op := find_or ReadOp_default index read_ops in
      let res := issue_read req env index read_op in
      let read_op' := fst (fst res) in
      let read_ops' := upd index read_op' read_ops in
      handle_read req read_op'
        (send_read req env done rest read_ops')
        (trace ++ snd (fst res)) (snd res)
  end.

(** the branch of [send_read] taken when [m_read_snaps] is empty
    (lines 116-129) *)
Definition send_writes (req : Request) (env : Env)
    (may_exist : omap snap_t bool) (snapshot_delta : SnapshotDelta)
    (read_ops : ReadOps) (trace : list Event) : Outcome :=
  let* p := plan_writes req may_exist snapshot_delta read_ops in
  if is_empty (m_write_ops p) then finish trace (- ENOENT)
  else send_write_object req env may_exist (m_dst_object_state p)
                         (m_write_ops p) trace.

(** *** send / send_list_snaps / handle_list_snaps *)

(** the snap ids of the list-snaps request (lines 72-79): the start
    snapshot, then every key of the snap map that differs from
    [snap_ids.front()] *)
Definition list_snap_ids (req : Request) : list snap_t :=
  fold_left
    (fun snap_ids src_snap_id =>
       if negb (src_snap_id =? hd 0 snap_ids)
       then snap_ids ++ [src_snap_id]
       else snap_ids)
    (keys (m_snap_map req)) [m_src_snap_id_start req].

(** [handle_list_snaps(r)] with the delta the request filled in *)
Definition handle_list_snaps (req : Request) (env : Env) (r : Z)
    (snapshot_delta : SnapshotDelta) : Outcome :=
  if r <? 0 then finish [] r
  else
    let may_exist := compute_dst_object_may_exist req in
    let* read_ops := compute_read_ops req may_exist snapshot_delta in
    send_read req env (send_writes req env may_exist snapshot_delta)
              (read_snaps_of read_ops) read_ops [].

Definition send_list_snaps (req : Request) (env : Env) : Outcome :=
  let res := env_list_snaps env (list_snap_ids req) in
  handle_list_snaps req env (fst res) (snd res).

(** the constructor's [ceph_assert(!m_snap_map.empty())], then [send()] *)
Definition send (req : Request) (env : Env) : Outcome :=
  let* _ := ceph_assert (negb (is_empty (m_snap_map req))) in
  send_list_snaps req env.

(** a batch that goes through: its snap context resolves and either it
    carries no op beyond the migration assertion, or the lock hands out a
    token and the completion result is success after normalisation *)
Definition batch_completes (req : Request) (env : Env)
    (may_exist : omap snap_t bool) (batch : snap_t * WriteOps) : Prop :=
  exists dst_snap_ids dst_snap_seq,
    dst_snap_context (m_snap_map req) may_exist (fst batch) (snd batch)
      = Some (dst_snap_ids, dst_snap_seq) /\
    let op := build_op req dst_snap_seq (snd batch) in
    (length op = (if migration_info_empty (m_dst_image_ctx req)
                  then 0%nat else 1%nat) \/
     (start_lock_op env false (fst batch) = None /\
      0 <= normalize_write_result
             (env_aio_operate env dst_snap_seq dst_snap_ids op))).

(** [true] when the batch of [src_snap_seq] holds an op of type WRITE *)
Definition has_write (src_snap_seq : snap_t)
    (write_ops : omap snap_t WriteOps) : bool :=
  existsb (fun op => WriteOpType_eqb (wo_type op) WRITE_OP_TYPE_WRITE)
          (find_or [] src_snap_seq write_ops).

(** ** Vocabulary of the statements about the read phase *)

(** what the read phase does for one planned key when its read succeeds:
    nothing but a handler call with 0 bytes for an empty interval, else the
    read followed by a handler call with the number of bytes returned *)
Definition read_phase_events (req : Request) (env : Env)
    (entry : WriteReadSnapIds * ReadOp) : list Event :=
  let index := fst entry in
  let read_op := snd entry in
  if iset_empty (image_interval read_op) then [EvHandlerRead 0]
  else
    [EvRead (snd index) (image_interval read_op)
            (negb (snd index =? snap_id (m_src_image_ctx req)));
     EvHandlerRead
       (Z.of_nat (length (snd (env_read env (snd index)
                                        (image_interval read_op)))))].

(** the byte counts passed to [Handler::handle_read], in call order *)
Definition handler_calls (trace : list Event) : list Z :=
  flat_map (fun e => match e with
                     | EvHandlerRead bytes_read => [bytes_read]
                     | _ => []
                     end) trace.

(** read ops as the planner leaves them: ascending keys, nothing read yet *)
Definition fresh_read_ops (read_ops : ReadOps) : Prop :=
  sorted_keys read_ops /\
  Forall (fun e => image_extent_map (snd e) = [] /\ out_bl (snd e) = [])
         read_ops.

(** every read that is issued completes with a non-negative result *)
Definition reads_succeed (env : Env) (read_ops : ReadOps) : Prop :=
  Forall (fun e =>
            iset_empty (image_interval (snd e)) = false ->
            0 <= fst (fst (env_read env (snd (fst e))
                                    (image_interval (snd e)))))
         read_ops.

(** [b] is [a] after its read: same key, same requested interval *)
Definition same_request (a b : WriteReadSnapIds * ReadOp) : Prop :=
  fst b = fst a /\ image_interval (snd b) = image_interval (snd a).

(** ** Vocabulary of the statements about the planner *)

(** a key of the delta that the read planner does not skip *)
Definition key_is_read (req : Request) (may_exist : omap snap_t bool)
    (key : WriteReadSnapIds) : Prop :=
  key = INITIAL_WRITE_READ_SNAP_IDS \/
  dst_may_exist (m_snap_map req) may_exist (fst key) = Some true.

Definition extent_in_range (e : SparseExtent) : Prop :=
  run_in_range (get_off e, get_len e).

(** the runs of the delta are 64-bit offsets and lengths *)
Definition delta_in_range (snapshot_delta : SnapshotDelta) : Prop :=
  Forall (fun entry => Forall extent_in_range (snd entry)) snapshot_delta.

(** a byte covered by an extent of the given state in a list of extents *)
Definition state_byte (state : SnapshotExtentState)
    (extents : list SparseExtent) (x : Z) : Prop :=
  exists e, In e extents /\ get_state e = state /\
            in_extent x (get_off e, get_len e).

(** the bytes reported DNE under the initial key *)
Definition dne_bytes (snapshot_delta : SnapshotDelta) (x : Z) : Prop :=
  exists extents,
    In (INITIAL_WRITE_READ_SNAP_IDS, extents) snapshot_delta /\
    state_byte SNAPSHOT_EXTENT_STATE_DNE extents x.

(** some extent under a key that is read is not DNE *)
Definition has_non_dne_extent (req : Request) (may_exist : omap snap_t bool)
    (snapshot_delta : SnapshotDelta) : Prop :=
  exists key extents e,
    In (key, extents) snapshot_delta /\ key_is_read req may_exist key /\
    In e extents /\ get_state e <> SNAPSHOT_EXTENT_STATE_DNE.

(** the interval requested under a key of the read plan *)
Definition planned_interval (key : WriteReadSnapIds) (read_ops : ReadOps)
  : interval_set :=
  image_interval (find_or ReadOp_default key read_ops).






(** ** Vocabulary of the statements about the synthesis loop *)

(** the loop over [m_dst_zero_interval] (lines 621-733) as it starts on the
    plan [p] that [merge_write_ops] left: the first key of the map, the keys
    to visit and the initial loop state *)
Definition zero_loop_start (req : Request) (snapshot_delta : SnapshotDelta)
    (p : Plan) : option (snap_t * list snap_t * ZeroState) :=
  match m_snap_map req with
  | [] => None
  | (first_src_snap_id, _) :: _ =>
      let zero_map :=
        ensure_zero_intervals (m_snap_map req)
          (collect_zeroed (hide_parent_init req) first_src_snap_id
                          snapshot_delta (m_dst_zero_interval p)) in
      Some (match zero_map with
            | [] => first_src_snap_id
            | (k, _) :: _ => k
            end,
            keys zero_map,
            {| zs_plan :=
                 {| m_dst_data_interval := m_dst_data_interval p;
                    m_dst_zero_interval := zero_map;
                    m_write_ops := m_write_ops p;
                    m_dst_object_state := m_dst_object_state p |};
               zs_hide_parent := hide_parent_init req;
               zs_prev_end_size := 0 |})
  end.

(** the iteration of that loop for the snapshot [S], in the run of the
    planner on the given delta and read results: it starts in the state [st]
    that the iterations of the snapshots before [S] leave, and ends in
    [st'] *)
Definition snapshot_iteration (req : Request) (may_exist : omap snap_t bool)
    (snapshot_delta : SnapshotDelta) (read_ops : ReadOps)
    (first_key S : snap_t) (st st' : ZeroState) : Prop :=
  exists merged snaps st0 before after,
    merge_write_ops (m_striper req) read_ops = Some merged /\
    zero_loop_start req snapshot_delta merged = Some (first_key, snaps, st0) /\
    snaps = before ++ S :: after /\
    foreach (zero_ops_for_snap req may_exist first_key) before st0 = Some st /\
    zero_ops_for_snap req may_exist first_key st S = Some st'.

(** the existence guard of lines 637-642 fires for the snapshot *)
Definition removed_by_guard (req : Request) (may_exist : omap snap_t bool)
    (S : snap_t) (st : ZeroState) : Prop :=
  dst_may_exist (m_snap_map req) may_exist S = Some false /\
  0 < zs_prev_end_size st.






(** ** Example collaborators

    A one-object layout with eight-byte objects (object extents are the image
    extents), images without and with a parent, and collaborators that
    complete every request with success. *)

Definition ex_striper : Striper :=
  {| file_to_extents :=
       fun off len _ =>
         [{| oe_object_no := 0; oe_offset := off; oe_length := len |}];
     extent_to_file := [(0, 8)] |}.

(** [ImageCtx::prune_parent_extents] on the single extent of the example
    layout: the extent is cut at the overlap *)
Definition ex_prune (extents : Extents) (overlap : Z) : Extents * Z :=
  match extents with
  | (o, l) :: _ =>
      if overlap <=? o then ([], 0)
      else ([(o, Z.min l (overlap - o))], Z.min l (overlap - o))
  | [] => ([], 0)
  end.

Definition ex_image (has_parent : bool) (overlap : snap_t -> option Z)
    (object_count : snap_t -> Z) : ImageCtx :=
  {| snap_id := CEPH_NOSNAP;
     snaps := [110; 120];
     parent := has_parent;
     feature_object_map := true;
     feature_fast_diff := true;
     migration_info_empty := true;
     object_size := 8;
     get_object_count := object_count;
     get_parent_overlap := overlap;
     prune_parent_extents := ex_prune |}.

Definition ex_snap_map : SnapMap :=
  [(10, [110]); (20, [120]); (CEPH_NOSNAP, [CEPH_NOSNAP])].

(** the request of the concrete scenarios: no parent, object 0 of images
    that hold one object at every snapshot *)
Definition ex_req : Request :=
  {| m_src_image_ctx := ex_image false (fun _ => None) (fun _ => 1);
     m_dst_image_ctx := ex_image false (fun _ => None) (fun _ => 1);
     m_src_snap_id_start := 0;
     m_dst_snap_id_start := 0;
     m_snap_map := ex_snap_map;
     m_dst_object_number := 0;
     m_flatten := false;
     m_handler := true;
     m_striper := ex_striper |}.

Definition extent_bytes (extents : Extents) : Z :=
  fold_left (fun acc e => acc + snd e) extents 0.

(** a source that returns every requested byte *)
Definition ex_read (read_snap : snap_t) (extents : Extents)
  : Z * Extents * bufferlist :=
  (0, extents, repeat Byte.xaa (Z.to_nat (extent_bytes extents))).

Definition ex_env (delta : SnapshotDelta) : Env :=
  {| env_list_snaps := fun _ => (0, delta);
     env_read := ex_read;
     env_exclusive_lock := false;
     env_start_op := fun _ _ => None;
     env_aio_operate := fun _ _ _ => 0;
     env_object_map := fun _ => true;
     env_aio_update := fun _ _ _ => Some 0 |}.

(** the same image without the object-map feature *)
Definition without_object_map (ictx : ImageCtx) : ImageCtx :=
  {| snap_id := snap_id ictx;
     snaps := snaps ictx;
     parent := parent ictx;
     feature_object_map := false;
     feature_fast_diff := feature_fast_diff ictx;
     migration_info_empty := migration_info_empty ictx;
     object_size := object_size ictx;
     get_object_count := get_object_count ictx;
     get_parent_overlap := get_parent_overlap ictx;
     prune_parent_extents := prune_parent_extents ictx |}.

(** [ex_req] with a destination that has no object map *)
Definition ex_req_plain : Request :=
  {| m_src_image_ctx := m_src_image_ctx ex_req;
     m_dst_image_ctx := without_object_map (m_dst_image_ctx ex_req);
     m_src_snap_id_start := 0;
     m_dst_snap_id_start := 0;
     m_snap_map := ex_snap_map;
     m_dst_object_number := 0;
     m_flatten := false;
     m_handler := true;
     m_striper := ex_striper |}.

(** every batch loses the race against a concurrent deep copy *)
Definition ex_env_erange : Env :=
  {| env_list_snaps := fun _ => (0, []);
     env_read := ex_read;
     env_exclusive_lock := false;
     env_start_op := fun _ _ => None;
     env_aio_operate := fun _ _ _ => - ERANGE;
     env_object_map := fun _ => true;
     env_aio_update := fun _ _ _ => Some 0 |}.

Definition ex_may_exist : omap snap_t bool :=
  [(110, true); (120, true); (CEPH_NOSNAP, true)].

Definition sparse (off len : Z) (state : SnapshotExtentState) : SparseExtent :=
  {| get_off := off; get_len := len; get_state := state |}.

(** the destination object cannot exist at snapshot 120 *)
Definition ex_may_exist_not_120 : omap snap_t bool :=
  [(110, true); (120, false); (CEPH_NOSNAP, true)].

(** the synthesis loop about to process snapshot 20: the object is eight
    bytes long at snapshot 10 and bytes 2..3 are zeroed at snapshot 20 *)
Definition ex_zero_state_20 : ZeroState :=
  {| zs_plan :=
       {| m_dst_data_interval := [(10, [(0, 8)])];
          m_dst_zero_interval := [(10, []); (20, [(2, 2)]); (CEPH_NOSNAP, [])];
          m_write_ops := [(10, [{| wo_type := WRITE_OP_TYPE_WRITE;
                                   object_offset := 0; object_length := 8;
                                   wo_bl := repeat Byte.xaa 8 |}])];
          m_dst_object_state := [(10, OBJECT_EXISTS)] |};
     zs_hide_parent := false;
     zs_prev_end_size := 8 |}.

(** a source whose reads fail with -EIO *)
Definition ex_env_read_fails (delta : SnapshotDelta) : Env :=
  {| env_list_snaps := fun _ => (0, delta);
     env_read := fun _ _ => (-5, [], []);
     env_exclusive_lock := false;
     env_start_op := fun _ _ => None;
     env_aio_operate := fun _ _ _ => 0;
     env_object_map := fun _ => true;
     env_aio_update := fun _ _ _ => Some 0 |}.

(** data written before snapshot 10 and again before snapshot 20 *)
Definition ex_delta_two_reads : SnapshotDelta :=
  [((10, 10), [sparse 0 8 SNAPSHOT_EXTENT_STATE_DATA]);
   ((20, 20), [sparse 0 4 SNAPSHOT_EXTENT_STATE_DATA])].

(** a read plan whose second key has nothing to read *)
Definition ex_read_ops_empty_key : ReadOps :=
  [((10, 10), {| image_interval := [(0, 8)]; image_extent_map := [];
                 out_bl := [] |});
   ((20, 20), ReadOp_default)].

(** a read phase followed by nothing *)
Definition ex_done (_ : ReadOps) (trace : list Event) : Outcome :=
  finish trace 0.

(** a clone: source and destination have a parent that overlaps the first
    six bytes of the object at every snapshot *)
Definition ex_req_parent (flatten : bool) : Request :=
  {| m_src_image_ctx := ex_image true (fun _ => Some 6) (fun _ => 1);
     m_dst_image_ctx := ex_image true (fun _ => Some 6) (fun _ => 1);
     m_src_snap_id_start := 0;
     m_dst_snap_id_start := 0;
     m_snap_map := ex_snap_map;
     m_dst_object_number := 0;
     m_flatten := flatten;
     m_handler := true;
     m_striper := ex_striper |}.

(** the object does not exist at the start; data appears before snapshot 20 *)
Definition ex_delta_dne_then_data : SnapshotDelta :=
  [(INITIAL_WRITE_READ_SNAP_IDS, [sparse 0 8 SNAPSHOT_EXTENT_STATE_DNE]);
   ((20, 20), [sparse 0 4 SNAPSHOT_EXTENT_STATE_DATA])].


(** data written before snapshot 10 only *)
Definition ex_delta_data_10 : SnapshotDelta :=
  [((10, 10), [sparse 0 8 SNAPSHOT_EXTENT_STATE_DATA])].


(** the reads of [ex_delta_two_reads] come back in full *)
Definition ex_read_ops_full : ReadOps :=
  [((10, 10), {| image_interval := [(0, 8)]; image_extent_map := [(0, 8)];
                 out_bl := repeat Byte.xaa 8 |});
   ((20, 20), {| image_interval := [(0, 4)]; image_extent_map := [(0, 4)];
                 out_bl := repeat Byte.xaa 4 |})].

(** a clone copied from snapshot 0 whose destination holds no object at
    snapshot 110 (object count 0) while its parent overlap there still
    reaches into the object *)
Definition ex_req_hide_parent : Request :=
  {| m_src_image_ctx := ex_image true (fun _ => Some 6) (fun _ => 1);
     m_dst_image_ctx :=
       ex_image true (fun _ => Some 6) (fun s => if s =? 110 then 0 else 1);
     m_src_snap_id_start := 0;
     m_dst_snap_id_start := 0;
     m_snap_map := ex_snap_map;
     m_dst_object_number := 0;
     m_flatten := false;
     m_handler := true;
     m_striper := ex_striper |}.

(** the source object is zeroed at the start, to hide the parent *)
Definition ex_delta_zeroed : SnapshotDelta :=
  [(INITIAL_WRITE_READ_SNAP_IDS, [sparse 0 8 SNAPSHOT_EXTENT_STATE_ZEROED])].

(** data before snapshot 10, bytes 2..3 zeroed before snapshot 20 *)
Definition ex_delta_zero_inside : SnapshotDelta :=
  [((10, 10), [sparse 0 8 SNAPSHOT_EXTENT_STATE_DATA]);
   ((20, 20), [sparse 2 2 SNAPSHOT_EXTENT_STATE_ZEROED])].

(** the read of [ex_delta_zero_inside], returned in full *)
Definition ex_read_ops_zero_inside : ReadOps :=
  [((10, 10), {| image_interval := [(0, 8)]; image_extent_map := [(0, 8)];
                 out_bl := repeat Byte.xaa 8 |})].

(** the destination image has shrunk: no object 0 at snapshot 120 *)
Definition ex_req_removed_120 : Request :=
  {| m_src_image_ctx := m_src_image_ctx ex_req;
     m_dst_image_ctx :=
       ex_image false (fun _ => None) (fun s => if s =? 120 then 0 else 1);
     m_src_snap_id_start := 0;
     m_dst_snap_id_start := 0;
     m_snap_map := ex_snap_map;
     m_dst_object_number := 0;
     m_flatten := false;
     m_handler := true;
     m_striper := ex_striper |}.

(** the exclusive lock was lost in the background: no object map *)
Definition ex_env_no_object_map (delta : SnapshotDelta) : Env :=
  {| env_list_snaps := fun _ => (0, delta);
     env_read := ex_read;
     env_exclusive_lock := false;
     env_start_op := fun _ _ => None;
     env_aio_operate := fun _ _ _ => 0;
     env_object_map := fun _ => false;
     env_aio_update := fun _ _ _ => Some 0 |}.

(** a clone copied from snapshot 0 that has shrunk: the destination holds
    no object 0 at snapshot 120; the parent overlaps six bytes of the object *)
Definition ex_req_shrunk_clone : Request :=
  {| m_src_image_ctx := ex_image true (fun _ => Some 6) (fun _ => 1);
     m_dst_image_ctx :=
       ex_image true (fun _ => Some 6) (fun s => if s =? 120 then 0 else 1);
     m_src_snap_id_start := 0;
     m_dst_snap_id_start := 0;
     m_snap_map := ex_snap_map;
     m_dst_object_number := 0;
     m_flatten := false;
     m_handler := true;
     m_striper := ex_striper |}.

(** six bytes written before snapshot 10 *)
Definition ex_delta_data_6 : SnapshotDelta :=
  [((10, 10), [sparse 0 6 SNAPSHOT_EXTENT_STATE_DATA])].

Definition ex_read_ops_data_6 : ReadOps :=
  [((10, 10), {| image_interval := [(0, 6)]; image_extent_map := [(0, 6)];
                 out_bl := repeat Byte.xaa 6 |})].






(** the plan for data before snapshot 10 and bytes 2..3 zeroed before
    snapshot 20 *)
Definition ex_plan_zero_inside : Plan :=
  Eval vm_compute in
    match plan_writes ex_req ex_may_exist ex_delta_zero_inside
                      ex_read_ops_zero_inside with
    | Some p => p
    | None => Plan_init
    end.



(** the example layout with offsets as the unsigned 64-bit integers they
    are in the Striper *)
Definition ex_striper_u64 : Striper :=
  {| file_to_extents :=
       fun off len _ =>
         [{| oe_object_no := 0; oe_offset := off mod u64_mod;
             oe_length := len |}];
     extent_to_file := [(0, 8)] |}.

(** the example copy with that Striper *)
Definition ex_req_u64 : Request :=
  {| m_src_image_ctx := m_src_image_ctx ex_req;
     m_dst_image_ctx := m_dst_image_ctx ex_req;
     m_src_snap_id_start := m_src_snap_id_start ex_req;
     m_dst_snap_id_start := m_dst_snap_id_start ex_req;
     m_snap_map := m_snap_map ex_req;
     m_dst_object_number := m_dst_object_number ex_req;
     m_flatten := m_flatten ex_req;
     m_handler := m_handler ex_req;
     m_striper := ex_striper_u64 |}.






(** a clone copied from snapshot 0 whose destination holds no object 0 at
    snapshot 110, where its parent overlap is 0 *)
Definition ex_req_zeroed_clone : Request :=
  {| m_src_image_ctx := ex_image true (fun _ => Some 6) (fun _ => 1);
     m_dst_image_ctx :=
       ex_image true (fun s => if s =? 110 then Some 0 else Some 6)
                (fun s => if s =? 110 then 0 else 1);
     m_src_snap_id_start := 0;
     m_dst_snap_id_start := 0;
     m_snap_map := ex_snap_map;
     m_dst_object_number := 0;
     m_flatten := false;
     m_handler := true;
     m_striper := ex_striper_u64 |}.
(** ** Further vocabulary *)

(** the destination snapshots for which [compute_dst_object_may_exist]
    makes an entry *)
Definition dst_snap_ids_of (req : Request) : list snap_t :=
  snaps (m_dst_image_ctx req) ++ [CEPH_NOSNAP].

(** the example copy started at source snapshot 10 *)
Definition ex_req_from_10 : Request :=
  {| m_src_image_ctx := m_src_image_ctx ex_req;
     m_dst_image_ctx := m_dst_image_ctx ex_req;
     m_src_snap_id_start := 10;
     m_dst_snap_id_start := 110;
     m_snap_map := m_snap_map ex_req;
     m_dst_object_number := m_dst_object_number ex_req;
     m_flatten := m_flatten ex_req;
     m_handler := m_handler ex_req;
     m_striper := m_striper ex_req |}.

(** the key has a DATA extent in the delta and is read *)
Definition has_data (req : Request) (may_exist : omap snap_t bool)
    (snapshot_delta : SnapshotDelta) (key : WriteReadSnapIds) : Prop :=
  exists extents e,
    In (key, extents) snapshot_delta /\ key_is_read req may_exist key /\
    In e extents /\ get_state e = SNAPSHOT_EXTENT_STATE_DATA.

(** the initial key has a DNE extent *)
Definition has_initial_dne (snapshot_delta : SnapshotDelta) : Prop :=
  exists extents e,
    In (INITIAL_WRITE_READ_SNAP_IDS, extents) snapshot_delta /\
    In e extents /\ get_state e = SNAPSHOT_EXTENT_STATE_DNE.

(** the OSD reports a DNE run under the key (10, 10) *)
Definition ex_delta_bad_dne : SnapshotDelta :=
  [((10, 10), [sparse 0 4 SNAPSHOT_EXTENT_STATE_DATA;
               sparse 4 4 SNAPSHOT_EXTENT_STATE_DNE])].

(** the object does not exist at the start and nothing happens to it *)
Definition ex_delta_dne : SnapshotDelta :=
  [(INITIAL_WRITE_READ_SNAP_IDS, [sparse 0 8 SNAPSHOT_EXTENT_STATE_DNE])].

(** a WRITE op that carries as many bytes as it says *)
Definition write_op_well_formed (op : WriteOp) : Prop :=
  wo_type op = WRITE_OP_TYPE_WRITE /\
  Z.of_nat (length (wo_bl op)) = object_length op.

(** the buffer offset after the WRITE ops of a list of object extents
    (line 563) *)
Definition advance_buffer (oes : list ObjectExtent) (buffer_offset : Z) : Z :=
  fold_left (fun b oe => add64 b (oe_length oe)) oes buffer_offset.

(** the object extents that the Striper yields for the extents of a read,
    in the order in which lines 547-565 visit them *)
Fixpoint object_extents_of (striper : Striper) (extent_map : Extents)
    (buffer_offset : Z) : list ObjectExtent :=
  match extent_map with
  | [] => []
  | e :: rest =>
      let oes := file_to_extents striper (fst e) (snd e) buffer_offset in
      oes ++ object_extents_of striper rest (advance_buffer oes buffer_offset)
  end.

(** the payloads of a list of ops, one after the other *)
Definition payload (ops : WriteOps) : bufferlist :=
  concat (map wo_bl ops).

(** a read of bytes 0..7 that returned two runs, 0..1 and 4..6 *)
Definition ex_read_op_two_runs : ReadOp :=
  {| image_interval := [(0, 8)];
     image_extent_map := [(0, 2); (4, 3)];
     out_bl := [Byte.x01; Byte.x02; Byte.x03; Byte.x04; Byte.x05] |}.

(** a byte reported ZEROED under a key of the delta *)
Definition zeroed_under (snapshot_delta : SnapshotDelta)
    (key : WriteReadSnapIds) (x : Z) : Prop :=
  exists extents,
    In (key, extents) snapshot_delta /\
    state_byte SNAPSHOT_EXTENT_STATE_ZEROED extents x.


(** the [aio_update] call made for one entry of [m_dst_object_state] *)
Definition update_event (req : Request) (entry : snap_t * Z) : list Event :=
  match front_of (m_snap_map req) (fst entry) with
  | Some dst_snap_id =>
      [EvObjectMapUpdate dst_snap_id (m_dst_object_number req) (snd entry)]
  | None => []
  end.

(** an object-map update that goes through: the object map is there, the
    lock hands out a token, and the update either completes with a
    non-negative result or is not sent for the HEAD revision *)
Definition update_completes (req : Request) (env : Env)
    (entry : snap_t * Z) : Prop :=
  env_object_map env (fst entry) = true /\
  start_lock_op env true (fst entry) = None /\
  exists dst_snap_id,
    front_of (m_snap_map req) (fst entry) = Some dst_snap_id /\
    match env_aio_update env dst_snap_id (m_dst_object_number req)
            (snd entry) with
    | Some r => 0 <= r
    | None => dst_snap_id = CEPH_NOSNAP
    end.

(** the [aio_operate] call made for one batch, none when the batch holds
    nothing beyond the migration assertion *)
Definition operate_event (req : Request) (may_exist : omap snap_t bool)
    (batch : snap_t * WriteOps) : list Event :=
  match dst_snap_context (m_snap_map req) may_exist (fst batch)
          (snd batch) with
  | Some (dst_snap_ids, dst_snap_seq) =>
      let op := build_op req dst_snap_seq (snd batch) in
      if Nat.eqb (length op)
                 (if migration_info_empty (m_dst_image_ctx req)
                  then 0%nat else 1%nat)
      then []
      else [EvOperate dst_snap_seq dst_snap_ids op]
  | None => []
  end.

(** the kinds of events *)
Definition is_read_event (e : Event) : bool :=
  match e with
  | EvRead _ _ _ | EvHandlerRead _ => true
  | _ => false
  end.

Definition is_operate_event (e : Event) : bool :=
  match e with
  | EvOperate _ _ _ => true
  | _ => false
  end.

Definition is_update_event (e : Event) : bool :=
  match e with
  | EvObjectMapUpdate _ _ _ => true
  | _ => false
  end.

(** the object map is there for the update of snapshot 10 and gone after it *)
Definition ex_env_object_map_lost : Env :=
  {| env_list_snaps := fun _ => (0, []);
     env_read := ex_read;
     env_exclusive_lock := false;
     env_start_op := fun _ _ => None;
     env_aio_operate := fun _ _ _ => 0;
     env_object_map := fun s => s =? 10;
     env_aio_update := fun _ _ _ => Some 0 |}.

(** the exclusive lock is lost before the batch of snapshot 20 *)
Definition ex_env_lock_lost : Env :=
  {| env_list_snaps := fun _ => (0, []);
     env_read := ex_read;
     env_exclusive_lock := true;
     env_start_op := fun _ s => if s =? 20 then Some (-108) else None;
     env_aio_operate := fun _ _ _ => 0;
     env_object_map := fun _ => true;
     env_aio_update := fun _ _ _ => Some 0 |}.

(** the source snapshot has a primary destination snapshot, and that one
    has an entry in the existence map *)
Definition snap_resolves (req : Request) (src_snap : snap_t) : Prop :=
  exists dst_snap_id,
    front_of (m_snap_map req) src_snap = Some dst_snap_id /\
    In dst_snap_id (dst_snap_ids_of req).

(** the delta reports nothing to copy: under the keys that are read, only
    ZEROED extents, and DNE extents under the initial key *)
Definition nothing_to_read (req : Request) (may_exist : omap snap_t bool)
    (snapshot_delta : SnapshotDelta) : Prop :=
  forall key extents e,
    In (key, extents) snapshot_delta -> In e extents ->
    key_is_read req may_exist key ->
    get_state e = SNAPSHOT_EXTENT_STATE_ZEROED \/
    (get_state e = SNAPSHOT_EXTENT_STATE_DNE /\
     key = INITIAL_WRITE_READ_SNAP_IDS).

(** a delta of ZEROED and DNE extents only *)
Definition ex_delta_nothing : SnapshotDelta :=
  [(INITIAL_WRITE_READ_SNAP_IDS, [sparse 0 4 SNAPSHOT_EXTENT_STATE_DNE]);
   ((10, 10), [sparse 4 4 SNAPSHOT_EXTENT_STATE_ZEROED])].

(** bytes 0..3 written and bytes 2..7 zeroed before snapshot 10; the read
    of the data returned all four bytes *)
Definition ex_delta_overlap : SnapshotDelta :=
  [((10, 10), [sparse 0 4 SNAPSHOT_EXTENT_STATE_DATA;
               sparse 2 6 SNAPSHOT_EXTENT_STATE_ZEROED])].

Definition ex_read_ops_overlap : ReadOps :=
  [((10, 10), {| image_interval := [(0, 4)];
                 image_extent_map := [(0, 4)];
                 out_bl := repeat Byte.xaa 4 |})].

Definition ex_plan_overlap : Plan :=
  Eval vm_compute in
    match plan_writes ex_req ex_may_exist ex_delta_overlap
                      ex_read_ops_overlap with
    | Some p => p
    | None => Plan_init
    end.

(** collaborators whose completions carry positive results *)
Definition ex_env_positive (delta : SnapshotDelta) : Env :=
  {| env_list_snaps := fun _ => (3, delta);
     env_read := fun s extents =>
                   (8, snd (fst (ex_read s extents)), snd (ex_read s extents));
     env_exclusive_lock := false;
     env_start_op := fun _ _ => None;
     env_aio_operate := fun _ _ _ => 5;
     env_object_map := fun _ => true;
     env_aio_update := fun _ _ _ => Some 7 |}.

(** the destination holds no object 0 at snapshot 120 *)
Definition ex_req_removed_u64 : Request :=
  {| m_src_image_ctx := m_src_image_ctx ex_req_removed_120;
     m_dst_image_ctx := m_dst_image_ctx ex_req_removed_120;
     m_src_snap_id_start := 0;
     m_dst_snap_id_start := 0;
     m_snap_map := ex_snap_map;
     m_dst_object_number := 0;
     m_flatten := false;
     m_handler := true;
     m_striper := ex_striper_u64 |}.

(** the read of all eight bytes written before snapshot 10 *)
Definition ex_read_ops_data_10 : ReadOps :=
  [((10, 10), {| image_interval := [(0, 8)]; image_extent_map := [(0, 8)];
                 out_bl := repeat Byte.xaa 8 |})].

Definition ex_plan_removed : Plan :=
  Eval vm_compute in
    match plan_writes ex_req_removed_u64 ex_may_exist_not_120
                      ex_delta_data_10 ex_read_ops_data_10 with
    | Some p => p
    | None => Plan_init
    end.
(** * Properties *)

(** split a conjunction into its parts, and nothing else *)
Ltac split_conj :=
  repeat match goal with
         | |- _ /\ _ => split
         end.

(** ** Facts about the containers *)

Lemma bind_some {A B : Type} (m : option A) (f : A -> option B) (b : B) :
  bind m f = Some b -> exists a, m = Some a /\ f a = Some b.
Proof.
  destruct m as [a|]; simpl; [eauto | discriminate].
Qed.

Lemma foreach_app {A S : Type} (body : S -> A -> option S) (xs ys : list A)
    (s : S) :
  foreach body (xs ++ ys) s = bind (foreach body xs s) (foreach body ys).
Proof.
  revert s. induction xs as [|x xs IH]; intros s; simpl; [reflexivity|].
  destruct (body s x) as [s'|]; simpl; [apply IH | reflexivity].
Qed.

(** an invariant of the loop state is an invariant of the loop *)
Lemma foreach_invariant {A S : Type} (P : S -> Prop)
    (body : S -> A -> option S) (xs : list A) :
  (forall s x s', In x xs -> P s -> body s x = Some s' -> P s') ->
  forall s s', P s -> foreach body xs s = Some s' -> P s'.
Proof.
  induction xs as [|x xs IH]; intros Hstep s s' Hs; simpl.
  - intros [= <-]; exact Hs.
  - intros Hrun. apply bind_some in Hrun as (s1 & Hb & Hrest).
    apply (IH (fun s0 y s0' Hin => Hstep s0 y s0' (or_intror Hin)) s1 s');
      [|exact Hrest].
    apply (Hstep s x s1); simpl; auto.
Qed.

Section StdMapFacts.
Context {K V : Type} `{Ord K}.
Implicit Types (k : K) (v : V) (m : list (K * V)).

Lemma key_eqb_refl (k : K) : key_eqb k k = true.
Proof. apply key_eqb_eq; reflexivity. Qed.

Lemma key_eqb_neq (a b : K) : a <> b -> key_eqb a b = false.
Proof.
  intros Hne. destruct (key_eqb a b) eqn:E; auto.
  apply key_eqb_eq in E. contradiction.
Qed.

Lemma find_upd_same k v m : find k (upd k v m) = Some v.
Proof.
  induction m as [|[k' v'] rest IH]; simpl.
  - rewrite key_eqb_refl; reflexivity.
  - destruct (key_eqb k k') eqn:E; simpl.
    + rewrite key_eqb_refl; reflexivity.
    + destruct (key_ltb k k'); simpl.
      * rewrite key_eqb_refl; reflexivity.
      * rewrite E; exact IH.
Qed.

Lemma find_upd_other k k' v m : k' <> k -> find k' (upd k v m) = find k' m.
Proof.
  intros Hne. induction m as [|[k1 v1] rest IH]; simpl.
  - rewrite (key_eqb_neq _ _ Hne); reflexivity.
  - destruct (key_eqb k k1) eqn:E; simpl.
    + apply key_eqb_eq in E; subst k1.
      rewrite (key_eqb_neq _ _ Hne); reflexivity.
    + destruct (key_ltb k k1); simpl.
      * rewrite (key_eqb_neq _ _ Hne); reflexivity.
      * destruct (key_eqb k' k1); auto.
Qed.

Lemma find_some_in_keys k v m : find k m = Some v -> In k (keys m).
Proof.
  induction m as [|[k1 v1] rest IH]; simpl; [discriminate|].
  destruct (key_eqb k k1) eqn:E.
  - apply key_eqb_eq in E; subst; auto.
  - intros Hf; right; auto.
Qed.

Lemma in_keys_find k m : In k (keys m) -> exists v, find k m = Some v.
Proof.
  induction m as [|[k1 v1] rest IH]; simpl; [tauto|].
  intros [->|Hin].
  - rewrite key_eqb_refl; eauto.
  - destruct (key_eqb k k1); eauto.
Qed.

Lemma in_keys_upd k k' v m :
  In k' (keys (upd k v m)) <-> k' = k \/ In k' (keys m).
Proof.
  induction m as [|[k1 v1] rest IH]; simpl.
  - intuition.
  - destruct (key_eqb k k1) eqn:E; simpl.
    + apply key_eqb_eq in E; subst k1. intuition.
    + destruct (key_ltb k k1); simpl; intuition.
Qed.

Lemma has_key_true k m : has_key k m = true <-> In k (keys m).
Proof.
  unfold has_key. split.
  - destruct (find k m) eqn:E; [|discriminate].
    intros _; eapply find_some_in_keys; eauto.
  - intros Hin. destruct (in_keys_find _ _ Hin) as [v ->]; reflexivity.
Qed.
Lemma find_some_in k v m : find k m = Some v -> In (k, v) m.
Proof.
  induction m as [|[k1 v1] rest IH]; simpl; [discriminate|].
  destruct (key_eqb k k1) eqn:E.
  - apply key_eqb_eq in E; subst. intros [= ->]; auto.
  - intros Hf; right; auto.
Qed.

Lemma in_find_nodup k v m :
  NoDup (keys m) -> In (k, v) m -> find k m = Some v.
Proof.
  induction m as [|[k1 v1] rest IH]; simpl; [tauto|].
  intros Hnd [Heq|Hin].
  - injection Heq as -> ->. rewrite key_eqb_refl; reflexivity.
  - inversion Hnd as [|? ? Hnotin Hnd']; subst.
    destruct (key_eqb k k1) eqn:E; [|auto].
    apply key_eqb_eq in E; subst k1. exfalso; apply Hnotin.
    apply (in_map fst) in Hin; exact Hin.
Qed.

Lemma sorted_keys_nodup m : sorted_keys m -> NoDup (keys m).
Proof.
  unfold sorted_keys. induction 1 as [|a l _ IH Hall]; constructor; auto.
  intros Hin. rewrite Forall_forall in Hall. specialize (Hall a Hin).
  rewrite key_ltb_irrefl in Hall. discriminate.
Qed.

Lemma sorted_keys_upd k v m : sorted_keys m -> sorted_keys (upd k v m).
Proof.
  unfold sorted_keys.
  induction m as [|[k1 v1] rest IH]; simpl; intros Hs.
  - repeat constructor.
  - inversion Hs as [|? ? Hrest Hall]; subst.
    destruct (key_eqb k k1) eqn:E; simpl.
    + apply key_eqb_eq in E; subst k1. constructor; assumption.
    + destruct (key_ltb k k1) eqn:L; simpl.
      * constructor; [exact Hs|]. constructor; [exact L|].
        rewrite Forall_forall in *. intros x Hx.
        apply key_ltb_trans with k1; auto.
      * constructor; [apply IH; exact Hrest|].
        rewrite Forall_forall in *. intros x Hx.
        apply in_keys_upd in Hx as [->|Hx]; [|auto].
        apply key_ltb_total; assumption.
Qed.

(** assigning to an existing key keeps the key list *)
Lemma keys_upd_existing k v m :
  sorted_keys m -> In k (keys m) -> keys (upd k v m) = keys m.
Proof.
  unfold sorted_keys.
  induction m as [|[k1 v1] rest IH]; simpl; intros Hs Hin; [tauto|].
  inversion Hs as [|? ? Hrest Hall]; subst.
  destruct (key_eqb k k1) eqn:E; simpl.
  - apply key_eqb_eq in E; subst; reflexivity.
  - destruct Hin as [->|Hin]; [rewrite key_eqb_refl in E; discriminate|].
    destruct (key_ltb k k1) eqn:L; simpl.
    + rewrite Forall_forall in Hall. specialize (Hall k Hin).
      pose proof (key_ltb_trans _ _ _ L Hall) as Hc.
      rewrite key_ltb_irrefl in Hc. discriminate.
    + f_equal. apply IH; assumption.
Qed.

Lemma Forall_upd (P : K * V -> Prop) k v m :
  P (k, v) -> Forall P m -> Forall P (upd k v m).
Proof.
  intros Hp. induction 1 as [|[k1 v1] rest Hh Ht IH]; simpl.
  - repeat constructor; exact Hp.
  - destruct (key_eqb k k1).
    + constructor; assumption.
    + destruct (key_ltb k k1); repeat constructor; assumption.
Qed.

End StdMapFacts.

Lemma find_emplace_back (s : snap_t) (op : WriteOp)
    (write_ops : omap snap_t WriteOps) :
  find s (emplace_back s op write_ops) = Some (find_or [] s write_ops ++ [op]).
Proof. unfold emplace_back. apply find_upd_same. Qed.

Lemma find_emplace_back_other (s s' : snap_t) (op : WriteOp)
    (write_ops : omap snap_t WriteOps) :
  s' <> s -> find s' (emplace_back s op write_ops) = find s' write_ops.
Proof. intros Hne. unfold emplace_back. apply find_upd_other; exact Hne. Qed.

Lemma emplace_back_neq_self (s : snap_t) (op : WriteOp)
    (write_ops : omap snap_t WriteOps) :
  emplace_back s op write_ops <> write_ops.
Proof.
  intros Heq. pose proof (find_emplace_back s op write_ops) as Hf.
  rewrite Heq in Hf. unfold find_or in Hf.
  destruct (find s write_ops) as [l|]; [|discriminate].
  injection Hf as Hl. apply (f_equal (@length _)) in Hl.
  rewrite length_app in Hl; simpl in Hl. lia.
Qed.

Lemma emplace_back_inj (s : snap_t) (op op' : WriteOp)
    (write_ops : omap snap_t WriteOps) :
  emplace_back s op write_ops = emplace_back s op' write_ops -> op = op'.
Proof.
  intros Heq. pose proof (find_emplace_back s op write_ops) as Hf.
  rewrite Heq, find_emplace_back in Hf. injection Hf as Hl.
  apply app_inj_tail in Hl. symmetry; tauto.
Qed.

(** ** Concrete runs *)

(** An empty delta: nothing to copy, the request finishes with -ENOENT. *)
Example run_empty_delta : send ex_req (ex_env []) = Some ([], - ENOENT).
Proof. vm_compute. reflexivity. Qed.

(** The object is gone at destination snapshot 120: the batch of snapshot
    10 writes the data, the batch of snapshot 20 is [REMOVE] alone, and the
    object map is updated for snapshot 110 only. *)
Example run_object_removed :
  send ex_req_removed_120 (ex_env ex_delta_data_10)
  = Some ([EvRead 10 [(0, 8)] true; EvHandlerRead 8;
           EvOperate 0 [] [OpWrite 0 (repeat Byte.xaa 8)];
           EvOperate 0 [] [OpRemove];
           EvObjectMapUpdate 110 0 OBJECT_EXISTS], 0).
Proof. vm_compute. reflexivity. Qed.

(** Flatten of a clone whose object does not exist at the start: one read
    under the first source snapshot, clamped to the parent overlap. *)
Example run_flatten_from_parent :
  compute_read_ops (ex_req_parent true) ex_may_exist
    [(INITIAL_WRITE_READ_SNAP_IDS, [sparse 0 8 SNAPSHOT_EXTENT_STATE_DNE])]
  = Some [((10, 10), {| image_interval := [(0, 6)]; image_extent_map := [];
                        out_bl := [] |})].
Proof. vm_compute. reflexivity. Qed.

(** The object map is gone when the update is due: the request finishes
    with -EINVAL and no update is sent. *)
Example run_object_map_missing :
  send ex_req (ex_env_no_object_map ex_delta_data_10)
  = Some ([EvRead 10 [(0, 8)] true; EvHandlerRead 8;
           EvOperate 0 [] [OpWrite 0 (repeat Byte.xaa 8)]], - EINVAL).
Proof. vm_compute. reflexivity. Qed.

(** ** The write executor *)

Lemma handle_write_object_success (next : list Event -> Outcome)
    (trace : list Event) (r : Z) :
  0 <= normalize_write_result r -> handle_write_object next trace r = next trace.
Proof.
  intros Hr. unfold handle_write_object.
  destruct (Z.ltb_spec (normalize_write_result r) 0); [lia | reflexivity].
Qed.

Lemma handle_write_object_fatal (next : list Event -> Outcome)
    (trace : list Event) (r : Z) :
  r < 0 -> r <> - ENOENT -> r <> - ERANGE ->
  handle_write_object next trace r = finish trace r.
Proof.
  intros Hneg H1 H2. unfold handle_write_object, normalize_write_result.
  destruct (Z.eqb_spec r (- ENOENT)); [contradiction|].
  destruct (Z.eqb_spec r (- ERANGE)); [contradiction|].
  destruct (Z.ltb_spec r 0); [reflexivity | lia].
Qed.

(** when every batch goes through, the executor reaches the object-map
    phase *)
Lemma write_objects_complete (req : Request) (env : Env)
    (may_exist : omap snap_t bool) (object_state : omap snap_t Z)
    (write_ops : omap snap_t WriteOps) :
  Forall (batch_completes req env may_exist) write_ops ->
  forall trace, exists trace',
    write_objects req env may_exist object_state write_ops trace =
    send_update_object_map req env object_state trace'.
Proof.
  induction 1 as [|[src ops] rest Hb _ IH]; intros trace; simpl.
  - eauto.
  - destruct Hb as (ids & seq & Hctx & Hop). simpl in Hctx, Hop.
    rewrite Hctx; simpl.
    destruct (Nat.eqb_spec (length (build_op req seq ops))
                (if migration_info_empty (m_dst_image_ctx req)
                 then 0%nat else 1%nat)) as [Hlen|Hlen].
    + rewrite handle_write_object_success by (vm_compute; discriminate).
      apply IH.
    + destruct Hop as [Hop|[Hlock Hres]]; [contradiction|].
      rewrite Hlock, handle_write_object_success by exact Hres. apply IH.
Qed.

(** C4. For a batch issued to the destination (its snap context resolves,
    it carries an op beyond the migration assertion and the lock hands out a
    token): a completion result of -ENOENT or -ERANGE is treated as success,
    the executor goes on with the remaining batches, and when those go
    through as well and no object-map update is due the request finishes
    with 0; any other negative result finishes the request with that result. *)
Theorem write_result_coalescing (req : Request) (env : Env)
    (may_exist : omap snap_t bool) (object_state : omap snap_t Z)
    (src_snap_seq : snap_t) (ops : WriteOps) (rest : omap snap_t WriteOps)
    (trace : list Event) (dst_snap_ids : SnapIds) (dst_snap_seq : snap_t) :
  dst_snap_context (m_snap_map req) may_exist src_snap_seq ops
    = Some (dst_snap_ids, dst_snap_seq) ->
  length (build_op req dst_snap_seq ops) <>
    (if migration_info_empty (m_dst_image_ctx req) then 0%nat else 1%nat) ->
  start_lock_op env false src_snap_seq = None ->
  let op := build_op req dst_snap_seq ops in
  let r := env_aio_operate env dst_snap_seq dst_snap_ids op in
  let issued := trace ++ [EvOperate dst_snap_seq dst_snap_ids op] in
  let run := write_objects req env may_exist object_state
               ((src_snap_seq, ops) :: rest) trace in
  (r = - ENOENT \/ r = - ERANGE ->
   run = write_objects req env may_exist object_state rest issued /\
   (Forall (batch_completes req env may_exist) rest ->
    feature_object_map (m_dst_image_ctx req) = false ->
    exists trace', run = Some (trace', 0))) /\
  (r < 0 -> r <> - ENOENT -> r <> - ERANGE -> run = finish issued r).
Proof.
  intros Hctx Hlen Hlock op r issued run.
  assert (Hrun : run = handle_write_object
                         (write_objects req env may_exist object_state rest)
                         issued r).
  { subst run; simpl. rewrite Hctx; simpl.
    destruct (Nat.eqb_spec (length (build_op req dst_snap_seq ops))
                (if migration_info_empty (m_dst_image_ctx req)
                 then 0%nat else 1%nat)); [contradiction|].
    rewrite Hlock. reflexivity. }
  split.
  - intros Hr.
    assert (Hnext : run = write_objects req env may_exist object_state
                            rest issued).
    { rewrite Hrun. apply handle_write_object_success.
      unfold normalize_write_result.
      destruct Hr as [-> | ->]; vm_compute; discriminate. }
    split; [exact Hnext|].
    intros Hrest Hmap. rewrite Hnext.
    destruct (write_objects_complete req env may_exist object_state rest
                Hrest issued) as [trace' ->].
    unfold send_update_object_map. rewrite Hmap; simpl.
    exists trace'; reflexivity.
  - intros Hneg H1 H2. rewrite Hrun.
    apply handle_write_object_fatal; assumption.
Qed.

(** two batches that both complete with -ERANGE: the second is still
    issued and the request finishes with 0 *)
Lemma write_result_coalescing_witness :
  exists trace',
    write_objects ex_req_plain ex_env_erange ex_may_exist []
      [(10, [mkWriteOp WRITE_OP_TYPE_ZERO 0 4]);
       (20, [mkWriteOp WRITE_OP_TYPE_TRUNC 4 0])] []
    = Some (trace', 0).
Proof.
  refine (proj2
            (proj1
               (@write_result_coalescing ex_req_plain ex_env_erange
                  ex_may_exist [] 10 [mkWriteOp WRITE_OP_TYPE_ZERO 0 4]
                  [(20, [mkWriteOp WRITE_OP_TYPE_TRUNC 4 0])] [] [] 0
                  _ _ _) _) _ _).
  - reflexivity.
  - vm_compute. discriminate.
  - reflexivity.
  - right; reflexivity.
  - constructor; [|constructor].
    exists [], 0. split; [reflexivity|].
    right. split; [reflexivity | vm_compute; discriminate].
  - reflexivity.
Defined.

(** C5. For a batch with [src_snap_seq <> 0] whose assertions hold, the
    destination snapshot ids are [SnapMap[src_snap_seq]] without its first
    element and the snapshot sequence is the first of them, or 0 when none
    is left; for [src_snap_seq = 0] both are empty / zero. *)
Theorem dst_snap_context_spec (snap_map : SnapMap)
    (may_exist : omap snap_t bool) (src_snap_seq : snap_t) (ops : WriteOps)
    (ids : SnapIds) :
  src_snap_seq <> 0 ->
  find src_snap_seq snap_map = Some ids ->
  dst_snap_context snap_map may_exist src_snap_seq ops <> None ->
  dst_snap_context snap_map may_exist src_snap_seq ops
    = Some (tl ids, hd 0 (tl ids)) /\
  dst_snap_context snap_map may_exist 0 ops = Some ([], 0).
Proof.
  intros Hne Hfind Hsome. split; [|reflexivity].
  revert Hsome. unfold dst_snap_context.
  destruct (Z.eqb_spec src_snap_seq 0) as [|_]; [contradiction|]. simpl.
  rewrite Hfind; simpl.
  destruct ids as [|d rest]; [intros H; contradiction H; reflexivity|].
  destruct (find d may_exist) as [e|]; simpl;
    [|intros H; contradiction H; reflexivity].
  match goal with
  | |- context [bind ?g _] => destruct g as [[]|]; simpl
  end; [|intros H; contradiction H; reflexivity].
  destruct rest as [|s rest']; simpl.
  - reflexivity.
  - destruct (s =? CEPH_NOSNAP); simpl;
      [intros H; contradiction H; reflexivity | reflexivity].
Qed.

(** the batch of source snapshot 10 of a map 10 -> [110; 105; 103] is
    written with snapshot ids [105; 103] and sequence 105 *)
Lemma dst_snap_context_spec_witness :
  dst_snap_context [(10, [110; 105; 103])] [(110, true)] 10 []
    = Some ([105; 103], 105) /\
  dst_snap_context [(10, [110; 105; 103])] [(110, true)] 0 []
    = Some ([], 0).
Proof.
  apply (@dst_snap_context_spec [(10, [110; 105; 103])] [(110, true)] 10 []
           [110; 105; 103]).
  - lia.
  - reflexivity.
  - vm_compute. discriminate.
Defined.

(** ** The read planner *)

(** C6. For a key [(write_snap, read_snap)] other than (0, 0) the read
    planner looks up the existence map at [SnapMap[write_snap][0]]; when the
    destination object may not exist there, the iteration for that key
    leaves the loop state as it is, and the planner computes the same read
    ops as for the delta without that key. *)
Theorem read_planner_skips_key (req : Request) (may_exist : omap snap_t bool)
    (before after : SnapshotDelta) (key : WriteReadSnapIds)
    (extents : list SparseExtent) (dst_snap_seq : snap_t) (others : SnapIds) :
  key <> INITIAL_WRITE_READ_SNAP_IDS ->
  find (fst key) (m_snap_map req) = Some (dst_snap_seq :: others) ->
  find dst_snap_seq may_exist = Some false ->
  (forall st, read_ops_for_key req may_exist st (key, extents) = Some st) /\
  compute_read_ops req may_exist (before ++ (key, extents) :: after)
    = compute_read_ops req may_exist (before ++ after).
Proof.
  intros Hkey Hmap Hexists.
  assert (Hskip : forall st,
             read_ops_for_key req may_exist st (key, extents) = Some st).
  { intros st. unfold read_ops_for_key. cbn [fst snd].
    rewrite (key_eqb_neq _ _ Hkey). cbn [negb].
    unfold dst_may_exist, front_of. rewrite Hmap; simpl.
    rewrite Hexists; reflexivity. }
  split; [exact Hskip|].
  unfold compute_read_ops. rewrite !foreach_app.
  destruct (foreach (read_ops_for_key req may_exist) before ReadPlan_init)
    as [st|]; simpl; [|reflexivity].
  rewrite Hskip; reflexivity.
Qed.

(** snapshot 20 maps to destination 120 where the object cannot exist: its
    key is skipped *)
Lemma read_planner_skips_key_witness :
  (forall st,
     read_ops_for_key ex_req ex_may_exist_not_120 st
       ((20, 20), [sparse 0 4 SNAPSHOT_EXTENT_STATE_DATA]) = Some st) /\
  compute_read_ops ex_req ex_may_exist_not_120
    ([((10, 10), [sparse 0 8 SNAPSHOT_EXTENT_STATE_DATA])] ++
     ((20, 20), [sparse 0 4 SNAPSHOT_EXTENT_STATE_DATA]) :: [])
  = compute_read_ops ex_req ex_may_exist_not_120
      ([((10, 10), [sparse 0 8 SNAPSHOT_EXTENT_STATE_DATA])] ++ []).
Proof.
  apply (read_planner_skips_key ex_req ex_may_exist_not_120
           [((10, 10), [sparse 0 8 SNAPSHOT_EXTENT_STATE_DATA])] []
           (20, 20) [sparse 0 4 SNAPSHOT_EXTENT_STATE_DATA] 120 []).
  - discriminate.
  - reflexivity.
  - reflexivity.
Defined.

(** ** The object-map state of a snapshot *)

Lemma find_record_object_state (fast_diff : bool) (src_snap_seq : snap_t)
    (hide_parent : bool) (prev_end_size end_size : Z)
    (write_ops : omap snap_t WriteOps) (object_state : omap snap_t Z) :
  find src_snap_seq
       (record_object_state fast_diff src_snap_seq hide_parent prev_end_size
                            end_size write_ops object_state)
  = if (0 <? end_size) || hide_parent then
      Some (if fast_diff && (end_size =? prev_end_size) &&
               negb (has_key src_snap_seq write_ops)
            then OBJECT_EXISTS_CLEAN else OBJECT_EXISTS)
    else find src_snap_seq object_state.
Proof.
  unfold record_object_state.
  destruct ((0 <? end_size) || hide_parent); [|reflexivity].
  destruct (fast_diff && (end_size =? prev_end_size) &&
            negb (has_key src_snap_seq write_ops));
    rewrite find_upd_same; reflexivity.
Qed.

(** C9 as worded does not hold.  First input: the delta has data before
    snapshot 10 and bytes 2..3 zeroed before snapshot 20.  When the
    synthesis loop reaches snapshot 20 the image has fast-diff, [end_size =
    prev_end_size = 8] and the batch holds no op of type WRITE, only
    ZERO(2, 2), yet the recorded state is OBJECT_EXISTS and not
    OBJECT_EXISTS_CLEAN; the plan of the whole run says the same.  Second
    input: a clone that has shrunk.  At snapshot 20 the existence guard emits
    REMOVE and moves on: hide-parent is still live, but no state is recorded
    for the snapshot. *)
Lemma object_state_clean_counterexample :
  (exists st',
     zero_ops_for_snap ex_req ex_may_exist 10 ex_zero_state_20 20 = Some st' /\
     feature_fast_diff (m_dst_image_ctx ex_req) = true /\
     zs_prev_end_size st' = zs_prev_end_size ex_zero_state_20 /\
     has_write 20 (m_write_ops (zs_plan st')) = false /\
     find 20 (m_write_ops (zs_plan st'))
       = Some [mkWriteOp WRITE_OP_TYPE_ZERO 2 2] /\
     find 20 (m_dst_object_state (zs_plan st')) = Some OBJECT_EXISTS /\
     find 20 (m_dst_object_state (zs_plan st')) <> Some OBJECT_EXISTS_CLEAN) /\
  (exists p,
     plan_writes ex_req ex_may_exist ex_delta_zero_inside
                 ex_read_ops_zero_inside = Some p /\
     find 20 (m_write_ops p) = Some [mkWriteOp WRITE_OP_TYPE_ZERO 2 2] /\
     m_dst_object_state p
       = [(10, OBJECT_EXISTS); (20, OBJECT_EXISTS);
          (CEPH_NOSNAP, OBJECT_EXISTS_CLEAN)]) /\
  (exists st st',
     foreach (zero_ops_for_snap ex_req_shrunk_clone
                (compute_dst_object_may_exist ex_req_shrunk_clone) 10)
             [10]
             {| zs_plan :=
                  {| m_dst_data_interval := [(10, [(0, 6)])];
                     m_dst_zero_interval :=
                       [(10, []); (20, []); (CEPH_NOSNAP, [])];
                     m_write_ops :=
                       [(10, [{| wo_type := WRITE_OP_TYPE_WRITE;
                                 object_offset := 0; object_length := 6;
                                 wo_bl := repeat Byte.xaa 6 |}])];
                     m_dst_object_state := [] |};
                zs_hide_parent := true;
                zs_prev_end_size := 0 |} = Some st /\
     zero_ops_for_snap ex_req_shrunk_clone
       (compute_dst_object_may_exist ex_req_shrunk_clone) 10 st 20
       = Some st' /\
     zs_hide_parent st' = true /\
     find 20 (m_write_ops (zs_plan st'))
       = Some [mkWriteOp WRITE_OP_TYPE_REMOVE 0 0] /\
     find 20 (m_dst_object_state (zs_plan st')) = None) /\
  (exists p,
     plan_writes ex_req_shrunk_clone
       (compute_dst_object_may_exist ex_req_shrunk_clone)
       ex_delta_data_6 ex_read_ops_data_6 = Some p /\
     m_dst_object_state p
       = [(10, OBJECT_EXISTS); (CEPH_NOSNAP, OBJECT_EXISTS_CLEAN)]).
Proof.
  split; [|split; [|split]].
  - eexists. split; [vm_compute; reflexivity|].
    split_conj; try reflexivity. discriminate.
  - eexists. split; [vm_compute; reflexivity|]. split; reflexivity.
  - eexists. eexists. split; [vm_compute; reflexivity|].
    split; [vm_compute; reflexivity|]. split_conj; reflexivity.
  - eexists. split; [vm_compute; reflexivity|]. reflexivity.
Qed.

(** ** The read phase *)




(** assigning to an existing key of a map keeps every other entry *)
Lemma same_request_upd (read_ops : ReadOps) (key : WriteReadSnapIds)
    (ro ro' : ReadOp) :
  sorted_keys read_ops ->
  find key read_ops = Some ro ->
  image_interval ro' = image_interval ro ->
  Forall2 same_request read_ops (upd key ro' read_ops).
Proof.
  unfold sorted_keys.
  induction read_ops as [|[k1 v1] rest IH]; simpl; intros Hs Hfind Hiv;
    [discriminate|].
  inversion Hs as [|? ? Hrest Hall]; subst.
  assert (Hrefl : forall l : ReadOps, Forall2 same_request l l).
  { induction l; constructor; [split; reflexivity | assumption]. }
  change (pair_eqb key k1) with (key_eqb key k1) in *.
  change (pair_ltb key k1) with (key_ltb key k1).
  destruct (key_eqb key k1) eqn:E.
  - apply key_eqb_eq in E; subst k1. injection Hfind as ->.
    constructor; [split; [reflexivity | exact Hiv] | apply Hrefl].
  - destruct (key_ltb key k1) eqn:L.
    + apply find_some_in_keys in Hfind.
      rewrite Forall_forall in Hall. specialize (Hall key Hfind).
      pose proof (key_ltb_trans _ _ _ L Hall) as Hc.
      rewrite key_ltb_irrefl in Hc. discriminate.
    + constructor; [split; reflexivity | apply IH; assumption].
Qed.

Lemma Forall2_same_request_trans (a b c : ReadOps) :
  Forall2 same_request a b -> Forall2 same_request b c ->
  Forall2 same_request a c.
Proof.
  intros Hab. revert c.
  induction Hab as [|x y a b [Hk Hi] _ IH]; intros c Hbc;
    inversion Hbc as [|? z ? c' [Hk' Hi'] Hbc']; subst; constructor.
  - split; congruence.
  - apply IH; exact Hbc'.
Qed.

Lemma Forall2_same_request_keys (a b : ReadOps) :
  Forall2 same_request a b -> keys b = keys a.
Proof.
  induction 1 as [|x y a b [Hk _] _ IH]; simpl; [reflexivity|].
  rewrite Hk, IH; reflexivity.
Qed.

(** the read phase over the keys still to read, when no read fails *)
Lemma send_read_events (req : Request) (env : Env)
    (done : ReadOps -> list Event -> Outcome) (todo : ReadOps) :
  m_handler req = true ->
  NoDup (keys todo) ->
  Forall (fun e => out_bl (snd e) = []) todo ->
  reads_succeed env todo ->
  forall (read_ops : ReadOps) (trace : list Event),
    sorted_keys read_ops ->
    (forall k ro, In (k, ro) todo -> find k read_ops = Some ro) ->
    exists read_ops',
      send_read req env done (keys todo) read_ops trace
      = done read_ops' (trace ++ flat_map (read_phase_events req env) todo) /\
      Forall2 same_request read_ops read_ops'.
Proof.
  intros Hhandler.
  induction todo as [|[index ro] rest IH];
    intros Hnd Hbl Hok read_ops trace Hsorted Hfind; simpl.
  - exists read_ops. rewrite app_nil_r. split; [reflexivity|].
    clear. induction read_ops; constructor; [split; reflexivity|assumption].
  - inversion Hnd as [|? ? Hnotin Hnd']; subst.
    inversion Hbl as [|? ? Hbl0 Hbl']; subst.
    inversion Hok as [|? ? Hok0 Hok']; subst.
    cbn [fst snd] in *.
    assert (Hro : find index read_ops = Some ro) by (apply Hfind; left; auto).
    assert (Hfo : find_or ReadOp_default index read_ops = ro)
      by (unfold find_or; rewrite Hro; reflexivity).
    rewrite !Hfo.
    set (res := issue_read req env index ro).
    assert (Hres :
              image_interval (fst (fst res)) = image_interval ro /\
              0 <= snd res /\
              snd (fst res) ++
                [EvHandlerRead (Z.of_nat (length (out_bl (fst (fst res)))))]
              = read_phase_events req env (index, ro)).
    { subst res. unfold issue_read, read_phase_events; cbn [fst snd].
      destruct (iset_empty (image_interval ro)) eqn:Eempty; cbn [fst snd].
      - rewrite Hbl0. split; [reflexivity|]. split; [lia | reflexivity].
      - split; [reflexivity|]. split; [apply Hok0; reflexivity|reflexivity]. }
    destruct Hres as (Hiv & Hnonneg & Hevents).
    unfold handle_read.
    destruct (Z.ltb_spec (snd res) 0) as [Hneg|_]; [lia|].
    rewrite Hhandler.
    destruct (IH Hnd' Hbl' Hok' (upd index (fst (fst res)) read_ops)
                ((trace ++ snd (fst res)) ++
                 [EvHandlerRead
                    (Z.of_nat (length (out_bl (fst (fst res)))))]))
      as (read_ops' & Hrun & Hsame).
    + apply sorted_keys_upd; exact Hsorted.
    + intros k ro' Hin. rewrite find_upd_other.
      * apply Hfind; right; exact Hin.
      * intros ->. apply Hnotin. apply (in_map fst) in Hin; exact Hin.
    + exists read_ops'. split.
      * rewrite Hrun. f_equal. rewrite <- Hevents, <- !app_assoc.
        reflexivity.
      * apply Forall2_same_request_trans
          with (upd index (fst (fst res)) read_ops); [|exact Hsame].
        apply same_request_upd with ro; assumption.
Qed.

(** C10 as worded does not hold when a read fails: two keys are planned,
    the first read completes with -EIO, the request finishes with that
    result and the handler has not been invoked at all. *)
Lemma handler_once_per_key_counterexample :
  m_handler ex_req = true /\
  (exists read_ops,
     compute_read_ops ex_req (compute_dst_object_may_exist ex_req)
                      ex_delta_two_reads = Some read_ops /\
     length (read_snaps_of read_ops) = 2%nat) /\
  send ex_req (ex_env_read_fails ex_delta_two_reads)
    = Some ([EvRead 10 [(0, 8)] true], -5) /\
  handler_calls [EvRead 10 [(0, 8)] true] = [].
Proof.
  split; [reflexivity|]. split.
  - eexists. split; [vm_compute; reflexivity | reflexivity].
  - split; [vm_compute; reflexivity | reflexivity].
Qed.

(** C10, amended. With a progress handler and as long as no issued read
    completes with a negative result, the read phase handles the planned
    keys in key order and invokes the handler exactly once per key: for a
    key with an empty image interval no read is issued and the handler gets
    0, for any other key the read is issued and the handler gets the length
    of the data returned.  Then the planning phase is entered. *)
Theorem handler_once_per_key (req : Request) (env : Env)
    (done : ReadOps -> list Event -> Outcome) (read_ops : ReadOps) :
  m_handler req = true ->
  fresh_read_ops read_ops ->
  reads_succeed env read_ops ->
  exists read_ops',
    send_read req env done (read_snaps_of read_ops) read_ops []
    = done read_ops' (flat_map (read_phase_events req env) read_ops) /\
    handler_calls (flat_map (read_phase_events req env) read_ops)
    = map (fun e =>
             if iset_empty (image_interval (snd e)) then 0
             else Z.of_nat
                    (length (snd (env_read env (snd (fst e))
                                           (image_interval (snd e))))))
          read_ops.
Proof.
  intros Hhandler [Hsorted Hfresh] Hok.
  destruct (send_read_events req env done read_ops Hhandler
              (sorted_keys_nodup _ Hsorted)) with (read_ops := read_ops)
              (trace := @nil Event) as (read_ops' & Hrun & _).
  - apply Forall_impl with (2 := Hfresh). tauto.
  - exact Hok.
  - exact Hsorted.
  - intros k ro Hin. apply in_find_nodup; [|exact Hin].
    apply sorted_keys_nodup; exact Hsorted.
  - exists read_ops'. split; [exact Hrun|].
    clear. induction read_ops as [|[k ro] rest IH]; [reflexivity|].
    cbn [flat_map map]. unfold handler_calls in *.
    rewrite flat_map_app, IH. unfold read_phase_events at 1; cbn [fst snd].
    destruct (iset_empty (image_interval ro)); reflexivity.
Qed.

(** a plan with keys (10, 10) and (20, 20), the second with an empty
    interval: one read, then the handler with 8 and with 0 *)
Lemma handler_once_per_key_witness :
  exists read_ops',
    send_read ex_req (ex_env []) ex_done
              (read_snaps_of ex_read_ops_empty_key) ex_read_ops_empty_key []
    = ex_done read_ops'
        (flat_map (read_phase_events ex_req (ex_env []))
                  ex_read_ops_empty_key) /\
    handler_calls (flat_map (read_phase_events ex_req (ex_env []))
                            ex_read_ops_empty_key)
    = map (fun e =>
             if iset_empty (image_interval (snd e)) then 0
             else Z.of_nat
                    (length (snd (env_read (ex_env []) (snd (fst e))
                                           (image_interval (snd e))))))
          ex_read_ops_empty_key.
Proof.
  apply (handler_once_per_key ex_req (ex_env [])
           ex_done ex_read_ops_empty_key).
  - reflexivity.
  - split.
    + repeat constructor.
    + repeat constructor.
  - repeat constructor; vm_compute; discriminate.
Defined.

(** ** The keys of the write plan *)

Lemma fold_left_invariant {A S : Type} (P : S -> Prop) (f : S -> A -> S)
    (xs : list A) :
  (forall s x, In x xs -> P s -> P (f s x)) ->
  forall s, P s -> P (fold_left f xs s).
Proof.
  induction xs as [|x xs IH]; intros Hstep s Hs; simpl; [exact Hs|].
  apply IH.
  - intros s0 y Hin. apply Hstep; right; exact Hin.
  - apply Hstep; [left; reflexivity | exact Hs].
Qed.

(** every element of a loop that ran to its end had its body run *)
Lemma foreach_body_ran {A S : Type} (body : S -> A -> option S)
    (xs : list A) (s s' : S) (x : A) :
  foreach body xs s = Some s' -> In x xs ->
  exists s0 s1, body s0 x = Some s1.
Proof.
  revert s. induction xs as [|y xs IH]; intros s Hrun Hin; [contradiction|].
  simpl in Hrun. apply bind_some in Hrun as (s1 & Hb & Hrest).
  destruct Hin as [->|Hin]; eauto.
Qed.

Lemma in_keys_emplace_back (s S : snap_t) (op : WriteOp)
    (write_ops : omap snap_t WriteOps) :
  In S (keys (emplace_back s op write_ops)) <-> S = s \/ In S (keys write_ops).
Proof. unfold emplace_back. apply in_keys_upd. Qed.

Lemma in_keys_read_op_union_insert (key k : WriteReadSnapIds) (off len : Z)
    (read_ops : ReadOps) :
  In k (keys (read_op_union_insert key off len read_ops)) <->
  k = key \/ In k (keys read_ops).
Proof. unfold read_op_union_insert. apply in_keys_upd. Qed.

(** the batches created by [merge_write_ops] belong to the write snapshots
    of the read ops *)
Lemma merge_write_ops_keys (striper : Striper) (read_ops : ReadOps) (p : Plan)
    (S : snap_t) :
  merge_write_ops striper read_ops = Some p ->
  In S (keys (m_write_ops p)) ->
  exists key, In key (keys read_ops) /\ fst key = S.
Proof.
  unfold merge_write_ops. intros Hrun.
  revert S.
  apply (foreach_invariant
           (fun q => forall S, In S (keys (m_write_ops q)) ->
                               exists key, In key (keys read_ops) /\
                                           fst key = S))
    with (2 := fun S (H : In S []) => match H with end) (3 := Hrun).
  intros q [key ro] q' Hin Hq. unfold merge_read_op; cbn [fst snd].
  intros Hstep. apply bind_some in Hstep as (w & Hw & Hq').
  injection Hq' as <-. cbn [m_write_ops].
  assert (Hkeys : forall S, In S (keys (fst w)) ->
                            S = fst key \/ In S (keys (m_write_ops q))).
  { revert Hw.
    apply (foreach_invariant
             (fun acc => forall S, In S (keys (fst acc)) ->
                                   S = fst key \/ In S (keys (m_write_ops q))));
      [|intros S HS; right; exact HS].
    intros acc e acc' _ Hacc. unfold write_image_extent.
    apply (foreach_invariant
             (fun acc => forall S, In S (keys (fst acc)) ->
                                   S = fst key \/ In S (keys (m_write_ops q))));
      [|exact Hacc].
    intros a oe a' _ Ha. unfold write_object_extent.
    intros Hoe. apply bind_some in Hoe as (bl & _ & Ha').
    injection Ha' as <-. cbn [fst]. intros S HS.
    apply in_keys_emplace_back in HS as [->|HS]; auto. }
  intros S HS. destruct (Hkeys S HS) as [->|Hold]; [|auto].
  exists key. split; [|reflexivity].
  apply (in_map fst) in Hin. exact Hin.
Qed.

(** where the keys of the read plan come from *)
Lemma compute_read_ops_keys (req : Request) (may_exist : omap snap_t bool)
    (snapshot_delta : SnapshotDelta) (read_ops : ReadOps)
    (key : WriteReadSnapIds) :
  compute_read_ops req may_exist snapshot_delta = Some read_ops ->
  In key (keys read_ops) ->
  key = INITIAL_WRITE_READ_SNAP_IDS \/
  (exists d, front_of (m_snap_map req) (fst key) = Some d) \/
  (exists ids rest, m_snap_map req = (fst key, ids) :: rest).
Proof.
  unfold compute_read_ops. intros Hrun.
  apply bind_some in Hrun as (st & Hloop & Hparent).
  set (Q := fun ops : ReadOps =>
              forall k, In k (keys ops) ->
                        k = INITIAL_WRITE_READ_SNAP_IDS \/
                        (exists d, front_of (m_snap_map req) (fst k) = Some d) \/
                        (exists ids rest,
                            m_snap_map req = (fst k, ids) :: rest)).
  assert (Hst : Q (rp_read_ops st)).
  { revert Hloop.
    apply (foreach_invariant (fun s => Q (rp_read_ops s)));
      [|intros k []].
    intros s [k0 extents] s' _ Hs. unfold read_ops_for_key; cbn [fst snd].
    assert (Hinner :
              (k0 = INITIAL_WRITE_READ_SNAP_IDS \/
               exists d, front_of (m_snap_map req) (fst k0) = Some d) ->
              foreach (classify_extent req k0) extents s = Some s' ->
              Q (rp_read_ops s')).
    { intros Hk0.
      apply (foreach_invariant (fun s => Q (rp_read_ops s))); [|exact Hs].
      intros s0 e s0' _ Hs0. unfold classify_extent.
      destruct (get_state e).
      - destruct (ceph_assert _); simpl; [|discriminate].
        destruct (read_from_parent req); intros [= <-]; exact Hs0.
      - intros [= <-]; exact Hs0.
      - intros [= <-]; simpl. intros k Hk.
        apply in_keys_read_op_union_insert in Hk as [->|Hk]; [|auto].
        destruct Hk0; auto. }
    destruct (key_eqb k0 INITIAL_WRITE_READ_SNAP_IDS) eqn:E; cbn [negb].
    - apply key_eqb_eq in E. apply Hinner; auto.
    - unfold dst_may_exist.
      destruct (front_of (m_snap_map req) (fst k0)) as [d|] eqn:Hfront;
        cbn [bind]; [|discriminate].
      destruct (find d may_exist) as [[]|]; cbn [bind negb];
        [apply Hinner; eauto | intros [= <-]; exact Hs | discriminate]. }
  revert Hparent. unfold parent_read_ops.
  destruct (_ && _); [|intros [= <-]; apply Hst].
  destruct (m_snap_map req) as [|[src_snap_seq ids] rest] eqn:Hmap;
    [discriminate|].
  destruct (get_parent_overlap _ _) as [overlap|];
    intros [= <-]; [|apply Hst].
  revert key.
  apply (fold_left_invariant Q); [|exact Hst].
  intros ops e _ Hops k Hk. unfold parent_read_op in Hk.
  destruct (_ <=? _); [auto|].
  apply in_keys_read_op_union_insert in Hk as [->|Hk]; [|auto].
  right; right. eauto.
Qed.

Lemma zero_ops_of_interval_keys (striper : Striper) (src_snap_seq : snap_t)
    (hide_parent : bool) (prev_end_size : Z) (zero_interval : interval_set)
    (acc : omap snap_t WriteOps * Z) (S : snap_t) :
  In S (keys (fst (zero_ops_of_interval striper src_snap_seq hide_parent
                     prev_end_size zero_interval acc))) ->
  S = src_snap_seq \/ In S (keys (fst acc)).
Proof.
  unfold zero_ops_of_interval. revert S.
  apply (fold_left_invariant
           (fun a => forall S, In S (keys (fst a)) ->
                               S = src_snap_seq \/ In S (keys (fst acc))));
    [|auto].
  intros a z _ Ha.
  apply (fold_left_invariant
           (fun a => forall S, In S (keys (fst a)) ->
                               S = src_snap_seq \/ In S (keys (fst acc))));
    [|exact Ha].
  intros b oe _ Hb S. unfold zero_object_extent.
  destruct (_ <=? _); cbn [fst].
  - destruct (_ && _);
      [intros HS; apply in_keys_emplace_back in HS as [->|HS]; auto|].
    destruct (_ <? _); [|auto].
    destruct (_ =? _);
      intros HS; apply in_keys_emplace_back in HS as [->|HS]; auto.
  - intros HS; apply in_keys_emplace_back in HS as [->|HS]; auto.
Qed.

(** an iteration of the synthesis loop that does not abort found the primary
    destination snapshot, and adds ops to its own batch only *)
Lemma zero_ops_for_snap_keys (req : Request) (may_exist : omap snap_t bool)
    (first_key : snap_t) (st st' : ZeroState) (src_snap_seq : snap_t) :
  zero_ops_for_snap req may_exist first_key st src_snap_seq = Some st' ->
  (exists d, front_of (m_snap_map req) src_snap_seq = Some d) /\
  forall S, In S (keys (m_write_ops (zs_plan st'))) ->
            S = src_snap_seq \/ In S (keys (m_write_ops (zs_plan st))).
Proof.
  unfold zero_ops_for_snap.
  destruct (front_of (m_snap_map req) src_snap_seq) as [d|]; cbn [bind];
    [|discriminate].
  destruct (find d may_exist) as [e|]; cbn [bind]; [|discriminate].
  intros Hstep. split; [eauto|]. revert Hstep.
  destruct (negb e && _).
  - intros [= <-]; cbn [zs_plan m_write_ops]. intros S HS.
    apply in_keys_emplace_back in HS as [->|HS]; auto.
  - destruct (update_hide_parent _ _ _ _ _) as [[hp prev]|]; cbn [bind];
      [|discriminate].
    intros [= <-]; cbn [zs_plan m_write_ops fst snd]. intros S HS.
    apply zero_ops_of_interval_keys in HS. exact HS.
Qed.

Lemma ensure_zero_intervals_keys (snap_map : SnapMap)
    (m : omap snap_t interval_set) (k : snap_t) :
  In k (keys snap_map) -> In k (keys (ensure_zero_intervals snap_map m)).
Proof.
  unfold ensure_zero_intervals. intros Hin.
  assert (Hgen : forall m0 : omap snap_t interval_set,
             In k (keys m0) \/ In k (keys snap_map) ->
             In k (keys (fold_left
                           (fun m1 (entry : snap_t * SnapIds) =>
                              match find (fst entry) m1 with
                              | Some _ => m1
                              | None => upd (fst entry) [] m1
                              end) snap_map m0))).
  { clear. induction snap_map as [|[s ids] rest IH]; intros m0; simpl.
    - tauto.
    - intros [Hm|[->|Hrest]]; apply IH.
      + left. destruct (find s m0); [exact Hm|].
        apply in_keys_upd; auto.
      + left. destruct (find k m0) eqn:E.
        * eapply find_some_in_keys; exact E.
        * apply in_keys_upd; auto.
      + right; exact Hrest. }
  apply Hgen; right; exact Hin.
Qed.

(** the batches of the plan after [compute_zero_ops], and the snap map a
    run without abort must have had *)
Lemma compute_zero_ops_keys (req : Request) (may_exist : omap snap_t bool)
    (snapshot_delta : SnapshotDelta) (p p' : Plan) :
  compute_zero_ops req may_exist snapshot_delta p = Some p' ->
  (forall S, In S (keys (m_write_ops p')) ->
             In S (keys (m_write_ops p)) \/
             exists d, front_of (m_snap_map req) S = Some d) /\
  (forall S, In S (keys (m_snap_map req)) ->
             exists d, front_of (m_snap_map req) S = Some d).
Proof.
  unfold compute_zero_ops.
  destruct (m_snap_map req) as [|[first ids] rest] eqn:Hmap; [discriminate|].
  rewrite <- Hmap.
  set (zero_map := ensure_zero_intervals _ _).
  set (first_key := match zero_map with [] => first | (k, _) :: _ => k end).
  intros Hrun. apply bind_some in Hrun as (st & Hloop & Hst).
  injection Hst as <-. split.
  - revert Hloop.
    apply (foreach_invariant
             (fun s => forall S, In S (keys (m_write_ops (zs_plan s))) ->
                                 In S (keys (m_write_ops p)) \/
                                 exists d, front_of (m_snap_map req) S
                                           = Some d));
      [|cbn [zs_plan m_write_ops]; auto].
    intros s src s' _ Hs Hstep S HS.
    apply zero_ops_for_snap_keys in Hstep as [Hfront Hkeys].
    destruct (Hkeys S HS) as [->|Hold]; auto.
  - intros S HS.
    assert (Hin : In S (keys zero_map))
      by (apply ensure_zero_intervals_keys; exact HS).
    destruct (foreach_body_ran _ _ _ _ S Hloop Hin) as (s0 & s1 & Hbody).
    apply zero_ops_for_snap_keys in Hbody as [Hfront _]. exact Hfront.
Qed.

Lemma front_of_some (snap_map : SnapMap) (S d : snap_t) :
  front_of snap_map S = Some d ->
  exists ids, find S snap_map = Some ids /\ ids <> [].
Proof.
  unfold front_of. destruct (find S snap_map) as [[|d0 ids]|]; cbn [bind];
    try discriminate.
  intros _. eexists; split; [reflexivity | discriminate].
Qed.

(** C8 as worded does not hold: data under the initial key (0, 0) is
    written in a batch with source snapshot id 0, which the snap map
    {10, 20, HEAD} does not have. *)
Lemma write_plan_keys_counterexample :
  exists read_ops p,
    Forall2 same_request
      [(INITIAL_WRITE_READ_SNAP_IDS,
        {| image_interval := [(0, 8)]; image_extent_map := [];
           out_bl := [] |})] read_ops /\
    compute_read_ops ex_req ex_may_exist
      [(INITIAL_WRITE_READ_SNAP_IDS, [sparse 0 8 SNAPSHOT_EXTENT_STATE_DATA])]
    = Some [(INITIAL_WRITE_READ_SNAP_IDS,
             {| image_interval := [(0, 8)]; image_extent_map := [];
                out_bl := [] |})] /\
    plan_writes ex_req ex_may_exist
      [(INITIAL_WRITE_READ_SNAP_IDS, [sparse 0 8 SNAPSHOT_EXTENT_STATE_DATA])]
      read_ops = Some p /\
    In 0 (keys (m_write_ops p)) /\
    find 0 (m_snap_map ex_req) = None.
Proof.
  exists [(INITIAL_WRITE_READ_SNAP_IDS,
           {| image_interval := [(0, 8)]; image_extent_map := [(0, 8)];
              out_bl := repeat Byte.xaa 8 |})].
  eexists. split; [repeat constructor|].
  split; [reflexivity|].
  split; [vm_compute; reflexivity|].
  split; [left; reflexivity | reflexivity].
Qed.

(** C8, amended. For every source snapshot id [S] other than 0 that is a
    key of the write plan, [SnapMap[S]] exists and is not empty.  (The batch
    with id 0 holds the data of the initial key and is written without a
    snapshot context.) *)
Theorem write_plan_keys_mapped (req : Request) (may_exist : omap snap_t bool)
    (snapshot_delta : SnapshotDelta) (planned read_ops : ReadOps) (p : Plan)
    (S : snap_t) :
  compute_read_ops req may_exist snapshot_delta = Some planned ->
  Forall2 same_request planned read_ops ->
  plan_writes req may_exist snapshot_delta read_ops = Some p ->
  In S (keys (m_write_ops p)) ->
  S <> 0 ->
  exists ids, find S (m_snap_map req) = Some ids /\ ids <> [].
Proof.
  intros Hplan Hsame Hwrites HS Hne.
  unfold plan_writes in Hwrites.
  apply bind_some in Hwrites as (merged & Hmerge & Hzero).
  apply compute_zero_ops_keys in Hzero as [Hkeys Hmap].
  destruct (Hkeys S HS) as [Hmerged|[d Hfront]];
    [|apply front_of_some with d; exact Hfront].
  destruct (merge_write_ops_keys _ _ _ S Hmerge Hmerged) as (key & Hkey & <-).
  rewrite (Forall2_same_request_keys _ _ Hsame) in Hkey.
  destruct (compute_read_ops_keys _ _ _ _ key Hplan Hkey)
    as [->|[[d Hfront]|(ids & rest & Hfirst)]].
  - contradiction Hne; reflexivity.
  - apply front_of_some with d; exact Hfront.
  - destruct (Hmap (fst key)) as [d Hfront].
    + rewrite Hfirst; left; reflexivity.
    + apply front_of_some with d; exact Hfront.
Qed.

(** a plan whose batch for snapshot 10 comes from a read *)
Lemma write_plan_keys_mapped_witness :
  exists ids, find 10 (m_snap_map ex_req) = Some ids /\ ids <> [].
Proof.
  eapply (write_plan_keys_mapped ex_req ex_may_exist ex_delta_two_reads
            [((10, 10), {| image_interval := [(0, 8)];
                           image_extent_map := []; out_bl := [] |});
             ((20, 20), {| image_interval := [(0, 4)];
                           image_extent_map := []; out_bl := [] |})]
            [((10, 10), {| image_interval := [(0, 8)];
                           image_extent_map := [(0, 8)];
                           out_bl := repeat Byte.xaa 8 |});
             ((20, 20), {| image_interval := [(0, 4)];
                           image_extent_map := [(0, 4)];
                           out_bl := repeat Byte.xaa 4 |})]).
  - reflexivity.
  - repeat constructor.
  - vm_compute. reflexivity.
  - vm_compute. left; reflexivity.
  - discriminate.
Defined.

(** ** Interval sets *)

Lemma covers_nil (x : Z) : ~ covers [] x.
Proof. intros (e & [] & _). Qed.

Lemma covers_cons (e : Z * Z) (s : list (Z * Z)) (x : Z) :
  covers (e :: s) x <-> in_extent x e \/ covers s x.
Proof.
  unfold covers; simpl. split.
  - intros (e' & [<-|Hin] & Hx); eauto.
  - intros [Hx|(e' & Hin & Hx)]; eauto.
Qed.

Lemma covers_app (s t : list (Z * Z)) (x : Z) :
  covers (s ++ t) x <-> covers s x \/ covers t x.
Proof.
  unfold covers. split.
  - intros (e & Hin & Hx). apply in_app_or in Hin as [Hin|Hin]; eauto.
  - intros [(e & Hin & Hx)|(e & Hin & Hx)]; exists e;
      (split; [apply in_or_app; auto | exact Hx]).
Qed.

(** the coalescing insert adds exactly the bytes of the new run *)
Lemma covers_union_insert (off len : Z) (s : interval_set) (x : Z) :
  covers (union_insert off len s) x <-> in_extent x (off, len) \/ covers s x.
Proof.
  revert off len. induction s as [|[o l] rest IH]; intros off len; simpl.
  - rewrite covers_cons. reflexivity.
  - destruct (Z.ltb_spec (off + len) o) as [H1|H1].
    + rewrite covers_cons. reflexivity.
    + destruct (Z.ltb_spec (o + l) off) as [H2|H2].
      * rewrite !covers_cons, IH. tauto.
      * rewrite IH, covers_cons.
        assert (Hmerge :
                  in_extent x (Z.min off o,
                               Z.max (off + len) (o + l) - Z.min off o) <->
                  in_extent x (off, len) \/ in_extent x (o, l))
          by (unfold in_extent; simpl; lia).
        tauto.
Qed.

Lemma union_insert_in_range (off len : Z) (s : interval_set) :
  run_in_range (off, len) -> Forall run_in_range s ->
  Forall run_in_range (union_insert off len s).
Proof.
  revert off len. induction s as [|[o l] rest IH]; intros off len Hr Hs;
    simpl.
  - constructor; [exact Hr | constructor].
  - inversion Hs as [|? ? Ho Hrest]; subst.
    destruct (off + len <? o); [constructor; assumption|].
    destruct (o + l <? off); [constructor; auto|].
    apply IH; [|exact Hrest].
    unfold run_in_range in *; simpl in *. lia.
Qed.

(** ** The read planner: DNE runs and the parent *)

Lemma covers_planned_union_insert (key k : WriteReadSnapIds) (off len : Z)
    (read_ops : ReadOps) (x : Z) :
  covers (planned_interval k (read_op_union_insert key off len read_ops)) x
  <-> (k = key /\ in_extent x (off, len)) \/
      covers (planned_interval k read_ops) x.
Proof.
  unfold planned_interval, read_op_union_insert, find_or.
  destruct (key_eqb k key) eqn:E.
  - apply key_eqb_eq in E; subst k. rewrite find_upd_same. simpl.
    rewrite covers_union_insert. tauto.
  - assert (Hne : k <> key)
      by (intros ->; rewrite key_eqb_refl in E; discriminate).
    rewrite (find_upd_other _ _ _ _ Hne). tauto.
Qed.

(** the inner loop of the read planner, for the DNE runs and the flag *)
Lemma classify_extents_dne (req : Request) (key : WriteReadSnapIds)
    (extents : list SparseExtent) :
  read_from_parent req = true ->
  forall s0 s,
    foreach (classify_extent req key) extents s0 = Some s ->
    (forall x, covers (rp_dne_image_interval s) x <->
               covers (rp_dne_image_interval s0) x \/
               state_byte SNAPSHOT_EXTENT_STATE_DNE extents x) /\
    ((exists x, state_byte SNAPSHOT_EXTENT_STATE_DNE extents x) ->
     key = INITIAL_WRITE_READ_SNAP_IDS) /\
    (rp_only_dne_extents s0 = false \/
     (exists e, In e extents /\ get_state e <> SNAPSHOT_EXTENT_STATE_DNE) ->
     rp_only_dne_extents s = false) /\
    (Forall extent_in_range extents ->
     Forall run_in_range (rp_dne_image_interval s0) ->
     Forall run_in_range (rp_dne_image_interval s)).
Proof.
  intros Hparent. induction extents as [|e rest IH]; intros s0 s; simpl.
  - intros [= <-]. repeat split.
    + intros Hc; left; exact Hc.
    + intros [Hc|(e & [] & _)]; exact Hc.
    + intros (x & e & [] & _).
    + intros [H|(e & [] & _)]; exact H.
    + intros _ H; exact H.
  - intros Hrun. apply bind_some in Hrun as (s1 & Hstep & Hrest).
    destruct (IH s1 s Hrest) as (Hcov & Hinit & Hflag & Hrange).
    unfold classify_extent in Hstep.
    assert (Hstate_cons :
              forall x, state_byte SNAPSHOT_EXTENT_STATE_DNE (e :: rest) x <->
                        (get_state e = SNAPSHOT_EXTENT_STATE_DNE /\
                         in_extent x (get_off e, get_len e)) \/
                        state_byte SNAPSHOT_EXTENT_STATE_DNE rest x).
    { intros x. unfold state_byte; simpl. split.
      - intros (e' & [<-|Hin] & Hst & Hx); eauto.
      - intros [[Hst Hx]|(e' & Hin & Hst & Hx)]; eauto. }
    destruct (get_state e) eqn:Estate.
    + (* DNE *)
      destruct (key_eqb key INITIAL_WRITE_READ_SNAP_IDS) eqn:Ekey;
        simpl in Hstep; [|discriminate].
      apply key_eqb_eq in Ekey. rewrite Hparent in Hstep.
      injection Hstep as <-. simpl in *.
      split; [|split; [|split]].
      * intros x. rewrite Hcov, Hstate_cons.
        unfold iset_insert. rewrite covers_union_insert. tauto.
      * intros _; exact Ekey.
      * intros [H0|(e' & [<-|Hin] & Hne)]; apply Hflag; eauto.
        contradiction.
      * intros Hall Hr0. inversion Hall; subst.
        apply Hrange; [assumption|].
        apply union_insert_in_range; assumption.
    + (* ZEROED *)
      injection Hstep as <-. simpl in *.
      split; [|split; [|split]].
      * intros x. rewrite Hcov, Hstate_cons.
        split; [tauto|]. intros [H|[[Hc _]|H]]; auto. discriminate.
      * intros (x & Hx). apply Hstate_cons in Hx as [[Hc _]|Hx];
          [discriminate|]. apply Hinit; eauto.
      * intros _. apply Hflag; left; reflexivity.
      * intros Hall Hr0. inversion Hall; subst. apply Hrange; assumption.
    + (* DATA *)
      injection Hstep as <-. simpl in *.
      split; [|split; [|split]].
      * intros x. rewrite Hcov, Hstate_cons.
        split; [tauto|]. intros [H|[[Hc _]|H]]; auto. discriminate.
      * intros (x & Hx). apply Hstate_cons in Hx as [[Hc _]|Hx];
          [discriminate|]. apply Hinit; eauto.
      * intros _. apply Hflag; left; reflexivity.
      * intros Hall Hr0. inversion Hall; subst. apply Hrange; assumption.
Qed.

Lemma dne_bytes_cons (key : WriteReadSnapIds) (extents : list SparseExtent)
    (rest : SnapshotDelta) (x : Z) :
  dne_bytes ((key, extents) :: rest) x <->
  (key = INITIAL_WRITE_READ_SNAP_IDS /\
   state_byte SNAPSHOT_EXTENT_STATE_DNE extents x) \/
  dne_bytes rest x.
Proof.
  unfold dne_bytes; simpl. split.
  - intros (ex & [Heq|Hin] & Hx).
    + injection Heq as -> ->. auto.
    + right; eauto.
  - intros [[-> Hx]|(ex & Hin & Hx)]; eauto.
Qed.

(** the loop of the read planner over the delta, for the DNE runs and the
    flag *)
Lemma read_loop_dne (req : Request) (may_exist : omap snap_t bool)
    (snapshot_delta : SnapshotDelta) :
  read_from_parent req = true ->
  forall s0 s,
    foreach (read_ops_for_key req may_exist) snapshot_delta s0 = Some s ->
    (forall x, covers (rp_dne_image_interval s) x <->
               covers (rp_dne_image_interval s0) x \/
               dne_bytes snapshot_delta x) /\
    (rp_only_dne_extents s0 = false \/
     has_non_dne_extent req may_exist snapshot_delta ->
     rp_only_dne_extents s = false) /\
    (delta_in_range snapshot_delta ->
     Forall run_in_range (rp_dne_image_interval s0) ->
     Forall run_in_range (rp_dne_image_interval s)).
Proof.
  intros Hparent.
  induction snapshot_delta as [|[key extents] rest IH]; intros s0 s; simpl.
  - intros [= <-]. split; [|split].
    + intros x. split; [auto|]. intros [H|(ex & [] & _)]; exact H.
    + intros [H|(k & ex & e & [] & _)]; exact H.
    + intros _ H; exact H.
  - intros Hrun. apply bind_some in Hrun as (s1 & Hstep & Hrest).
    destruct (IH s1 s Hrest) as (Hcov & Hflag & Hrange).
    assert (Hnon :
              has_non_dne_extent req may_exist ((key, extents) :: rest) ->
              (key_is_read req may_exist key /\
               exists e, In e extents /\
                         get_state e <> SNAPSHOT_EXTENT_STATE_DNE) \/
              has_non_dne_extent req may_exist rest).
    { intros (k & ex & e & [Heq|Hin] & Hread & He & Hst).
      - injection Heq as -> ->. left; eauto.
      - right. exists k, ex, e; auto. }
    unfold read_ops_for_key in Hstep; cbn [fst snd] in Hstep.
    assert (Hclassified :
              foreach (classify_extent req key) extents s0 = Some s1 ->
              (forall x, covers (rp_dne_image_interval s) x <->
                         covers (rp_dne_image_interval s0) x \/
                         dne_bytes ((key, extents) :: rest) x) /\
              (rp_only_dne_extents s0 = false \/
               has_non_dne_extent req may_exist ((key, extents) :: rest) ->
               rp_only_dne_extents s = false) /\
              (delta_in_range ((key, extents) :: rest) ->
               Forall run_in_range (rp_dne_image_interval s0) ->
               Forall run_in_range (rp_dne_image_interval s))).
    { intros Hinner.
      destruct (classify_extents_dne req key extents Hparent s0 s1 Hinner)
        as (Hc1 & Hi1 & Hf1 & Hr1).
      split; [|split].
      - intros x. rewrite Hcov, Hc1, dne_bytes_cons.
        split; [|tauto].
        intros [[H|H]|H]; auto. right; left. split; [|exact H].
        apply Hi1; eauto.
      - intros [H|H]; apply Hflag.
        + left; apply Hf1; auto.
        + apply Hnon in H as [[_ He]|H]; [left; apply Hf1|]; auto.
      - intros Hall Hr0. inversion Hall; subst.
        apply Hrange; [assumption|]. apply Hr1; assumption. }
    destruct (key_eqb key INITIAL_WRITE_READ_SNAP_IDS) eqn:Ekey;
      cbn [negb] in Hstep; [apply Hclassified; exact Hstep|].
    assert (Hne : key <> INITIAL_WRITE_READ_SNAP_IDS)
      by (intros ->; rewrite key_eqb_refl in Ekey; discriminate).
    destruct (dst_may_exist (m_snap_map req) may_exist (fst key))
      as [[]|] eqn:Hexists; cbn [bind negb] in Hstep;
      [apply Hclassified; exact Hstep | | discriminate].
    injection Hstep as <-. split; [|split].
    + intros x. rewrite Hcov, dne_bytes_cons. tauto.
    + intros [H|H]; apply Hflag; [auto|].
      apply Hnon in H as [[[Hk|Hk] _]|H]; [contradiction|congruence|auto].
    + intros Hall Hr0. inversion Hall; subst. apply Hrange; assumption.
Qed.

Lemma add64_small (a b : Z) : 0 <= a + b < u64_mod -> add64 a b = a + b.
Proof. intros H. unfold add64. apply Z.mod_small; exact H. Qed.

Lemma sub64_small (a b : Z) : 0 <= a - b < u64_mod -> sub64 a b = a - b.
Proof. intros H. unfold sub64. apply Z.mod_small; exact H. Qed.

(** the parent stage adds to the interval of its key the DNE bytes below the
    parent overlap and leaves every other key alone *)
Lemma parent_fold_spec (key : WriteReadSnapIds) (overlap : Z)
    (dne : interval_set) :
  Forall run_in_range dne ->
  forall read_ops : ReadOps,
    let read_ops' := fold_left (parent_read_op key overlap) dne read_ops in
    (forall x, covers (planned_interval key read_ops') x <->
               covers (planned_interval key read_ops) x \/
               (covers dne x /\ x < overlap)) /\
    (forall k, k <> key -> find k read_ops' = find k read_ops).
Proof.
  induction 1 as [|[o l] rest Hr _ IH]; intros read_ops; simpl.
  - split; [|reflexivity]. intros x. split; [auto|].
    intros [H|[H _]]; [exact H | destruct (covers_nil _ H)].
  - destruct (IH (parent_read_op key overlap read_ops (o, l)))
      as [Hcov Hother].
    unfold run_in_range in Hr; simpl in Hr.
    split.
    + intros x. rewrite Hcov, covers_cons.
      unfold parent_read_op; cbn [fst snd].
      rewrite add64_small by lia.
      destruct (Z.leb_spec (Z.min (o + l) overlap) o) as [Hle|Hgt].
      * unfold in_extent; simpl. split; [tauto|].
        intros [H|[[H|H] Hx]]; auto. lia.
      * rewrite sub64_small by lia.
        rewrite covers_planned_union_insert.
        assert (Hclamp :
                  in_extent x (o, Z.min (o + l) overlap - o) <->
                  in_extent x (o, l) /\ x < overlap)
          by (unfold in_extent; simpl; lia).
        tauto.
    + intros k Hne. rewrite (Hother k Hne).
      unfold parent_read_op; cbn [fst snd].
      destruct (_ <=? _); [reflexivity|].
      unfold read_op_union_insert. apply find_upd_other; exact Hne.
Qed.

(** the parent stage plans a read exactly when a DNE run reaches below the
    overlap: a run that lies beyond it is dropped *)
Lemma parent_fold_keys (key : WriteReadSnapIds) (overlap : Z)
    (dne : interval_set) :
  Forall run_in_range dne ->
  forall read_ops : ReadOps,
    In key (keys (fold_left (parent_read_op key overlap) dne read_ops)) <->
    In key (keys read_ops) \/ exists x, covers dne x /\ x < overlap.
Proof.
  induction 1 as [|[o l] rest Hr _ IH]; intros read_ops; simpl.
  - split; [auto|]. intros [H|(x & H & _)]; [exact H|].
    destruct (covers_nil _ H).
  - rewrite IH. unfold run_in_range in Hr; simpl in Hr.
    unfold parent_read_op; cbn [fst snd].
    rewrite add64_small by lia.
    destruct (Z.leb_spec (Z.min (o + l) overlap) o) as [Hle|Hgt].
    + split.
      * intros [H|(x & Hx & Hlt)]; [auto|].
        right. exists x. rewrite covers_cons. auto.
      * intros [H|(x & Hx & Hlt)]; [auto|].
        apply covers_cons in Hx as [Hx|Hx]; [|right; exists x; auto].
        unfold in_extent in Hx; simpl in Hx. lia.
    + rewrite in_keys_read_op_union_insert. split.
      * intros [[_|H]|(x & Hx & Hlt)]; [|auto|].
        -- right. exists o. rewrite covers_cons. split; [|lia].
           left. unfold in_extent; simpl. lia.
        -- right. exists x. rewrite covers_cons. auto.
      * intros _. left. left. reflexivity.
Qed.

(** C7 as worded does not hold: the source is a clone copied from snapshot
    0, the initial key has a DNE run and the delta has a DATA extent under
    key (20, 20), but that key is skipped because the destination object
    cannot exist at snapshot 120; without flatten no parent read is planned. *)
Lemma parent_read_counterexample :
  m_src_snap_id_start (ex_req_parent false) = 0 /\
  parent (m_src_image_ctx (ex_req_parent false)) = true /\
  dne_bytes ex_delta_dne_then_data 0 /\
  (exists key extents e,
     In (key, extents) ex_delta_dne_then_data /\ In e extents /\
     get_state e <> SNAPSHOT_EXTENT_STATE_DNE) /\
  get_parent_overlap (m_src_image_ctx (ex_req_parent false)) 10 = Some 6 /\
  compute_read_ops (ex_req_parent false) ex_may_exist_not_120
                   ex_delta_dne_then_data = Some [].
Proof.
  split; [reflexivity|]. split; [reflexivity|]. split.
  - exists [sparse 0 8 SNAPSHOT_EXTENT_STATE_DNE]. split; [left; reflexivity|].
    exists (sparse 0 8 SNAPSHOT_EXTENT_STATE_DNE).
    split; [left; reflexivity|]. split; [reflexivity|].
    unfold in_extent; simpl; lia.
  - split.
    + exists (20, 20), [sparse 0 4 SNAPSHOT_EXTENT_STATE_DATA],
        (sparse 0 4 SNAPSHOT_EXTENT_STATE_DATA).
      split; [right; left; reflexivity|]. split; [left; reflexivity|].
      discriminate.
    + split; reflexivity.
Qed.

(** C7, amended. When [src_snap_id_start = 0], the source has a parent, the
    initial key has DNE bytes, and either some extent that is not DNE exists
    under a key the planner reads (the initial key, or a key whose
    destination snapshot may exist) or flatten was requested: if the parent
    overlap at the first source snapshot is found, the interval planned under
    the key (first, first) is what the loop over the delta planned there
    together with the DNE bytes below the overlap, a read op exists under
    that key exactly when the loop planned one or some DNE byte lies below
    the overlap (runs entirely beyond the overlap are dropped, and with them
    the read), and no other key changes; if the lookup fails the read plan
    is the one of the loop and the planner does not fail. *)
Theorem parent_read_ops_spec (req : Request) (may_exist : omap snap_t bool)
    (snapshot_delta : SnapshotDelta) (first : snap_t) (ids : SnapIds)
    (rest : SnapMap) (st : ReadPlan) :
  m_src_snap_id_start req = 0 ->
  parent (m_src_image_ctx req) = true ->
  m_snap_map req = (first, ids) :: rest ->
  delta_in_range snapshot_delta ->
  (exists x, dne_bytes snapshot_delta x) ->
  has_non_dne_extent req may_exist snapshot_delta \/ m_flatten req = true ->
  foreach (read_ops_for_key req may_exist) snapshot_delta ReadPlan_init
    = Some st ->
  match get_parent_overlap (m_src_image_ctx req) first with
  | Some overlap =>
      exists read_ops,
        compute_read_ops req may_exist snapshot_delta = Some read_ops /\
        (forall x,
           covers (planned_interval (first, first) read_ops) x <->
           covers (planned_interval (first, first) (rp_read_ops st)) x \/
           (dne_bytes snapshot_delta x /\ x < overlap)) /\
        (find (first, first) read_ops = None <->
         find (first, first) (rp_read_ops st) = None /\
         forall x, dne_bytes snapshot_delta x -> overlap <= x) /\
        (forall k, k <> (first, first) ->
                   find k read_ops = find k (rp_read_ops st))
  | None =>
      compute_read_ops req may_exist snapshot_delta = Some (rp_read_ops st)
  end.
Proof.
  intros Hstart Hparent Hmap Hrange [x0 Hdne] Hwhy Hloop.
  assert (Hfrom : read_from_parent req = true).
  { unfold read_from_parent. rewrite Hstart, Hparent. reflexivity. }
  destruct (read_loop_dne req may_exist snapshot_delta Hfrom _ _ Hloop)
    as (Hcov & Hflag & Hr).
  assert (Hnonempty : iset_empty (rp_dne_image_interval st) = false).
  { destruct (rp_dne_image_interval st) eqn:E; [|reflexivity].
    exfalso. apply (covers_nil x0). apply Hcov. right; exact Hdne. }
  assert (Hcond : negb (iset_empty (rp_dne_image_interval st)) &&
                  (negb (rp_only_dne_extents st) || m_flatten req) = true).
  { rewrite Hnonempty. simpl. destruct Hwhy as [Hnon| ->].
    - rewrite Hflag by (right; exact Hnon). reflexivity.
    - apply orb_true_r. }
  assert (Hbytes : forall x, covers (rp_dne_image_interval st) x <->
                             dne_bytes snapshot_delta x).
  { intros x. rewrite Hcov. split; [|auto].
    intros [H|H]; [destruct (covers_nil _ H) | exact H]. }
  unfold compute_read_ops. rewrite Hloop; cbn [bind].
  unfold parent_read_ops. rewrite Hcond, Hmap.
  destruct (get_parent_overlap (m_src_image_ctx req) first) as [overlap|];
    [|reflexivity].
  eexists. split; [reflexivity|].
  destruct (parent_fold_spec (first, first) overlap _
              (Hr Hrange (Forall_nil _)) (rp_read_ops st)) as [Hc Ho].
  pose proof (parent_fold_keys (first, first) overlap _
                (Hr Hrange (Forall_nil _)) (rp_read_ops st)) as Hk.
  split; [|split; [|exact Ho]].
  - intros x. rewrite Hc, Hbytes. reflexivity.
  - split.
    + intros Hnone.
      assert (Hnot : ~ In (first, first)
                       (keys (fold_left
                                (parent_read_op (first, first) overlap)
                                (rp_dne_image_interval st)
                                (rp_read_ops st)))).
      { intros Hin. apply in_keys_find in Hin as (v & Hv). congruence. }
      rewrite Hk in Hnot. split.
      * destruct (find (first, first) (rp_read_ops st)) eqn:E;
          [|reflexivity].
        exfalso. apply Hnot. left.
        apply (find_some_in_keys _ _ _ E).
      * intros x Hx. destruct (Z.le_gt_cases overlap x) as [H|H];
          [exact H|].
        exfalso. apply Hnot. right. exists x. rewrite Hbytes. auto.
    + intros [Hnone Hbeyond].
      match goal with
      | |- find ?k ?m = None => destruct (find k m) eqn:E; [|reflexivity]
      end.
      exfalso. apply find_some_in_keys in E. apply Hk in E.
      destruct E as [E|(x & Hx & Hlt)].
      * apply in_keys_find in E as (v & Hv). congruence.
      * apply Hbytes in Hx. specialize (Hbeyond x Hx). lia.
Qed.

(** flattening a clone whose object does not exist at the start: the six
    bytes below the parent overlap are planned under the key (10, 10) *)
Lemma parent_read_ops_spec_witness :
  match get_parent_overlap (m_src_image_ctx (ex_req_parent true)) 10 with
  | Some overlap =>
      exists read_ops,
        compute_read_ops (ex_req_parent true) ex_may_exist
          [(INITIAL_WRITE_READ_SNAP_IDS,
            [sparse 0 8 SNAPSHOT_EXTENT_STATE_DNE])] = Some read_ops /\
        (forall x,
           covers (planned_interval (10, 10) read_ops) x <->
           covers (planned_interval (10, 10) (rp_read_ops
             {| rp_read_ops := []; rp_only_dne_extents := true;
                rp_dne_image_interval := [(0, 8)] |})) x \/
           (dne_bytes [(INITIAL_WRITE_READ_SNAP_IDS,
                        [sparse 0 8 SNAPSHOT_EXTENT_STATE_DNE])] x /\
            x < overlap)) /\
        (find (10, 10) read_ops = None <->
         find (10, 10) (rp_read_ops
             {| rp_read_ops := []; rp_only_dne_extents := true;
                rp_dne_image_interval := [(0, 8)] |}) = None /\
         forall x, dne_bytes [(INITIAL_WRITE_READ_SNAP_IDS,
                               [sparse 0 8 SNAPSHOT_EXTENT_STATE_DNE])] x ->
                   overlap <= x) /\
        (forall k, k <> (10, 10) ->
                   find k read_ops = find k (rp_read_ops
             {| rp_read_ops := []; rp_only_dne_extents := true;
                rp_dne_image_interval := [(0, 8)] |}))
  | None =>
      compute_read_ops (ex_req_parent true) ex_may_exist
        [(INITIAL_WRITE_READ_SNAP_IDS,
          [sparse 0 8 SNAPSHOT_EXTENT_STATE_DNE])]
      = Some (rp_read_ops
             {| rp_read_ops := []; rp_only_dne_extents := true;
                rp_dne_image_interval := [(0, 8)] |})
  end.
Proof.
  apply (parent_read_ops_spec (ex_req_parent true) ex_may_exist
           [(INITIAL_WRITE_READ_SNAP_IDS,
             [sparse 0 8 SNAPSHOT_EXTENT_STATE_DNE])]
           10 [110] [(20, [120]); (CEPH_NOSNAP, [CEPH_NOSNAP])]).
  - reflexivity.
  - reflexivity.
  - reflexivity.
  - repeat constructor; vm_compute; discriminate.
  - exists 0, [sparse 0 8 SNAPSHOT_EXTENT_STATE_DNE].
    split; [left; reflexivity|].
    exists (sparse 0 8 SNAPSHOT_EXTENT_STATE_DNE).
    split; [left; reflexivity|]. split; [reflexivity|].
    unfold in_extent; simpl; lia.
  - right; reflexivity.
  - reflexivity.
Defined.

(** ** The bytes written *)


















(** ** Snapshots at which the destination object cannot exist *)

(** *** Where the invariant of C1 does hold: no hide-parent *)

Lemma read_loop_no_parent (req : Request) (may_exist : omap snap_t bool)
    (snapshot_delta : SnapshotDelta) (st : ReadPlan) :
  read_from_parent req = false ->
  foreach (read_ops_for_key req may_exist) snapshot_delta ReadPlan_init
    = Some st ->
  rp_dne_image_interval st = [] /\
  forall key, In key (keys (rp_read_ops st)) -> key_is_read req may_exist key.
Proof.
  intros Hfrom.
  apply (foreach_invariant
           (fun s => rp_dne_image_interval s = [] /\
                     forall key, In key (keys (rp_read_ops s)) ->
                                 key_is_read req may_exist key));
    [|split; [reflexivity | intros key []]].
  intros s [key extents] s' _ Hs. unfold read_ops_for_key; cbn [fst snd].
  assert (Hinner : key_is_read req may_exist key ->
                   foreach (classify_extent req key) extents s = Some s' ->
                   rp_dne_image_interval s' = [] /\
                   forall k, In k (keys (rp_read_ops s')) ->
                             key_is_read req may_exist k).
  { intros Hread.
    apply (foreach_invariant
             (fun s => rp_dne_image_interval s = [] /\
                       forall k, In k (keys (rp_read_ops s)) ->
                                 key_is_read req may_exist k));
      [|exact Hs].
    intros s0 e s0' _ Hs0. unfold classify_extent. rewrite Hfrom.
    destruct (get_state e).
    - destruct (ceph_assert _); simpl; [|discriminate].
      intros [= <-]; exact Hs0.
    - intros [= <-]; exact Hs0.
    - intros [= <-]; simpl. split; [apply Hs0|]. intros k Hk.
      apply in_keys_read_op_union_insert in Hk as [->|Hk];
        [exact Hread | apply Hs0; exact Hk]. }
  destruct (key_eqb key INITIAL_WRITE_READ_SNAP_IDS) eqn:Ekey; cbn [negb].
  - apply key_eqb_eq in Ekey. apply Hinner; left; exact Ekey.
  - destruct (dst_may_exist (m_snap_map req) may_exist (fst key))
      as [[]|] eqn:Hexists; cbn [bind negb];
      [apply Hinner; right; exact Hexists
      | intros [= <-]; exact Hs | discriminate].
Qed.

Lemma zero_ops_for_snap_other (req : Request) (may_exist : omap snap_t bool)
    (first_key : snap_t) (st st' : ZeroState) (src_snap_seq S : snap_t) :
  zero_ops_for_snap req may_exist first_key st src_snap_seq = Some st' ->
  (zs_hide_parent st = false -> zs_hide_parent st' = false) /\
  (S <> src_snap_seq ->
   find S (m_write_ops (zs_plan st')) = find S (m_write_ops (zs_plan st))).
Proof.
  unfold zero_ops_for_snap.
  destruct (front_of (m_snap_map req) src_snap_seq) as [d|]; cbn [bind];
    [|discriminate].
  destruct (find d may_exist) as [e|]; cbn [bind]; [|discriminate].
  destruct (negb e && _).
  - intros [= <-]; cbn [zs_plan m_write_ops zs_hide_parent].
    split; [auto|]. intros Hne. apply find_emplace_back_other; exact Hne.
  - destruct (update_hide_parent _ _ _ _ _) as [[hp prev]|] eqn:Hhp;
      cbn [bind]; [|discriminate].
    intros [= <-]; cbn [zs_plan m_write_ops zs_hide_parent fst snd].
    split.
    + intros Hoff. unfold update_hide_parent in Hhp. rewrite Hoff in Hhp.
      injection Hhp as <- _. reflexivity.
    + intros Hne. unfold zero_ops_of_interval.
      apply (fold_left_invariant
               (fun a => find S (fst a) = find S (m_write_ops (zs_plan st))));
        [|reflexivity].
      intros a z _ Ha.
      apply (fold_left_invariant
               (fun a => find S (fst a) = find S (m_write_ops (zs_plan st))));
        [|exact Ha].
      intros b oe _ Hb. rewrite <- Hb. unfold zero_object_extent.
      destruct (_ <=? _); cbn [fst].
      * destruct (_ && _); [apply find_emplace_back_other; exact Hne|].
        destruct (_ <? _); [|reflexivity].
        destruct (_ =? _); apply find_emplace_back_other; exact Hne.
      * apply find_emplace_back_other; exact Hne.
Qed.

Lemma merge_write_ops_sorted (striper : Striper) (read_ops : ReadOps)
    (p : Plan) :
  merge_write_ops striper read_ops = Some p ->
  sorted_keys (m_dst_zero_interval p).
Proof.
  unfold merge_write_ops.
  apply (foreach_invariant (fun q => sorted_keys (m_dst_zero_interval q)));
    [|constructor].
  intros q [key ro] q' _ Hq. unfold merge_read_op; cbn [fst snd].
  intros Hstep. apply bind_some in Hstep as (w & _ & Hq').
  injection Hq' as <-. cbn [m_dst_zero_interval].
  apply (fold_left_invariant (fun m => sorted_keys m)); [|exact Hq].
  intros m e _ Hm. apply sorted_keys_upd; exact Hm.
Qed.

Lemma zero_map_sorted (req : Request) (snapshot_delta : SnapshotDelta)
    (first : snap_t) (m : omap snap_t interval_set) :
  sorted_keys m ->
  sorted_keys
    (ensure_zero_intervals (m_snap_map req)
       (collect_zeroed (hide_parent_init req) first snapshot_delta m)).
Proof.
  intros Hm. unfold ensure_zero_intervals, collect_zeroed.
  apply (fold_left_invariant (fun m => sorted_keys m)).
  - intros m0 e _ Hm0. destruct (find (fst e) m0); [exact Hm0|].
    apply sorted_keys_upd; exact Hm0.
  - apply (fold_left_invariant (fun m => sorted_keys m)); [|exact Hm].
    intros m0 entry _ Hm0.
    apply (fold_left_invariant (fun m => sorted_keys m)); [|exact Hm0].
    intros m1 e _ Hm1. unfold collect_zeroed_extent, zero_union_insert.
    destruct (get_state e); try exact Hm1.
    destruct (negb _); [apply sorted_keys_upd; exact Hm1|].
    destruct (hide_parent_init req); [apply sorted_keys_upd|]; exact Hm1.
Qed.

(** * The synthesis loop, snapshot by snapshot *)

Lemma zero_ops_for_snap_intervals (req : Request)
    (may_exist : omap snap_t bool) (first_key : snap_t) (st st' : ZeroState)
    (S : snap_t) :
  zero_ops_for_snap req may_exist first_key st S = Some st' ->
  let zero := find_or [] S (m_dst_zero_interval (zs_plan st)) in
  let data := find_or [] S (m_dst_data_interval (zs_plan st)) in
  m_dst_zero_interval (zs_plan st')
  = upd S (subtract zero (intersection_of zero data))
        (m_dst_zero_interval (zs_plan st)) /\
  m_dst_data_interval (zs_plan st')
  = upd S data (m_dst_data_interval (zs_plan st)).
Proof.
  unfold zero_ops_for_snap.
  destruct (front_of (m_snap_map req) S) as [d|]; cbn [bind]; [|discriminate].
  destruct (find d may_exist) as [e|]; cbn [bind]; [|discriminate].
  destruct (negb e && _).
  - intros [= <-]. split; reflexivity.
  - destruct (update_hide_parent _ _ _ _ _) as [hp|]; cbn [bind];
      [|discriminate].
    intros [= <-]. split; reflexivity.
Qed.


Lemma zero_ops_for_snap_state_other (req : Request)
    (may_exist : omap snap_t bool) (first_key : snap_t) (st st' : ZeroState)
    (src_snap_seq S : snap_t) :
  zero_ops_for_snap req may_exist first_key st src_snap_seq = Some st' ->
  S <> src_snap_seq ->
  find S (m_dst_object_state (zs_plan st'))
  = find S (m_dst_object_state (zs_plan st)).
Proof.
  unfold zero_ops_for_snap.
  destruct (front_of (m_snap_map req) src_snap_seq) as [d|]; cbn [bind];
    [|discriminate].
  destruct (find d may_exist) as [e|]; cbn [bind]; [|discriminate].
  destruct (negb e && _).
  - intros [= <-] _. reflexivity.
  - destruct (update_hide_parent _ _ _ _ _) as [[hp prev]|]; cbn [bind];
      [|discriminate].
    intros [= <-] Hne. cbn [zs_plan m_dst_object_state fst snd].
    unfold record_object_state.
    destruct (_ || hp); [|reflexivity].
    destruct (_ && _); rewrite ?find_upd_other by exact Hne; reflexivity.
Qed.


Lemma find_or_emplace_back (s : snap_t) (op : WriteOp)
    (write_ops : omap snap_t WriteOps) :
  find_or [] s (emplace_back s op write_ops)
  = find_or [] s write_ops ++ [op].
Proof.
  unfold find_or at 1. rewrite find_emplace_back. reflexivity.
Qed.

Lemma compute_zero_ops_loop (req : Request) (may_exist : omap snap_t bool)
    (snapshot_delta : SnapshotDelta) (p : Plan) :
  compute_zero_ops req may_exist snapshot_delta p
  = match zero_loop_start req snapshot_delta p with
    | Some (first_key, snaps, st0) =>
        let* st := foreach (zero_ops_for_snap req may_exist first_key)
                           snaps st0 in
        Some (zs_plan st)
    | None => None
    end.
Proof.
  unfold compute_zero_ops, zero_loop_start.
  destruct (m_snap_map req) as [|[first ids] rest]; reflexivity.
Qed.

Lemma merge_write_ops_no_state (striper : Striper) (read_ops : ReadOps)
    (p : Plan) :
  merge_write_ops striper read_ops = Some p -> m_dst_object_state p = [].
Proof.
  unfold merge_write_ops.
  apply (foreach_invariant (fun q => m_dst_object_state q = []));
    [|reflexivity].
  intros q [key ro] q' _ Hq. unfold merge_read_op; cbn [fst snd].
  intros Hstep. apply bind_some in Hstep as (w & _ & Hq').
  injection Hq' as <-. exact Hq.
Qed.

(** the loop visits every snapshot of the snap map once, and starts on the
    write ops of the reads, with no object state *)
Lemma zero_loop_start_facts (req : Request) (snapshot_delta : SnapshotDelta)
    (read_ops : ReadOps) (merged : Plan) (first_key : snap_t)
    (snaps : list snap_t) (st0 : ZeroState) :
  merge_write_ops (m_striper req) read_ops = Some merged ->
  zero_loop_start req snapshot_delta merged = Some (first_key, snaps, st0) ->
  NoDup snaps /\
  (forall S, In S (keys (m_snap_map req)) -> In S snaps) /\
  m_write_ops (zs_plan st0) = m_write_ops merged /\
  m_dst_object_state (zs_plan st0) = [] /\
  zs_hide_parent st0 = hide_parent_init req /\
  zs_prev_end_size st0 = 0.
Proof.
  intros Hmerge. unfold zero_loop_start.
  destruct (m_snap_map req) as [|[first ids] rest] eqn:Hmap; [discriminate|].
  rewrite <- Hmap. intros [= <- <- <-].
  cbn [zs_plan m_write_ops m_dst_object_state zs_hide_parent
       zs_prev_end_size].
  split_conj; try reflexivity.
  - apply sorted_keys_nodup. apply zero_map_sorted.
    apply (merge_write_ops_sorted _ _ _ Hmerge).
  - intros S HS. apply ensure_zero_intervals_keys. exact HS.
  - apply (merge_write_ops_no_state _ _ _ Hmerge).
Qed.

(** The plan at a snapshot of the snap map is the one that the iteration of
    that snapshot leaves: the iterations before it do not touch its batch,
    its state or its zero interval, nor do the iterations after it. *)
Lemma plan_at_snapshot (req : Request) (may_exist : omap snap_t bool)
    (snapshot_delta : SnapshotDelta) (read_ops : ReadOps) (p : Plan)
    (S : snap_t) :
  plan_writes req may_exist snapshot_delta read_ops = Some p ->
  In S (keys (m_snap_map req)) ->
  exists merged first_key st st',
    merge_write_ops (m_striper req) read_ops = Some merged /\
    snapshot_iteration req may_exist snapshot_delta read_ops first_key S
                       st st' /\
    find S (m_write_ops (zs_plan st)) = find S (m_write_ops merged) /\
    find S (m_dst_object_state (zs_plan st)) = None /\
    find S (m_write_ops p) = find S (m_write_ops (zs_plan st')) /\
    find S (m_dst_object_state p)
    = find S (m_dst_object_state (zs_plan st')) /\
    find S (m_dst_zero_interval p)
    = find S (m_dst_zero_interval (zs_plan st')).
Proof.
  intros Hrun HS. unfold plan_writes in Hrun.
  apply bind_some in Hrun as (merged & Hmerge & Hzero).
  rewrite compute_zero_ops_loop in Hzero.
  destruct (zero_loop_start req snapshot_delta merged)
    as [[[first_key snaps] st0]|] eqn:Hstart; [|discriminate].
  apply bind_some in Hzero as (stf & Hloop & Hp). injection Hp as <-.
  destruct (zero_loop_start_facts _ _ _ _ _ _ _ Hmerge Hstart)
    as (Hnodup & Hall & Hw0 & Hs0 & _ & _).
  destruct (in_split S snaps (Hall S HS)) as (before & after & Hsplit).
  rewrite Hsplit, foreach_app in Hloop.
  apply bind_some in Hloop as (st & Hbefore & Hafter).
  simpl in Hafter. apply bind_some in Hafter as (st' & Hstep & Hafter).
  rewrite Hsplit in Hnodup. apply NoDup_remove_2 in Hnodup.
  assert (Hnb : ~ In S before)
    by (intros Hc; apply Hnodup, in_or_app; left; exact Hc).
  assert (Hna : ~ In S after)
    by (intros Hc; apply Hnodup, in_or_app; right; exact Hc).
  assert (Hst : find S (m_write_ops (zs_plan st))
                = find S (m_write_ops (zs_plan st0)) /\
                find S (m_dst_object_state (zs_plan st))
                = find S (m_dst_object_state (zs_plan st0))).
  { revert Hbefore.
    apply (foreach_invariant
             (fun s => find S (m_write_ops (zs_plan s))
                       = find S (m_write_ops (zs_plan st0)) /\
                       find S (m_dst_object_state (zs_plan s))
                       = find S (m_dst_object_state (zs_plan st0))));
      [|split; reflexivity].
    intros s x s' Hx [Hw Ho] Hsx.
    assert (Hne : S <> x) by (intros ->; contradiction).
    rewrite <- Hw, <- Ho. split.
    - apply (zero_ops_for_snap_other _ _ _ _ _ _ S Hsx). exact Hne.
    - apply (zero_ops_for_snap_state_other _ _ _ _ _ _ S Hsx). exact Hne. }
  assert (Hstf : find S (m_write_ops (zs_plan stf))
                 = find S (m_write_ops (zs_plan st')) /\
                 find S (m_dst_object_state (zs_plan stf))
                 = find S (m_dst_object_state (zs_plan st')) /\
                 find S (m_dst_zero_interval (zs_plan stf))
                 = find S (m_dst_zero_interval (zs_plan st'))).
  { revert Hafter.
    apply (foreach_invariant
             (fun s => find S (m_write_ops (zs_plan s))
                       = find S (m_write_ops (zs_plan st')) /\
                       find S (m_dst_object_state (zs_plan s))
                       = find S (m_dst_object_state (zs_plan st')) /\
                       find S (m_dst_zero_interval (zs_plan s))
                       = find S (m_dst_zero_interval (zs_plan st'))));
      [|split_conj; reflexivity].
    intros s x s' Hx (Hw & Ho & Hz) Hsx.
    assert (Hne : S <> x) by (intros ->; contradiction).
    rewrite <- Hw, <- Ho, <- Hz. split_conj.
    - apply (zero_ops_for_snap_other _ _ _ _ _ _ S Hsx). exact Hne.
    - apply (zero_ops_for_snap_state_other _ _ _ _ _ _ S Hsx). exact Hne.
    - destruct (zero_ops_for_snap_intervals _ _ _ _ _ _ Hsx) as [Hzi _].
      cbv zeta in Hzi. rewrite Hzi. apply find_upd_other. exact Hne. }
  destruct Hst as [Hw Ho]. destruct Hstf as (Hwf & Hof & Hzf).
  exists merged, first_key, st, st'.
  split; [exact Hmerge|]. split.
  - exists merged, snaps, st0, before, after. auto.
  - rewrite Hw, Ho, Hw0, Hs0. auto.
Qed.

Lemma nodup_split_unique {A : Type} (x : A) (b1 a1 b2 a2 : list A) :
  NoDup (b1 ++ x :: a1) ->
  b1 ++ x :: a1 = b2 ++ x :: a2 ->
  b1 = b2 /\ a1 = a2.
Proof.
  revert b2. induction b1 as [|y b1 IH]; intros b2 Hnd Heq.
  - destruct b2 as [|z b2]; simpl in Heq.
    + injection Heq as <-. auto.
    + injection Heq as <- ->. simpl in Hnd. inversion Hnd as [|? ? Hin _].
      exfalso. apply Hin. apply in_or_app. right. left. reflexivity.
  - destruct b2 as [|z b2]; simpl in Heq.
    + injection Heq as -> <-. simpl in Hnd. inversion Hnd as [|? ? Hin _].
      exfalso. apply Hin. apply in_or_app. right. left. reflexivity.
    + injection Heq as <- Heq. simpl in Hnd.
      inversion Hnd as [|? ? _ Hnd']; subst.
      destruct (IH b2 Hnd' Heq) as [-> ->]. auto.
Qed.

(** a run of the planner has one iteration for a snapshot: the states it
    starts and ends in are determined *)
Lemma snapshot_iteration_unique (req : Request)
    (may_exist : omap snap_t bool) (snapshot_delta : SnapshotDelta)
    (read_ops : ReadOps) (S k1 k2 : snap_t) (s1 s1' s2 s2' : ZeroState) :
  snapshot_iteration req may_exist snapshot_delta read_ops k1 S s1 s1' ->
  snapshot_iteration req may_exist snapshot_delta read_ops k2 S s2 s2' ->
  k1 = k2 /\ s1 = s2 /\ s1' = s2'.
Proof.
  intros (m1 & sn1 & i1 & b1 & a1 & Hm1 & Hz1 & Hs1 & Hb1 & He1)
         (m2 & sn2 & i2 & b2 & a2 & Hm2 & Hz2 & Hs2 & Hb2 & He2).
  rewrite Hm1 in Hm2. injection Hm2 as <-.
  destruct (zero_loop_start_facts _ _ _ _ _ _ _ Hm1 Hz1) as (Hnd & _).
  rewrite Hz1 in Hz2. injection Hz2 as <- <- <-.
  rewrite Hs1 in Hnd. rewrite Hs1 in Hs2.
  destruct (nodup_split_unique _ _ _ _ _ Hnd Hs2) as [<- <-].
  rewrite Hb1 in Hb2. injection Hb2 as <-.
  rewrite He1 in He2. injection He2 as <-. auto.
Qed.

(** what one iteration does: the existence guard emits REMOVE and moves
    on, or the hide-parent block, the zero ops and the object state follow *)
Lemma zero_ops_for_snap_cases (req : Request) (may_exist : omap snap_t bool)
    (first_key : snap_t) (st st' : ZeroState) (S : snap_t) :
  zero_ops_for_snap req may_exist first_key st S = Some st' ->
  exists dst_snap_seq,
    front_of (m_snap_map req) S = Some dst_snap_seq /\
    ((removed_by_guard req may_exist S st /\
      m_write_ops (zs_plan st')
      = emplace_back S (mkWriteOp WRITE_OP_TYPE_REMOVE 0 0)
                     (m_write_ops (zs_plan st)) /\
      m_dst_object_state (zs_plan st') = m_dst_object_state (zs_plan st) /\
      zs_prev_end_size st' = 0) \/
     (~ removed_by_guard req may_exist S st /\
      exists hide_parent prev_end_size,
        update_hide_parent req dst_snap_seq (key_eqb S first_key)
          (zs_hide_parent st) (zs_prev_end_size st)
          = Some (hide_parent, prev_end_size) /\
        let w := zero_ops_of_interval (m_striper req) S hide_parent
                   prev_end_size
                   (find_or [] S (m_dst_zero_interval (zs_plan st')))
                   (m_write_ops (zs_plan st),
                    end_size_of_writes prev_end_size S
                                       (m_write_ops (zs_plan st))) in
        m_write_ops (zs_plan st') = fst w /\
        zs_prev_end_size st' = snd w /\
        m_dst_object_state (zs_plan st')
        = record_object_state (feature_fast_diff (m_dst_image_ctx req)) S
            hide_parent prev_end_size (snd w) (fst w)
            (m_dst_object_state (zs_plan st)))).
Proof.
  unfold zero_ops_for_snap, removed_by_guard, dst_may_exist.
  destruct (front_of (m_snap_map req) S) as [d|]; cbn [bind]; [|discriminate].
  destruct (find d may_exist) as [e|]; cbn [bind]; [|discriminate].
  intros Hstep. exists d. split; [reflexivity|].
  destruct (negb e && (0 <? zs_prev_end_size st)) eqn:Hguard.
  - apply andb_true_iff in Hguard as [He Hprev].
    apply negb_true_iff in He. apply Z.ltb_lt in Hprev. subst e.
    injection Hstep as <-. left. split_conj; auto.
  - right. split.
    + intros [He Hprev]. injection He as ->.
      apply Z.ltb_lt in Hprev. rewrite Hprev in Hguard. discriminate.
    + destruct (update_hide_parent _ _ _ _ _) as [[hp prev]|]; cbn [bind];
        [|discriminate].
      cbn [fst snd] in Hstep. injection Hstep as <-.
      exists hp, prev. split; [reflexivity|].
      cbn [zs_plan m_write_ops m_dst_object_state zs_prev_end_size
           m_dst_zero_interval].
      assert (Hz : forall (v : interval_set) (m : omap snap_t interval_set),
                 find_or [] S (upd S v m) = v).
      { intros v m. unfold find_or. rewrite find_upd_same. reflexivity. }
      rewrite Hz. auto.
Qed.

(** ** The object-map state of a snapshot *)

(** C9, amended. For every snapshot of the snap map, met by the synthesis
    loop in the state [st]: when the existence guard removes it, the
    object-state plan has no entry for it; otherwise, with [hide_parent] and
    [prev_end_size] as the hide-parent block leaves them and [end_size] the
    size after the zero ops, the plan has an entry for the snapshot exactly
    when [end_size > 0] or hide-parent is live; the entry is
    OBJECT_EXISTS_CLEAN exactly when the destination has fast-diff,
    [end_size = prev_end_size] and the write plan has no batch at all for the
    snapshot (no op of any type), and OBJECT_EXISTS otherwise. *)
Theorem object_state_of_snap (req : Request) (may_exist : omap snap_t bool)
    (snapshot_delta : SnapshotDelta) (read_ops : ReadOps) (p : Plan)
    (S : snap_t) :
  plan_writes req may_exist snapshot_delta read_ops = Some p ->
  In S (keys (m_snap_map req)) ->
  exists first_key st st' dst_snap_seq,
    snapshot_iteration req may_exist snapshot_delta read_ops first_key S
                       st st' /\
    front_of (m_snap_map req) S = Some dst_snap_seq /\
    (removed_by_guard req may_exist S st ->
     find S (m_dst_object_state p) = None) /\
    (~ removed_by_guard req may_exist S st ->
     exists hide_parent prev_end_size,
       update_hide_parent req dst_snap_seq (key_eqb S first_key)
         (zs_hide_parent st) (zs_prev_end_size st)
         = Some (hide_parent, prev_end_size) /\
       let end_size := zs_prev_end_size st' in
       find S (m_dst_object_state p)
       = if (0 <? end_size) || hide_parent then
           Some (if feature_fast_diff (m_dst_image_ctx req) &&
                    (end_size =? prev_end_size) &&
                    negb (has_key S (m_write_ops p))
                 then OBJECT_EXISTS_CLEAN else OBJECT_EXISTS)
         else None).
Proof.
  intros Hrun HS.
  destruct (plan_at_snapshot _ _ _ _ _ _ Hrun HS)
    as (merged & first_key & st & st' & _ & Hiter & _ & Hnone & Hw & Ho & _).
  assert (Hstep : zero_ops_for_snap req may_exist first_key st S = Some st').
  { destruct Hiter as (m & sn & s0 & be & af & _ & _ & _ & _ & H). exact H. }
  destruct (zero_ops_for_snap_cases _ _ _ _ _ _ Hstep)
    as (d & Hd & [(Hguard & _ & Hstate & _)
                 |(Hkeep & hp & prev & Hhp & Hops & Hend & Hstate)]).
  - exists first_key, st, st', d. split_conj; auto.
    + intros _. rewrite Ho, Hstate. exact Hnone.
    + intros Hc. contradiction.
  - exists first_key, st, st', d. split_conj; auto.
    + intros Hc. contradiction.
    + intros _. exists hp, prev. split; [exact Hhp|]. cbv zeta.
      cbv zeta in Hops, Hend, Hstate.
      rewrite Ho, Hstate, find_record_object_state, Hnone.
      rewrite <- Hend, <- Hops. unfold has_key. rewrite Hw. reflexivity.
Qed.

(** snapshot 20 of the example: the batch holds ZERO(2, 2), so the state is
    OBJECT_EXISTS although the size did not change *)
Lemma object_state_of_snap_witness :
  exists first_key st st' dst_snap_seq,
    snapshot_iteration ex_req ex_may_exist ex_delta_zero_inside
                       ex_read_ops_zero_inside first_key 20 st st' /\
    front_of (m_snap_map ex_req) 20 = Some dst_snap_seq /\
    (removed_by_guard ex_req ex_may_exist 20 st ->
     find 20 (m_dst_object_state ex_plan_zero_inside) = None) /\
    (~ removed_by_guard ex_req ex_may_exist 20 st ->
     exists hide_parent prev_end_size,
       update_hide_parent ex_req dst_snap_seq (key_eqb 20 first_key)
         (zs_hide_parent st) (zs_prev_end_size st)
         = Some (hide_parent, prev_end_size) /\
       let end_size := zs_prev_end_size st' in
       find 20 (m_dst_object_state ex_plan_zero_inside)
       = if (0 <? end_size) || hide_parent then
           Some (if feature_fast_diff (m_dst_image_ctx ex_req) &&
                    (end_size =? prev_end_size) &&
                    negb (has_key 20 (m_write_ops ex_plan_zero_inside))
                 then OBJECT_EXISTS_CLEAN else OBJECT_EXISTS)
         else None).
Proof.
  apply (object_state_of_snap ex_req ex_may_exist ex_delta_zero_inside
           ex_read_ops_zero_inside ex_plan_zero_inside 20).
  - vm_compute. reflexivity.
  - right. left. reflexivity.
Defined.

(** ** The zero ops of a snapshot *)







(** ** Snapshots at which the destination object cannot exist *)










(** the zeroed object of a clone whose destination cannot hold it at
    snapshot 110: the hide-parent block finds no parent overlap there and
    clears the flag, nothing is planned for snapshot 10, and the request has
    nothing to copy *)
Example run_zeroed_clone :
  dst_may_exist (m_snap_map ex_req_zeroed_clone)
    (compute_dst_object_may_exist ex_req_zeroed_clone) 10 = Some false /\
  hide_parent_init ex_req_zeroed_clone = true /\
  (exists p,
     plan_writes ex_req_zeroed_clone
       (compute_dst_object_may_exist ex_req_zeroed_clone) ex_delta_zeroed []
     = Some p /\
     find 10 (m_dst_zero_interval p) = Some [(0, 8)] /\
     m_write_ops p = []) /\
  send ex_req_zeroed_clone (ex_env ex_delta_zeroed) = Some ([], - ENOENT).
Proof.
  split; [reflexivity|]. split; [reflexivity|]. split.
  - eexists. split; [vm_compute; reflexivity|]. split; reflexivity.
  - vm_compute. reflexivity.
Qed.

(** * Further properties of the request *)

(** ** compute_dst_object_may_exist and the list-snaps request *)

Lemma may_exist_fold (f : snap_t -> bool) (l : list snap_t) :
  forall (m : omap snap_t bool) (s : snap_t),
    find s (fold_left (fun m0 x => upd x (f x) m0) l m)
    = if existsb (Z.eqb s) l then Some (f s) else find s m.
Proof.
  induction l as [|x l IH]; intros m s; simpl; [reflexivity|].
  rewrite IH. destruct (existsb (Z.eqb s) l); [rewrite orb_true_r; reflexivity|].
  rewrite orb_false_r. destruct (Z.eqb_spec s x) as [->|Hne].
  - apply find_upd_same.
  - apply find_upd_other; exact Hne.
Qed.

(** X1. The existence map has an entry exactly for the snapshots of the
    destination image and for HEAD, and the entry says whether the object
    number is below the object count of that snapshot. *)
Theorem dst_object_may_exist_spec (req : Request) (s : snap_t) :
  (In s (dst_snap_ids_of req) ->
   find s (compute_dst_object_may_exist req)
   = Some (m_dst_object_number req <?
           get_object_count (m_dst_image_ctx req) s)) /\
  (~ In s (dst_snap_ids_of req) ->
   find s (compute_dst_object_may_exist req) = None) /\
  find CEPH_NOSNAP (compute_dst_object_may_exist req)
  = Some (m_dst_object_number req <?
          get_object_count (m_dst_image_ctx req) CEPH_NOSNAP).
Proof.
  unfold compute_dst_object_may_exist, dst_snap_ids_of.
  assert (Hex : forall l, existsb (Z.eqb s) l = true <-> In s l).
  { intros l. rewrite existsb_exists. split.
    - intros (x & Hin & Heq). apply Z.eqb_eq in Heq; subst; exact Hin.
    - intros Hin. exists s. split; [exact Hin | apply Z.eqb_refl]. }
  split; [|split].
  - intros Hin. rewrite may_exist_fold.
    rewrite (proj2 (Hex _) Hin). reflexivity.
  - intros Hnot. rewrite may_exist_fold.
    destruct (existsb (Z.eqb s) _) eqn:E; [|reflexivity].
    apply Hex in E. contradiction.
  - rewrite may_exist_fold.
    rewrite existsb_app. cbn [existsb]. rewrite Z.eqb_refl. cbn [orb].
    rewrite orb_true_r. reflexivity.
Qed.

Lemma list_snap_ids_loop (start : snap_t) (l : list snap_t) :
  forall acc : list snap_t,
    fold_left
      (fun snap_ids src_snap_id =>
         if negb (src_snap_id =? hd 0 snap_ids)
         then snap_ids ++ [src_snap_id]
         else snap_ids)
      l (start :: acc)
    = start :: acc ++ filter (fun s => negb (s =? start)) l.
Proof.
  induction l as [|s l IH]; intros acc; simpl.
  - rewrite app_nil_r. reflexivity.
  - destruct (negb (s =? start)).
    + change ((start :: acc) ++ [s]) with (start :: (acc ++ [s])).
      rewrite IH, <- app_assoc. reflexivity.
    + apply IH.
Qed.

(** X2. The snap ids of the list-snaps request are [src_snap_id_start]
    followed by the keys of the snap map other than that id, in the order of
    the snap map: they hold that id and the keys of the snap map and nothing
    else, and, the keys of a map being distinct, hold no id twice. *)
Theorem list_snap_ids_spec (req : Request) :
  NoDup (keys (m_snap_map req)) ->
  list_snap_ids req
  = m_src_snap_id_start req ::
    filter (fun s => negb (s =? m_src_snap_id_start req))
           (keys (m_snap_map req)) /\
  (forall s, In s (list_snap_ids req) <->
             s = m_src_snap_id_start req \/ In s (keys (m_snap_map req))) /\
  NoDup (list_snap_ids req).
Proof.
  intros Hnd.
  assert (Heq : list_snap_ids req
                = m_src_snap_id_start req ::
                  filter (fun s => negb (s =? m_src_snap_id_start req))
                         (keys (m_snap_map req))).
  { unfold list_snap_ids. apply (list_snap_ids_loop _ _ []). }
  split; [exact Heq|]. rewrite Heq. split.
  - intros s. simpl. rewrite filter_In. split.
    + intros [<-|[Hin _]]; auto.
    + intros [->|Hin]; [auto|].
      destruct (Z.eqb_spec s (m_src_snap_id_start req)) as [->|Hne];
        [auto|]. right. split; [exact Hin | reflexivity].
  - constructor.
    + rewrite filter_In. intros [_ Hc]. rewrite Z.eqb_refl in Hc.
      discriminate.
    + apply NoDup_filter. exact Hnd.
Qed.

(** a copy that starts at snapshot 10 of the example snap map: the id 10 is
    not listed a second time, and 20 and HEAD follow in the order of the
    map *)
Lemma list_snap_ids_spec_witness :
  list_snap_ids ex_req_from_10 = [10; 20; CEPH_NOSNAP] /\
  (forall s, In s (list_snap_ids ex_req_from_10) <->
             s = m_src_snap_id_start ex_req_from_10 \/
             In s (keys (m_snap_map ex_req_from_10))) /\
  NoDup (list_snap_ids ex_req_from_10).
Proof.
  apply (list_snap_ids_spec ex_req_from_10).
  repeat constructor; simpl; intuition discriminate.
Defined.

(** ** The read planner: what it plans and when it gives up *)

Lemma union_insert_nonempty (off len : Z) (s : interval_set) :
  union_insert off len s <> [].
Proof.
  revert off len. induction s as [|[o l] rest IH]; intros off len; simpl.
  - discriminate.
  - destruct (off + len <? o); [discriminate|].
    destruct (o + l <? off); [discriminate | apply IH].
Qed.

Lemma nonempty_read_op_union_insert (key : WriteReadSnapIds) (off len : Z)
    (read_ops : ReadOps) :
  Forall (fun e => image_interval (snd e) <> []) read_ops ->
  Forall (fun e => image_interval (snd e) <> [])
         (read_op_union_insert key off len read_ops).
Proof.
  intros Hall. unfold read_op_union_insert.
  apply Forall_upd; [|exact Hall]. simpl. apply union_insert_nonempty.
Qed.

(** an invariant of the read ops that [read_op_union_insert] keeps is kept
    by the whole planner *)
Lemma compute_read_ops_invariant (P : ReadOps -> Prop) (req : Request)
    (may_exist : omap snap_t bool) (snapshot_delta : SnapshotDelta)
    (read_ops : ReadOps) :
  P [] ->
  (forall key off len ops, P ops ->
                           P (read_op_union_insert key off len ops)) ->
  compute_read_ops req may_exist snapshot_delta = Some read_ops ->
  P read_ops.
Proof.
  intros Hnil Hins. unfold compute_read_ops. intros Hrun.
  apply bind_some in Hrun as (st & Hloop & Hparent).
  assert (Hst : P (rp_read_ops st)).
  { revert Hloop.
    apply (foreach_invariant (fun s => P (rp_read_ops s))); [|exact Hnil].
    intros s [key extents] s' _ Hs. unfold read_ops_for_key; cbn [fst snd].
    assert (Hinner : foreach (classify_extent req key) extents s = Some s' ->
                     P (rp_read_ops s')).
    { apply (foreach_invariant (fun s => P (rp_read_ops s))); [|exact Hs].
      intros s0 e s0' _ Hs0. unfold classify_extent.
      destruct (get_state e).
      - destruct (ceph_assert _); simpl; [|discriminate].
        destruct (read_from_parent req); intros [= <-]; exact Hs0.
      - intros [= <-]; exact Hs0.
      - intros [= <-]; simpl. apply Hins; exact Hs0. }
    destruct (negb (key_eqb key INITIAL_WRITE_READ_SNAP_IDS)); [|exact Hinner].
    destruct (dst_may_exist _ _ _) as [[]|]; simpl;
      [exact Hinner | intros [= <-]; exact Hs | discriminate]. }
  revert Hparent. unfold parent_read_ops.
  destruct (_ && _); [|intros [= <-]; exact Hst].
  destruct (m_snap_map req) as [|[src_snap_seq ids] rest]; [discriminate|].
  destruct (get_parent_overlap _ _) as [overlap|];
    intros [= <-]; [|exact Hst].
  apply (fold_left_invariant P); [|exact Hst].
  intros ops e _ Hops. unfold parent_read_op.
  destruct (_ <=? _); [exact Hops | apply Hins; exact Hops].
Qed.

(** X3. The planner never plans a key with an empty image interval: for every
    planned key the read phase issues exactly one read, of that interval at
    the read snapshot of the key. *)
Theorem planned_reads_nonempty (req : Request) (env : Env)
    (may_exist : omap snap_t bool) (snapshot_delta : SnapshotDelta)
    (read_ops : ReadOps) (key : WriteReadSnapIds) (read_op : ReadOp) :
  compute_read_ops req may_exist snapshot_delta = Some read_ops ->
  In (key, read_op) read_ops ->
  image_interval read_op <> [] /\
  snd (fst (issue_read req env key read_op))
  = [EvRead (snd key) (image_interval read_op)
            (negb (snd key =? snap_id (m_src_image_ctx req)))].
Proof.
  intros Hplan Hin.
  assert (Hall : Forall (fun e => image_interval (snd e) <> []) read_ops).
  { revert Hplan.
    apply (compute_read_ops_invariant
             (fun ops => Forall (fun e => image_interval (snd e) <> []) ops));
      [constructor|].
    intros k off len ops. apply nonempty_read_op_union_insert. }
  rewrite Forall_forall in Hall. specialize (Hall _ Hin). simpl in Hall.
  split; [exact Hall|]. unfold issue_read.
  destruct (image_interval read_op); [contradiction|]. reflexivity.
Qed.

(** the plan for data before snapshots 10 and 20 *)
Lemma planned_reads_nonempty_witness :
  image_interval {| image_interval := [(0, 8)]; image_extent_map := [];
                    out_bl := [] |} <> [] /\
  snd (fst (issue_read ex_req (ex_env []) (10, 10)
              {| image_interval := [(0, 8)]; image_extent_map := [];
                 out_bl := [] |}))
  = [EvRead 10 [(0, 8)] (negb (10 =? snap_id (m_src_image_ctx ex_req)))].
Proof.
  apply (planned_reads_nonempty ex_req (ex_env []) ex_may_exist
           ex_delta_two_reads
           [((10, 10), {| image_interval := [(0, 8)];
                          image_extent_map := []; out_bl := [] |});
            ((20, 20), {| image_interval := [(0, 4)];
                          image_extent_map := []; out_bl := [] |})]).
  - reflexivity.
  - left; reflexivity.
Defined.

(** X4. Every key of the read plan has a DATA extent under a key of the delta
    that is read, or it is the key (first, first) of the parent read, which
    is planned only for a copy from snapshot 0 of an image with a parent
    whose initial key has a DNE extent. *)
Theorem planned_keys_provenance (req : Request)
    (may_exist : omap snap_t bool) (snapshot_delta : SnapshotDelta)
    (read_ops : ReadOps) (key : WriteReadSnapIds) :
  compute_read_ops req may_exist snapshot_delta = Some read_ops ->
  In key (keys read_ops) ->
  has_data req may_exist snapshot_delta key \/
  (read_from_parent req = true /\ has_initial_dne snapshot_delta /\
   exists first ids rest,
     m_snap_map req = (first, ids) :: rest /\ key = (first, first)).
Proof.
  unfold compute_read_ops. intros Hrun.
  apply bind_some in Hrun as (st & Hloop & Hparent).
  set (I := fun s : ReadPlan =>
              (forall k, In k (keys (rp_read_ops s)) ->
                         has_data req may_exist snapshot_delta k) /\
              (rp_dne_image_interval s <> [] ->
               read_from_parent req = true /\
               has_initial_dne snapshot_delta)).
  assert (Hst : I st).
  { revert Hloop. apply (foreach_invariant I);
      [|split; [intros k [] | intros Hc; contradiction Hc; reflexivity]].
    intros s [k0 extents] s' Hentry Hs.
    unfold read_ops_for_key; cbn [fst snd].
    assert (Hinner : key_is_read req may_exist k0 ->
                     foreach (classify_extent req k0) extents s = Some s' ->
                     I s').
    { intros Hread. apply (foreach_invariant I); [|exact Hs].
      intros s0 e s0' He [Hk Hd]. unfold classify_extent.
      destruct (get_state e) eqn:Estate.
      - destruct (key_eqb k0 INITIAL_WRITE_READ_SNAP_IDS) eqn:Ekey; simpl;
          [|discriminate].
        apply key_eqb_eq in Ekey; subst k0.
        destruct (read_from_parent req) eqn:Hfrom;
          intros [= <-]; [|split; assumption].
        split; [exact Hk|]. intros _. split; [reflexivity|].
        exists extents, e. auto.
      - intros [= <-]; split; assumption.
      - intros [= <-]; simpl. split; [|exact Hd]. intros k Hin.
        apply in_keys_read_op_union_insert in Hin as [->|Hin]; [|auto].
        exists extents, e. auto. }
    destruct (key_eqb k0 INITIAL_WRITE_READ_SNAP_IDS) eqn:E; cbn [negb].
    - apply key_eqb_eq in E. apply Hinner; left; exact E.
    - destruct (dst_may_exist (m_snap_map req) may_exist (fst k0))
        as [[]|] eqn:Hexists; cbn [bind negb];
        [apply Hinner; right; exact Hexists
        | intros [= <-]; exact Hs | discriminate]. }
  destruct Hst as [Hk Hd]. revert Hparent. unfold parent_read_ops.
  assert (Hcase : rp_dne_image_interval st = [] \/
                  (read_from_parent req = true /\
                   has_initial_dne snapshot_delta)).
  { destruct (rp_dne_image_interval st);
      [left; reflexivity | right; apply Hd; discriminate]. }
  destruct Hcase as [Hnil|[Hfrom Hdne]];
    [rewrite Hnil; simpl; intros [= <-] Hin; left; apply Hk; exact Hin|].
  destruct (_ && _); [|intros [= <-] Hin; left; apply Hk; exact Hin].
  destruct (m_snap_map req) as [|[first ids] rest]; [discriminate|].
  destruct (get_parent_overlap _ _) as [overlap|];
    intros [= <-]; [|intros Hin; left; apply Hk; exact Hin].
  revert key.
  apply (fold_left_invariant
           (fun ops => forall key, In key (keys ops) ->
              has_data req may_exist snapshot_delta key \/
              (read_from_parent req = true /\
               has_initial_dne snapshot_delta /\
               exists first0 ids0 rest0,
                 (first, ids) :: rest = (first0, ids0) :: rest0 /\
                 key = (first0, first0))));
    [|intros key Hin; left; apply Hk; exact Hin].
  intros ops e _ Hops key Hin. unfold parent_read_op in Hin.
  destruct (_ <=? _); [auto|].
  apply in_keys_read_op_union_insert in Hin as [->|Hin]; [|auto].
  right. split; [exact Hfrom|]. split; [exact Hdne|].
  exists first, ids, rest. auto.
Qed.

(** the key (10, 10) of the flatten plan is the parent key *)
Lemma planned_keys_provenance_witness :
  has_data (ex_req_parent true) ex_may_exist
    [(INITIAL_WRITE_READ_SNAP_IDS, [sparse 0 8 SNAPSHOT_EXTENT_STATE_DNE])]
    (10, 10) \/
  (read_from_parent (ex_req_parent true) = true /\
   has_initial_dne
     [(INITIAL_WRITE_READ_SNAP_IDS, [sparse 0 8 SNAPSHOT_EXTENT_STATE_DNE])] /\
   exists first ids rest,
     m_snap_map (ex_req_parent true) = (first, ids) :: rest /\
     (10, 10) = (first, first)).
Proof.
  apply (planned_keys_provenance (ex_req_parent true) ex_may_exist
           [(INITIAL_WRITE_READ_SNAP_IDS,
             [sparse 0 8 SNAPSHOT_EXTENT_STATE_DNE])]
           [((10, 10), {| image_interval := [(0, 6)];
                          image_extent_map := []; out_bl := [] |})]).
  - reflexivity.
  - left; reflexivity.
Defined.

(** X5. Without flatten, a delta whose extents under the keys that are read are
    all DNE plans no read at all: the object is left as it is. *)
Theorem only_dne_plans_no_read (req : Request) (may_exist : omap snap_t bool)
    (snapshot_delta : SnapshotDelta) :
  m_flatten req = false ->
  (forall key extents e,
      In (key, extents) snapshot_delta -> key_is_read req may_exist key ->
      In e extents -> get_state e = SNAPSHOT_EXTENT_STATE_DNE) ->
  compute_read_ops req may_exist snapshot_delta <> None ->
  compute_read_ops req may_exist snapshot_delta = Some [].
Proof.
  intros Hflatten Hdne Hsome.
  destruct (compute_read_ops req may_exist snapshot_delta) as [read_ops|]
    eqn:Hrun; [|contradiction Hsome; reflexivity].
  f_equal. unfold compute_read_ops in Hrun.
  apply bind_some in Hrun as (st & Hloop & Hparent).
  assert (Hst : rp_read_ops st = [] /\ rp_only_dne_extents st = true).
  { revert Hloop.
    apply (foreach_invariant
             (fun s => rp_read_ops s = [] /\ rp_only_dne_extents s = true));
      [|split; reflexivity].
    intros s [key extents] s' Hentry Hs.
    unfold read_ops_for_key; cbn [fst snd].
    assert (Hinner : key_is_read req may_exist key ->
                     foreach (classify_extent req key) extents s = Some s' ->
                     rp_read_ops s' = [] /\ rp_only_dne_extents s' = true).
    { intros Hread.
      apply (foreach_invariant
               (fun s => rp_read_ops s = [] /\ rp_only_dne_extents s = true));
        [|exact Hs].
      intros s0 e s0' He Hs0. unfold classify_extent.
      rewrite (Hdne key extents e Hentry Hread He).
      destruct (ceph_assert _); simpl; [|discriminate].
      destruct (read_from_parent req); intros [= <-]; exact Hs0. }
    destruct (key_eqb key INITIAL_WRITE_READ_SNAP_IDS) eqn:E; cbn [negb].
    - apply key_eqb_eq in E. apply Hinner; left; exact E.
    - destruct (dst_may_exist (m_snap_map req) may_exist (fst key))
        as [[]|] eqn:Hexists; cbn [bind negb];
        [apply Hinner; right; exact Hexists
        | intros [= <-]; exact Hs | discriminate]. }
  destruct Hst as [Hops Honly]. revert Hparent. unfold parent_read_ops.
  rewrite Honly, Hflatten, andb_false_r. intros [= <-]. exact Hops.
Qed.

(** a clone whose object does not exist, copied without flatten *)
Lemma only_dne_plans_no_read_witness :
  compute_read_ops (ex_req_parent false) ex_may_exist ex_delta_dne = Some [].
Proof.
  apply (only_dne_plans_no_read (ex_req_parent false) ex_may_exist
           ex_delta_dne).
  - reflexivity.
  - intros key extents e Hin _ He. unfold ex_delta_dne in Hin.
    destruct Hin as [Heq|[]]. injection Heq as <- <-.
    destruct He as [<-|[]]. reflexivity.
  - vm_compute. discriminate.
Defined.

Lemma foreach_none {A S : Type} (body : S -> A -> option S) (xs : list A)
    (x : A) :
  (forall s, body s x = None) -> In x xs ->
  forall s, foreach body xs s = None.
Proof.
  intros Hx. induction xs as [|y xs IH]; intros Hin s; [contradiction|].
  simpl. destruct Hin as [->|Hin].
  - rewrite Hx; reflexivity.
  - destruct (body s y); simpl; [apply IH; exact Hin | reflexivity].
Qed.

(** X6. The read planner gives up on a delta it cannot trust: a key other than
    (0, 0) whose write snapshot has no primary destination in the snap map
    or in the existence map, or a DNE extent under such a key when it is
    read, trips an assertion and the request aborts. *)
Theorem read_planner_aborts (req : Request) (may_exist : omap snap_t bool)
    (snapshot_delta : SnapshotDelta) (key : WriteReadSnapIds)
    (extents : list SparseExtent) :
  In (key, extents) snapshot_delta ->
  key <> INITIAL_WRITE_READ_SNAP_IDS ->
  dst_may_exist (m_snap_map req) may_exist (fst key) = None \/
  (dst_may_exist (m_snap_map req) may_exist (fst key) = Some true /\
   exists e, In e extents /\ get_state e = SNAPSHOT_EXTENT_STATE_DNE) ->
  compute_read_ops req may_exist snapshot_delta = None.
Proof.
  intros Hin Hkey Hwhy. unfold compute_read_ops.
  rewrite (foreach_none (read_ops_for_key req may_exist) snapshot_delta
             (key, extents)); [reflexivity | | exact Hin].
  intros s. unfold read_ops_for_key; cbn [fst snd].
  rewrite (key_eqb_neq _ _ Hkey); cbn [negb].
  destruct Hwhy as [-> | [-> (e & He & Hstate)]]; [reflexivity|].
  cbn [bind negb].
  apply (foreach_none (classify_extent req key) extents e); [|exact He].
  intros s0. unfold classify_extent. rewrite Hstate.
  rewrite (key_eqb_neq _ _ Hkey). reflexivity.
Qed.

(** a DNE run under the key (10, 10) *)
Lemma read_planner_aborts_witness :
  compute_read_ops ex_req ex_may_exist ex_delta_bad_dne = None.
Proof.
  apply (read_planner_aborts ex_req ex_may_exist ex_delta_bad_dne (10, 10)
           [sparse 0 4 SNAPSHOT_EXTENT_STATE_DATA;
            sparse 4 4 SNAPSHOT_EXTENT_STATE_DNE]).
  - left; reflexivity.
  - discriminate.
  - right. split; [reflexivity|].
    exists (sparse 4 4 SNAPSHOT_EXTENT_STATE_DNE).
    split; [right; left; reflexivity | reflexivity].
Defined.

(** ** The read phase: a failing read *)

Lemma send_read_app (req : Request) (env : Env)
    (done : ReadOps -> list Event -> Outcome)
    (first second : list WriteReadSnapIds) :
  forall (read_ops : ReadOps) (trace : list Event),
    send_read req env done (first ++ second) read_ops trace
    = send_read req env (send_read req env done second) first read_ops trace.
Proof.
  induction first as [|index rest IH]; intros read_ops trace; simpl;
    [reflexivity|].
  unfold handle_read. destruct (_ <? 0); [reflexivity | apply IH].
Qed.

Lemma Forall2_same_request_find (a b : ReadOps) (key : WriteReadSnapIds)
    (ro : ReadOp) :
  Forall2 same_request a b -> NoDup (keys a) -> In (key, ro) a ->
  exists ro', find key b = Some ro' /\
              image_interval ro' = image_interval ro.
Proof.
  induction 1 as [|[k0 r0] [k1 r1] a b [Hk Hi] _ IH]; intros Hnd Hin;
    [contradiction|].
  simpl in Hk, Hi. subst k1. inversion Hnd as [|? ? Hnotin Hnd']; subst.
  cbn [find].
  destruct Hin as [Heq|Hin].
  - injection Heq as <- <-. rewrite key_eqb_refl. eauto.
  - assert (Hne : key <> k0).
    { intros ->. apply Hnotin. apply (in_map fst) in Hin. exact Hin. }
    rewrite (key_eqb_neq _ _ Hne). apply IH; assumption.
Qed.

(** X7. A read that completes with a negative result ends the request with that
    result: the keys before it have been read and reported to the handler,
    the failing read is the last thing the request does, and neither the
    handler nor the planning and write phases are entered after it. *)
Theorem read_failure_is_fatal (req : Request) (env : Env)
    (done : ReadOps -> list Event -> Outcome)
    (before after : ReadOps) (key : WriteReadSnapIds) (read_op : ReadOp) :
  m_handler req = true ->
  fresh_read_ops (before ++ (key, read_op) :: after) ->
  reads_succeed env before ->
  fst (fst (env_read env (snd key) (image_interval read_op))) < 0 ->
  image_interval read_op <> [] ->
  send_read req env done
            (read_snaps_of (before ++ (key, read_op) :: after))
            (before ++ (key, read_op) :: after) []
  = Some (flat_map (read_phase_events req env) before ++
          [EvRead (snd key) (image_interval read_op)
                  (negb (snd key =? snap_id (m_src_image_ctx req)))],
          fst (fst (env_read env (snd key) (image_interval read_op)))).
Proof.
  intros Hhandler [Hsorted Hfresh] Hok Hneg Hnonempty.
  pose proof (sorted_keys_nodup _ Hsorted) as Hnd.
  assert (Hkeys : keys (before ++ (key, read_op) :: after)
                  = keys before ++ key :: keys after)
    by (unfold keys; rewrite map_app; reflexivity).
  assert (Hndb : NoDup (keys before)).
  { rewrite Hkeys in Hnd. apply NoDup_app_remove_r in Hnd. exact Hnd. }
  unfold read_snaps_of. rewrite Hkeys, send_read_app.
  destruct (send_read_events req env
              (send_read req env done (key :: keys after))
              before Hhandler Hndb) with
      (read_ops := before ++ (key, read_op) :: after) (trace := @nil Event)
    as (read_ops' & Hrun & Hsame).
  - apply Forall_app in Hfresh as [Hb _].
    apply Forall_impl with (2 := Hb). tauto.
  - exact Hok.
  - exact Hsorted.
  - intros k ro Hin. apply in_find_nodup; [exact Hnd|].
    apply in_or_app; left; exact Hin.
  - rewrite Hrun.
    destruct (Forall2_same_request_find _ _ key read_op Hsame Hnd)
      as (ro' & Hfind & Hiv);
      [apply in_or_app; right; left; reflexivity|].
    cbn [send_read]. unfold find_or. rewrite Hfind.
    unfold issue_read. rewrite Hiv.
    destruct (image_interval read_op) as [|r0 rest] eqn:Eiv;
      [contradiction|].
    cbn [iset_empty is_empty fst snd]. unfold handle_read.
    destruct (Z.ltb_spec (fst (fst (env_read env (snd key) (r0 :: rest)))) 0)
      as [_|Hge]; [|lia].
    reflexivity.
Qed.

(** two planned keys, every read fails: the first read ends the request *)
Lemma read_failure_is_fatal_witness :
  send_read ex_req (ex_env_read_fails []) ex_done
            (read_snaps_of
               ([] ++ ((10, 10), {| image_interval := [(0, 8)];
                                    image_extent_map := []; out_bl := [] |})
                   :: [((20, 20), {| image_interval := [(0, 4)];
                                     image_extent_map := [];
                                     out_bl := [] |})]))
            ([] ++ ((10, 10), {| image_interval := [(0, 8)];
                                 image_extent_map := []; out_bl := [] |})
                :: [((20, 20), {| image_interval := [(0, 4)];
                                  image_extent_map := []; out_bl := [] |})])
            []
  = Some (flat_map (read_phase_events ex_req (ex_env_read_fails [])) [] ++
          [EvRead 10 [(0, 8)] (negb (10 =? snap_id (m_src_image_ctx ex_req)))],
          fst (fst (env_read (ex_env_read_fails []) 10 [(0, 8)]))).
Proof.
  apply (read_failure_is_fatal ex_req (ex_env_read_fails []) ex_done []
           [((20, 20), {| image_interval := [(0, 4)];
                          image_extent_map := []; out_bl := [] |})]
           (10, 10) {| image_interval := [(0, 8)]; image_extent_map := [];
                       out_bl := [] |}).
  - reflexivity.
  - split; repeat constructor.
  - constructor.
  - simpl. lia.
  - discriminate.
Defined.

(** ** merge_write_ops: payloads and sparse-read zeroes *)

Lemma firstn_plus {A : Type} (n m : nat) (l : list A) :
  firstn n l ++ firstn m (skipn n l) = firstn (n + m) l.
Proof.
  revert l. induction n as [|n IH]; intros l; [reflexivity|].
  destruct l as [|a l]; simpl.
  - rewrite firstn_nil; reflexivity.
  - rewrite IH; reflexivity.
Qed.

Lemma substr_of_some (bl tmp : bufferlist) (off len : Z) :
  0 <= off <= Z.of_nat (length bl) ->
  0 <= len < u32_mod ->
  Z.of_nat (length bl) < u32_mod ->
  substr_of bl off len = Some tmp ->
  off + len <= Z.of_nat (length bl) /\
  tmp = firstn (Z.to_nat len) (skipn (Z.to_nat off) bl).
Proof.
  intros Hoff Hlen Hbl. unfold substr_of.
  rewrite (Z.mod_small off) by lia. rewrite (Z.mod_small len) by lia.
  destruct (_ <? _); [discriminate|].
  destruct (Z.leb_spec (off + len) (Z.of_nat (length bl))); [|discriminate].
  intros [= <-]. auto.
Qed.

(** the ops that a list of object extents appends to the batch of [S],
    cut from [bl] at the running buffer offset *)
Lemma write_object_extents_ops (S : snap_t) (bl : bufferlist)
    (oes : list ObjectExtent) :
  Z.of_nat (length bl) < u32_mod ->
  Forall (fun oe => 0 <= oe_length oe < u32_mod) oes ->
  forall acc acc',
    0 <= snd acc <= Z.of_nat (length bl) ->
    foreach (write_object_extent S bl) oes acc = Some acc' ->
    exists new_ops,
      find_or [] S (fst acc') = find_or [] S (fst acc) ++ new_ops /\
      (forall S', S' <> S -> find S' (fst acc') = find S' (fst acc)) /\
      map (fun op => (object_offset op, object_length op)) new_ops
      = map (fun oe => (oe_offset oe, oe_length oe)) oes /\
      Forall write_op_well_formed new_ops /\
      firstn (Z.to_nat (snd acc)) bl ++ payload new_ops
      = firstn (Z.to_nat (snd acc')) bl /\
      snd acc' = advance_buffer oes (snd acc) /\
      0 <= snd acc' <= Z.of_nat (length bl).
Proof.
  intros Hbl. induction 1 as [|oe oes Hoe _ IH]; intros acc acc' Hoff.
  - simpl. intros [= <-]. exists []. unfold payload. simpl.
    rewrite !app_nil_r. split_conj; auto; lia.
  - simpl. intros Hrun. apply bind_some in Hrun as (a1 & Hstep & Hrest).
    unfold write_object_extent in Hstep.
    apply bind_some in Hstep as (tmp & Htmp & Ha1). injection Ha1 as <-.
    destruct (substr_of_some _ _ _ _ Hoff Hoe Hbl Htmp) as [Hfit ->].
    assert (Hadd : add64 (snd acc) (oe_length oe)
                   = snd acc + oe_length oe).
    { apply add64_small. unfold u64_mod, u32_mod in *. lia. }
    apply IH in Hrest; cbn [fst snd]; [|rewrite Hadd; lia].
    destruct Hrest as (new & Hfind & Hother & Hmap & Hwf & Hpay & Hadv & Hr).
    cbn [fst snd] in *.
    exists ({| wo_type := WRITE_OP_TYPE_WRITE;
               object_offset := oe_offset oe;
               object_length := oe_length oe;
               wo_bl := firstn (Z.to_nat (oe_length oe))
                               (skipn (Z.to_nat (snd acc)) bl) |} :: new).
    split_conj.
    + rewrite Hfind, find_or_emplace_back, <- app_assoc. reflexivity.
    + intros S' Hne. rewrite (Hother S' Hne).
      apply find_emplace_back_other. exact Hne.
    + simpl. rewrite Hmap. reflexivity.
    + constructor; [|exact Hwf]. split; [reflexivity|].
      cbn [wo_bl object_length].
      rewrite firstn_length_le; [lia|]. rewrite length_skipn. lia.
    + rewrite <- Hpay. unfold payload. simpl. rewrite app_assoc. f_equal.
      rewrite firstn_plus, Hadd. f_equal. lia.
    + exact Hadv.
    + apply Hr.
    + apply Hr.
Qed.

(** X8. The WRITE ops that one read op adds to the batch of its write
    snapshot are appended after the ops already there: one op per object
    extent that the Striper yields for the extents the read returned, in
    that order and with the offset and length of the extent.  When the
    lengths and the buffer fit 32 bits, each op carries exactly
    [object_length] bytes and the payloads, one after the other, are a
    prefix of the buffer the read returned: the running buffer offset keeps
    the slices aligned.  No other batch changes. *)
Theorem write_payloads_are_buffer_prefix (striper : Striper) (p p' : Plan)
    (key : WriteReadSnapIds) (read_op : ReadOp) :
  (forall e b oe,
      In e (image_extent_map read_op) ->
      In oe (file_to_extents striper (fst e) (snd e) b) ->
      0 <= oe_length oe < u32_mod) ->
  Z.of_nat (length (out_bl read_op)) < u32_mod ->
  merge_read_op striper p (key, read_op) = Some p' ->
  exists new_ops,
    find_or [] (fst key) (m_write_ops p')
    = find_or [] (fst key) (m_write_ops p) ++ new_ops /\
    map (fun op => (object_offset op, object_length op)) new_ops
    = map (fun oe => (oe_offset oe, oe_length oe))
          (object_extents_of striper (image_extent_map read_op) 0) /\
    Forall write_op_well_formed new_ops /\
    (exists rest, out_bl read_op = payload new_ops ++ rest) /\
    forall S, S <> fst key ->
              find S (m_write_ops p') = find S (m_write_ops p).
Proof.
  intros Hlen Hsmall Hrun. unfold merge_read_op in Hrun.
  cbn [fst snd] in Hrun. apply bind_some in Hrun as (w & Hw & Hp').
  injection Hp' as <-. cbn [m_write_ops].
  set (S := fst key) in *. set (bl := out_bl read_op) in *.
  assert (Hgen : forall extent_map acc acc',
             (forall e, In e extent_map -> In e (image_extent_map read_op)) ->
             0 <= snd acc <= Z.of_nat (length bl) ->
             foreach (write_image_extent striper S bl) extent_map acc
               = Some acc' ->
             exists new_ops,
               find_or [] S (fst acc') = find_or [] S (fst acc) ++ new_ops /\
               (forall S', S' <> S ->
                           find S' (fst acc') = find S' (fst acc)) /\
               map (fun op => (object_offset op, object_length op)) new_ops
               = map (fun oe => (oe_offset oe, oe_length oe))
                     (object_extents_of striper extent_map (snd acc)) /\
               Forall write_op_well_formed new_ops /\
               firstn (Z.to_nat (snd acc)) bl ++ payload new_ops
               = firstn (Z.to_nat (snd acc')) bl).
  { induction extent_map as [|e rest IH]; intros acc acc' Hsub Hoff.
    - simpl. intros [= <-]. exists []. unfold payload. simpl.
      rewrite !app_nil_r. split_conj; auto.
    - simpl. intros Hloop.
      apply bind_some in Hloop as (a1 & Hstep & Hrest).
      unfold write_image_extent in Hstep.
      apply (write_object_extents_ops S bl _ Hsmall) in Hstep;
        [|apply Forall_forall; intros oe Hoe;
          apply (Hlen e (snd acc) oe); [apply Hsub; left; reflexivity
                                        | exact Hoe]
         |exact Hoff].
      destruct Hstep as (n1 & Hf1 & Ho1 & Hm1 & Hw1 & Hp1 & Hadv & Hr1).
      apply IH in Hrest; [|intros e' He'; apply Hsub; right; exact He'
                          |exact Hr1].
      destruct Hrest as (n2 & Hf2 & Ho2 & Hm2 & Hw2 & Hp2).
      exists (n1 ++ n2). split_conj.
      + rewrite Hf2, Hf1, <- app_assoc. reflexivity.
      + intros S' Hne. rewrite (Ho2 S' Hne). apply Ho1. exact Hne.
      + rewrite !map_app, Hm1, Hm2, <- Hadv. reflexivity.
      + apply Forall_app. split; assumption.
      + rewrite <- Hp2, <- Hp1. unfold payload.
        rewrite map_app, concat_app, app_assoc. reflexivity. }
  destruct (Hgen (image_extent_map read_op) (m_write_ops p, 0) w)
    as (new_ops & Hfind & Hother & Hmap & Hwf & Hpay);
    [auto | cbn [snd]; lia | exact Hw |].
  cbn [fst snd] in *. exists new_ops. split_conj; auto.
  exists (skipn (Z.to_nat (snd w)) bl). simpl in Hpay. rewrite Hpay.
  symmetry. apply firstn_skipn.
Qed.

(** a read that returned two runs: two WRITE ops of 2 and 3 bytes, at the
    object offsets 0 and 4 of the runs, cut from the start of the five bytes
    returned *)
Lemma write_payloads_are_buffer_prefix_witness :
  exists p',
    merge_read_op ex_striper Plan_init ((10, 10), ex_read_op_two_runs)
      = Some p' /\
    exists new_ops,
      find_or [] 10 (m_write_ops p')
      = find_or [] 10 (m_write_ops Plan_init) ++ new_ops /\
      map (fun op => (object_offset op, object_length op)) new_ops
      = [(0, 2); (4, 3)] /\
      Forall write_op_well_formed new_ops /\
      (exists rest, out_bl ex_read_op_two_runs = payload new_ops ++ rest) /\
      forall S, S <> 10 ->
                find S (m_write_ops p') = find S (m_write_ops Plan_init).
Proof.
  eexists. split; [vm_compute; reflexivity|].
  apply (write_payloads_are_buffer_prefix ex_striper Plan_init _ (10, 10)
           ex_read_op_two_runs).
  - intros e b oe He [<-|[]]. simpl.
    destruct He as [<-|[<-|[]]]; simpl; unfold u32_mod; lia.
  - vm_compute. reflexivity.
  - vm_compute. reflexivity.
Defined.

Lemma covers_erase (off len : Z) (s : interval_set) (x : Z) :
  covers (erase off len s) x <-> covers s x /\ ~ in_extent x (off, len).
Proof.
  induction s as [|[o l] rest IH]; simpl.
  - split; [intros H; destruct (covers_nil _ H)
           | intros [H _]; destruct (covers_nil _ H)].
  - rewrite !covers_app, IH, covers_cons.
    assert (Hleft :
              covers (if o <? Z.min (o + l) off
                      then [(o, Z.min (o + l) off - o)] else []) x <->
              in_extent x (o, l) /\ x < off).
    { destruct (Z.ltb_spec o (Z.min (o + l) off)) as [Hlt|Hge].
      - rewrite covers_cons. unfold in_extent; simpl.
        split; [intros [H|H]; [lia | destruct (covers_nil _ H)] | lia].
      - split; [intros H; destruct (covers_nil _ H)
               | unfold in_extent; simpl; lia]. }
    assert (Hright :
              covers (if Z.max o (off + len) <? o + l
                      then [(Z.max o (off + len),
                             o + l - Z.max o (off + len))] else []) x <->
              in_extent x (o, l) /\ off + len <= x).
    { destruct (Z.ltb_spec (Z.max o (off + len)) (o + l)) as [Hlt|Hge].
      - rewrite covers_cons. unfold in_extent; simpl.
        split; [intros [H|H]; [lia | destruct (covers_nil _ H)] | lia].
      - split; [intros H; destruct (covers_nil _ H)
               | unfold in_extent; simpl; lia]. }
    rewrite Hleft, Hright. unfold in_extent; simpl.
    split.
    + intros [[H1 H2]|[[H1 H2]|[H1 H2]]].
      * split; [left; exact H1 | lia].
      * split; [left; exact H1 | lia].
      * split; [right; exact H1 | exact H2].
    + intros [[H1|H1] H2].
      * destruct (Z.lt_ge_cases x off); [left; auto|].
        right; left. split; [exact H1 | lia].
      * right; right. auto.
Qed.

Lemma covers_subtract (a b : interval_set) (x : Z) :
  covers (subtract a b) x <-> covers a x /\ ~ covers b x.
Proof.
  unfold subtract. revert a.
  induction b as [|[o l] rest IH]; intros a; simpl.
  - split; [intros H; split; [exact H | apply covers_nil] | tauto].
  - rewrite IH, covers_erase, covers_cons. simpl. tauto.
Qed.

Lemma covers_clip (off len : Z) (s : interval_set) (x : Z) :
  covers (clip off len s) x <-> covers s x /\ in_extent x (off, len).
Proof.
  induction s as [|[o l] rest IH]; simpl.
  - split; [intros H; destruct (covers_nil _ H)
           | intros [H _]; destruct (covers_nil _ H)].
  - rewrite covers_app, IH, covers_cons.
    assert (Hhead :
              covers (if Z.max off o <? Z.min (off + len) (o + l)
                      then [(Z.max off o,
                             Z.min (off + len) (o + l) - Z.max off o)]
                      else []) x <->
              in_extent x (o, l) /\ in_extent x (off, len)).
    { destruct (Z.ltb_spec (Z.max off o) (Z.min (off + len) (o + l)))
        as [Hlt|Hge].
      - rewrite covers_cons. unfold in_extent; simpl.
        split; [intros [H|H]; [lia | destruct (covers_nil _ H)] | lia].
      - split; [intros H; destruct (covers_nil _ H)
               | unfold in_extent; simpl; lia]. }
    rewrite Hhead. tauto.
Qed.

Lemma covers_intersection_of (a b : interval_set) (x : Z) :
  covers (intersection_of a b) x <-> covers a x /\ covers b x.
Proof.
  unfold intersection_of. induction a as [|[o l] rest IH]; simpl.
  - split; [intros H; destruct (covers_nil _ H)
           | intros [H _]; destruct (covers_nil _ H)].
  - rewrite covers_app, IH, covers_clip, covers_cons. simpl. tauto.
Qed.

(** requested minus returned: the bytes of [a] that [b] does not cover *)
Lemma covers_difference (a b : interval_set) (x : Z) :
  covers (subtract a (intersection_of a b)) x <->
  covers a x /\ ~ covers b x.
Proof.
  rewrite covers_subtract, covers_intersection_of. tauto.
Qed.

Lemma covers_fold_union_insert (l : list (Z * Z)) (s : interval_set)
    (x : Z) :
  covers (fold_left (fun s0 e => union_insert (fst e) (snd e) s0) l s) x
  <-> covers s x \/ covers l x.
Proof.
  revert s. induction l as [|[o n] rest IH]; intros s; simpl.
  - split; [auto | intros [H|H]; [exact H | destruct (covers_nil _ H)]].
  - rewrite IH, covers_union_insert, covers_cons. simpl. tauto.
Qed.

Lemma covers_fold_zero_union_insert (S : snap_t) (l : list (Z * Z))
    (m : omap snap_t interval_set) (x : Z) :
  covers (find_or []
            S (fold_left
                 (fun m0 e =>
                    upd S (union_insert (fst e) (snd e) (find_or [] S m0)) m0)
                 l m)) x
  <-> covers (find_or [] S m) x \/ covers l x.
Proof.
  revert m. induction l as [|[o n] rest IH]; intros m; simpl.
  - split; [auto | intros [H|H]; [exact H | destruct (covers_nil _ H)]].
  - rewrite IH. unfold find_or at 1. rewrite find_upd_same.
    rewrite covers_union_insert, covers_cons. simpl. tauto.
Qed.

(** X9. For the write snapshot of a read op, the data interval grows by the
    extents the read returned, and the zero interval grows by the bytes that
    were requested but are not data: what a sparse read leaves out is
    zeroed. *)
Theorem sparse_read_zeroes (striper : Striper) (p p' : Plan)
    (key : WriteReadSnapIds) (read_op : ReadOp) (x : Z) :
  merge_read_op striper p (key, read_op) = Some p' ->
  (covers (find_or [] (fst key) (m_dst_data_interval p')) x <->
   covers (find_or [] (fst key) (m_dst_data_interval p)) x \/
   covers (image_extent_map read_op) x) /\
  (covers (find_or [] (fst key) (m_dst_zero_interval p')) x <->
   covers (find_or [] (fst key) (m_dst_zero_interval p)) x \/
   (covers (image_interval read_op) x /\
    ~ covers (find_or [] (fst key) (m_dst_data_interval p')) x)).
Proof.
  unfold merge_read_op; cbn [fst snd]. intros Hrun.
  apply bind_some in Hrun as (w & _ & Hp'). injection Hp' as <-.
  cbn [m_dst_data_interval m_dst_zero_interval].
  assert (Hsame : forall (v : interval_set) (m : omap snap_t interval_set),
             find_or [] (fst key) (upd (fst key) v m) = v)
    by (intros v m; unfold find_or; rewrite find_upd_same; reflexivity).
  rewrite !Hsame.
  rewrite covers_fold_zero_union_insert, covers_difference.
  rewrite covers_fold_union_insert. tauto.
Qed.

(** bytes 2..3 and 7 of the read of 0..7 were not returned: they are zero *)
Lemma sparse_read_zeroes_witness :
  exists p',
    merge_read_op ex_striper Plan_init ((10, 10), ex_read_op_two_runs)
      = Some p' /\
    (covers (find_or [] 10 (m_dst_data_interval p')) 7 <->
     covers (find_or [] 10 (m_dst_data_interval Plan_init)) 7 \/
     covers (image_extent_map ex_read_op_two_runs) 7) /\
    (covers (find_or [] 10 (m_dst_zero_interval p')) 7 <->
     covers (find_or [] 10 (m_dst_zero_interval Plan_init)) 7 \/
     (covers (image_interval ex_read_op_two_runs) 7 /\
      ~ covers (find_or [] 10 (m_dst_data_interval p')) 7)).
Proof.
  eexists. split; [vm_compute; reflexivity|].
  apply (sparse_read_zeroes ex_striper Plan_init _ (10, 10)
           ex_read_op_two_runs 7).
  vm_compute. reflexivity.
Defined.

(** ** compute_zero_ops: where the zeroed extents of the delta go *)

Lemma covers_zero_union_insert (S s : snap_t) (off len : Z)
    (m : omap snap_t interval_set) (x : Z) :
  covers (find_or [] S (zero_union_insert s off len m)) x <->
  (S = s /\ in_extent x (off, len)) \/ covers (find_or [] S m) x.
Proof.
  unfold zero_union_insert, find_or.
  destruct (Z.eq_dec S s) as [->|Hne].
  - rewrite find_upd_same, covers_union_insert. tauto.
  - rewrite (find_upd_other _ _ _ _ Hne). tauto.
Qed.

(** X10. The zeroed extents of the delta are collected per write snapshot: an
    extent under a key other than (0, 0) goes to the write snapshot of its
    key, whether or not the destination may exist there; an extent under
    (0, 0) goes to the first snapshot of the snap map when hide-parent is on
    and is dropped otherwise. *)
Theorem zeroed_extents_attribution (hide_parent : bool) (first : snap_t)
    (snapshot_delta : SnapshotDelta) (m : omap snap_t interval_set)
    (S : snap_t) (x : Z) :
  covers (find_or [] S (collect_zeroed hide_parent first snapshot_delta m)) x
  <-> covers (find_or [] S m) x \/
      (exists key, key <> (0, 0) /\ fst key = S /\
                   zeroed_under snapshot_delta key x) \/
      (hide_parent = true /\ S = first /\
       zeroed_under snapshot_delta (0, 0) x).
Proof.
  unfold collect_zeroed. revert m.
  induction snapshot_delta as [|[key extents] rest IH]; intros m; simpl.
  - split; [auto|].
    intros [H|[(k & _ & _ & ex & [] & _)|(_ & _ & ex & [] & _)]]; exact H.
  - rewrite IH. clear IH.
    assert (Hinner :
              forall m0,
                covers (find_or [] S
                          (fold_left
                             (collect_zeroed_extent hide_parent first key)
                             extents m0)) x <->
                covers (find_or [] S m0) x \/
                (state_byte SNAPSHOT_EXTENT_STATE_ZEROED extents x /\
                 ((key <> (0, 0) /\ fst key = S) \/
                  (key = (0, 0) /\ hide_parent = true /\ S = first)))).
    { induction extents as [|e ex IHe]; intros m0; simpl.
      - split; [auto|]. intros [H|[(e & [] & _) _]]; exact H.
      - rewrite IHe. clear IHe.
        assert (Hcons :
                  state_byte SNAPSHOT_EXTENT_STATE_ZEROED (e :: ex) x <->
                  (get_state e = SNAPSHOT_EXTENT_STATE_ZEROED /\
                   in_extent x (get_off e, get_len e)) \/
                  state_byte SNAPSHOT_EXTENT_STATE_ZEROED ex x).
        { unfold state_byte; simpl. split.
          - intros (e' & [<-|Hin] & Hst & Hx); eauto.
          - intros [[Hst Hx]|(e' & Hin & Hst & Hx)]; eauto. }
        rewrite Hcons. unfold collect_zeroed_extent.
        destruct (get_state e) eqn:Estate.
        + intuition discriminate.
        + destruct (key_eqb key (0, 0)) eqn:Ekey; cbn [negb].
          * apply key_eqb_eq in Ekey.
            destruct hide_parent.
            -- rewrite covers_zero_union_insert.
               intuition (auto; try congruence).
            -- intuition (auto; try congruence).
          * assert (Hne : key <> (0, 0))
              by (intros ->; rewrite key_eqb_refl in Ekey; discriminate).
            rewrite covers_zero_union_insert.
            intuition (auto; try congruence).
        + intuition discriminate. }
    rewrite Hinner.
    assert (Hzc : forall k,
               zeroed_under ((key, extents) :: rest) k x <->
               (k = key /\
                state_byte SNAPSHOT_EXTENT_STATE_ZEROED extents x) \/
               zeroed_under rest k x).
    { intros k. unfold zeroed_under; simpl. split.
      - intros (ex & [Heq|Hin] & Hs).
        + injection Heq as <- <-. auto.
        + right; eauto.
      - intros [[-> Hs]|(ex & Hin & Hs)]; eauto. }
    split.
    + intros [[H|[Hs [[Hne Hk]|(Hkey & Hhp & Hf)]]]
             |[(k & Hne & Hk & Hz)|(Hhp & Hf & Hz)]].
      * left; exact H.
      * right; left. exists key. split; [exact Hne|].
        split; [exact Hk|]. apply Hzc. left; auto.
      * right; right. split; [exact Hhp|]. split; [exact Hf|].
        apply Hzc. left; auto.
      * right; left. exists k. split; [exact Hne|].
        split; [exact Hk|]. apply Hzc. right; exact Hz.
      * right; right. split; [exact Hhp|]. split; [exact Hf|].
        apply Hzc. right; exact Hz.
    + intros [H|[(k & Hne & Hk & Hz)|(Hhp & Hf & Hz)]].
      * left; left; exact H.
      * apply Hzc in Hz as [[-> Hs]|Hz].
        -- left; right. split; [exact Hs | left; auto].
        -- right; left. exists k. auto.
      * apply Hzc in Hz as [[Hkey Hs]|Hz].
        -- left; right. split; [exact Hs | right; auto].
        -- right; right. auto.
Qed.

(** ** Invariants of the plan *)

Lemma update_hide_parent_live (req : Request) (dst_snap_seq : snap_t)
    (first hide_parent hide_parent' : bool) (prev_end_size prev' : Z) :
  update_hide_parent req dst_snap_seq first hide_parent prev_end_size
    = Some (hide_parent', prev') ->
  hide_parent' = true -> hide_parent = true.
Proof.
  unfold update_hide_parent. destruct hide_parent; [reflexivity|].
  intros [= <- _] Hc. discriminate.
Qed.

(** what holds of the write plan when it holds of the empty plan and is
    kept by every [emplace_back] of an op the planner can emit *)
Lemma plan_writes_invariant (P : omap snap_t WriteOps -> Prop)
    (A : WriteOp -> Prop) (req : Request) (may_exist : omap snap_t bool)
    (snapshot_delta : SnapshotDelta) (read_ops : ReadOps) (p : Plan) :
  P [] ->
  (forall s op wo, A op -> P wo -> P (emplace_back s op wo)) ->
  (forall off len bl,
      A {| wo_type := WRITE_OP_TYPE_WRITE; object_offset := off;
           object_length := len; wo_bl := bl |}) ->
  (forall off len, A (mkWriteOp WRITE_OP_TYPE_ZERO off len)) ->
  (forall off, A (mkWriteOp WRITE_OP_TYPE_TRUNC off 0)) ->
  A (mkWriteOp WRITE_OP_TYPE_REMOVE 0 0) ->
  (hide_parent_init req = true ->
   A (mkWriteOp WRITE_OP_TYPE_REMOVE_TRUNC 0 0)) ->
  plan_writes req may_exist snapshot_delta read_ops = Some p ->
  P (m_write_ops p).
Proof.
  intros Hnil Hpush Hwrite Hzero Htrunc Hremove Hrt Hrun.
  unfold plan_writes in Hrun.
  apply bind_some in Hrun as (merged & Hmerge & Hzero_ops).
  assert (Hmerged : P (m_write_ops merged)).
  { revert Hmerge. unfold merge_write_ops.
    apply (foreach_invariant (fun q => P (m_write_ops q))); [|exact Hnil].
    intros q [key ro] q' _ Hq. unfold merge_read_op; cbn [fst snd].
    intros Hstep. apply bind_some in Hstep as (w & Hw & Hq').
    injection Hq' as <-. cbn [m_write_ops]. revert Hw.
    apply (foreach_invariant (fun acc => P (fst acc))); [|exact Hq].
    intros acc e acc' _ Hacc. unfold write_image_extent.
    apply (foreach_invariant (fun acc => P (fst acc))); [|exact Hacc].
    intros a oe a' _ Ha. unfold write_object_extent.
    intros Hoe. apply bind_some in Hoe as (bl & _ & Ha').
    injection Ha' as <-. cbn [fst]. apply Hpush; [apply Hwrite | exact Ha]. }
  unfold compute_zero_ops in Hzero_ops.
  destruct (m_snap_map req) as [|[first ids] rest]; [discriminate|].
  apply bind_some in Hzero_ops as (st & Hloop & Hst). injection Hst as <-.
  assert (Hinv : P (m_write_ops (zs_plan st)) /\
                 (zs_hide_parent st = true -> hide_parent_init req = true)).
  { revert Hloop.
    apply (foreach_invariant
             (fun s => P (m_write_ops (zs_plan s)) /\
                       (zs_hide_parent s = true ->
                        hide_parent_init req = true)));
      [|cbn [zs_plan m_write_ops zs_hide_parent]; auto].
    intros s src s' _ [Hs Hlive]. unfold zero_ops_for_snap.
    destruct (front_of (m_snap_map req) src) as [d|]; cbn [bind];
      [|discriminate].
    destruct (find d may_exist) as [e|]; cbn [bind]; [|discriminate].
    destruct (negb e && _).
    - intros [= <-]; cbn [zs_plan m_write_ops zs_hide_parent].
      split; [apply Hpush; [exact Hremove | exact Hs] | exact Hlive].
    - destruct (update_hide_parent _ _ _ _ _) as [[hp prev]|] eqn:Hhp;
        cbn [bind]; [|discriminate].
      intros [= <-]; cbn [zs_plan m_write_ops zs_hide_parent fst snd].
      assert (Hhp_live : hp = true -> hide_parent_init req = true).
      { intros H. apply Hlive.
        apply (update_hide_parent_live _ _ _ _ _ _ _ Hhp H). }
      split; [|exact Hhp_live]. unfold zero_ops_of_interval.
      apply (fold_left_invariant (fun a => P (fst a))); [|exact Hs].
      intros a z _ Ha.
      apply (fold_left_invariant (fun a => P (fst a))); [|exact Ha].
      intros b oe _ Hb. unfold zero_object_extent.
      destruct (_ <=? _); cbn [fst].
      + destruct (oe_offset oe =? 0); cbn [andb].
        * destruct hp.
          -- apply Hpush; [apply Hrt; apply Hhp_live; reflexivity | exact Hb].
          -- destruct (_ <? _); [|exact Hb].
             apply Hpush; [exact Hremove | exact Hb].
        * destruct (_ <? _); [|exact Hb].
          apply Hpush; [apply Htrunc | exact Hb].
      + apply Hpush; [apply Hzero | exact Hb]. }
  apply Hinv.
Qed.

Lemma rados_ops_nonempty (ops : WriteOps) :
  ops <> [] -> flat_map rados_ops_of ops <> [].
Proof.
  destruct ops as [|op rest]; [intros H; contradiction H; reflexivity|].
  intros _. simpl. unfold rados_ops_of. destruct (wo_type op); discriminate.
Qed.

(** X11. Every batch of the write plan holds at least one op, so the executor
    never takes its shortcut for them ("nothing beyond the migration
    assertion"): each planned batch costs a round trip to the destination. *)
Theorem planned_batches_nonempty (req : Request)
    (may_exist : omap snap_t bool) (snapshot_delta : SnapshotDelta)
    (read_ops : ReadOps) (p : Plan) (S : snap_t) (ops : WriteOps)
    (dst_snap_seq : snap_t) :
  plan_writes req may_exist snapshot_delta read_ops = Some p ->
  In (S, ops) (m_write_ops p) ->
  ops <> [] /\
  Nat.eqb (length (build_op req dst_snap_seq ops))
          (if migration_info_empty (m_dst_image_ctx req)
           then 0%nat else 1%nat) = false.
Proof.
  intros Hrun Hin.
  assert (Hall : Forall (fun e => snd e <> []) (m_write_ops p)).
  { revert Hrun.
    apply (plan_writes_invariant
             (fun wo => Forall (fun e : snap_t * WriteOps => snd e <> []) wo)
             (fun _ => True)); auto.
    intros s op wo _ Hwo. unfold emplace_back.
    apply Forall_upd; [|exact Hwo]. simpl.
    destruct (find_or [] s wo); discriminate. }
  rewrite Forall_forall in Hall. specialize (Hall _ Hin). simpl in Hall.
  split; [exact Hall|].
  apply rados_ops_nonempty in Hall. unfold build_op.
  rewrite length_app.
  destruct (flat_map rados_ops_of ops) as [|r rest];
    [contradiction Hall; reflexivity|].
  apply Nat.eqb_neq.
  destruct (migration_info_empty (m_dst_image_ctx req)); simpl; lia.
Qed.

(** the batches for data before snapshots 10 and 20 *)
Lemma planned_batches_nonempty_witness :
  [{| wo_type := WRITE_OP_TYPE_WRITE; object_offset := 0;
      object_length := 8; wo_bl := repeat Byte.xaa 8 |}] <> [] /\
  Nat.eqb (length (build_op ex_req 0
                     [{| wo_type := WRITE_OP_TYPE_WRITE; object_offset := 0;
                         object_length := 8;
                         wo_bl := repeat Byte.xaa 8 |}]))
          (if migration_info_empty (m_dst_image_ctx ex_req)
           then 0%nat else 1%nat) = false.
Proof.
  eapply (planned_batches_nonempty ex_req ex_may_exist ex_delta_two_reads
            ex_read_ops_full _ 10).
  - vm_compute. reflexivity.
  - left. reflexivity.
Defined.

(** X12. A REMOVE_TRUNC is planned only for a copy that starts at snapshot 0 of
    a source with a parent; any other copy never creates the object just to
    truncate it. *)
Theorem remove_trunc_needs_hide_parent (req : Request)
    (may_exist : omap snap_t bool) (snapshot_delta : SnapshotDelta)
    (read_ops : ReadOps) (p : Plan) (S : snap_t) (ops : WriteOps)
    (op : WriteOp) :
  plan_writes req may_exist snapshot_delta read_ops = Some p ->
  In (S, ops) (m_write_ops p) ->
  In op ops ->
  wo_type op = WRITE_OP_TYPE_REMOVE_TRUNC ->
  m_src_snap_id_start req = 0 /\ parent (m_src_image_ctx req) = true.
Proof.
  intros Hrun Hin Hop Htype.
  destruct (hide_parent_init req) eqn:Hhide.
  - unfold hide_parent_init in Hhide. apply andb_true_iff in Hhide.
    destruct Hhide as [H0 Hp]. apply Z.eqb_eq in H0. auto.
  - exfalso.
    assert (Hall : Forall (fun e : snap_t * WriteOps =>
                             Forall (fun o => wo_type o <>
                                              WRITE_OP_TYPE_REMOVE_TRUNC)
                                    (snd e)) (m_write_ops p)).
    { revert Hrun.
      apply (plan_writes_invariant
               (fun wo => Forall (fun e : snap_t * WriteOps =>
                                    Forall (fun o => wo_type o <>
                                              WRITE_OP_TYPE_REMOVE_TRUNC)
                                           (snd e)) wo)
               (fun o => wo_type o <> WRITE_OP_TYPE_REMOVE_TRUNC));
        try (intros; discriminate);
        [constructor| |intros Hc; rewrite Hhide in Hc; discriminate].
      intros s o wo Ho Hwo. unfold emplace_back.
      apply Forall_upd; [|exact Hwo]. simpl. apply Forall_app.
      split; [|constructor; [exact Ho | constructor]].
      unfold find_or. destruct (find s wo) as [old|] eqn:E; [|constructor].
      apply find_some_in in E. rewrite Forall_forall in Hwo.
      apply (Hwo _ E). }
    rewrite Forall_forall in Hall. specialize (Hall _ Hin). simpl in Hall.
    rewrite Forall_forall in Hall. apply (Hall _ Hop). exact Htype.
Qed.

(** a REMOVE_TRUNC planned for a zeroed object of a cloned source *)
Lemma remove_trunc_needs_hide_parent_witness :
  m_src_snap_id_start ex_req_hide_parent = 0 /\
  parent (m_src_image_ctx ex_req_hide_parent) = true.
Proof.
  eapply (remove_trunc_needs_hide_parent ex_req_hide_parent ex_may_exist
            ex_delta_zeroed [] _ 10
            [mkWriteOp WRITE_OP_TYPE_REMOVE_TRUNC 0 0]
            (mkWriteOp WRITE_OP_TYPE_REMOVE_TRUNC 0 0)).
  - vm_compute. reflexivity.
  - left. reflexivity.
  - left. reflexivity.
  - reflexivity.
Defined.

(** what holds of the object states when it holds of the empty map and is
    kept by every state the planner can record *)
Lemma plan_object_state_invariant (Q : omap snap_t Z -> Prop)
    (req : Request) (may_exist : omap snap_t bool)
    (snapshot_delta : SnapshotDelta) (read_ops : ReadOps) (p : Plan) :
  Q [] ->
  (forall s v os d,
      front_of (m_snap_map req) s = Some d ->
      v = OBJECT_EXISTS \/
      (v = OBJECT_EXISTS_CLEAN /\
       feature_fast_diff (m_dst_image_ctx req) = true) ->
      Q os -> Q (upd s v os)) ->
  plan_writes req may_exist snapshot_delta read_ops = Some p ->
  Q (m_dst_object_state p).
Proof.
  intros Hnil Hrec Hrun.
  unfold plan_writes in Hrun.
  apply bind_some in Hrun as (merged & Hmerge & Hzero_ops).
  assert (Hmerged : Q (m_dst_object_state merged)).
  { revert Hmerge. unfold merge_write_ops.
    apply (foreach_invariant (fun q => Q (m_dst_object_state q)));
      [|exact Hnil].
    intros q [key ro] q' _ Hq. unfold merge_read_op; cbn [fst snd].
    intros Hstep. apply bind_some in Hstep as (w & _ & Hq').
    injection Hq' as <-. exact Hq. }
  unfold compute_zero_ops in Hzero_ops.
  destruct (m_snap_map req) as [|[first ids] rest] eqn:Hmap; [discriminate|].
  rewrite <- Hmap in *.
  apply bind_some in Hzero_ops as (st & Hloop & Hst). injection Hst as <-.
  revert Hloop.
  apply (foreach_invariant (fun s => Q (m_dst_object_state (zs_plan s))));
    [|exact Hmerged].
  intros s src s' _ Hs. unfold zero_ops_for_snap.
  destruct (front_of (m_snap_map req) src) as [d|] eqn:Hfront; cbn [bind];
    [|discriminate].
  destruct (find d may_exist) as [e|]; cbn [bind]; [|discriminate].
  destruct (negb e && _).
  - intros [= <-]. exact Hs.
  - destruct (update_hide_parent _ _ _ _ _) as [[hp prev]|]; cbn [bind];
      [|discriminate].
    intros [= <-]; cbn [zs_plan m_dst_object_state fst snd].
    unfold record_object_state.
    destruct (_ || hp); [|exact Hs].
    destruct (feature_fast_diff (m_dst_image_ctx req)) eqn:Hfd; cbn [andb].
    + destruct (_ && _).
      * apply (Hrec _ _ _ d Hfront); [right; auto|].
        apply (Hrec _ _ _ d Hfront); [left; reflexivity | exact Hs].
      * apply (Hrec _ _ _ d Hfront); [left; reflexivity | exact Hs].
    + apply (Hrec _ _ _ d Hfront); [left; reflexivity | exact Hs].
Qed.

(** X13. Every object state the planner records is OBJECT_EXISTS or
    OBJECT_EXISTS_CLEAN, the latter only with the fast-diff feature of the
    destination, and is recorded for a source snapshot of the SnapMap with
    a destination snapshot: the object-map phase finds the destination
    snapshot of each entry. *)
Theorem object_states_recorded (req : Request)
    (may_exist : omap snap_t bool) (snapshot_delta : SnapshotDelta)
    (read_ops : ReadOps) (p : Plan) (S : snap_t) (v : Z) :
  plan_writes req may_exist snapshot_delta read_ops = Some p ->
  In (S, v) (m_dst_object_state p) ->
  (v = OBJECT_EXISTS \/
   (v = OBJECT_EXISTS_CLEAN /\
    feature_fast_diff (m_dst_image_ctx req) = true)) /\
  exists dst_snap_id, front_of (m_snap_map req) S = Some dst_snap_id.
Proof.
  intros Hrun Hin.
  assert (Hall : Forall (fun e : snap_t * Z =>
             (snd e = OBJECT_EXISTS \/
              (snd e = OBJECT_EXISTS_CLEAN /\
               feature_fast_diff (m_dst_image_ctx req) = true)) /\
             exists d, front_of (m_snap_map req) (fst e) = Some d)
            (m_dst_object_state p)).
  { revert Hrun. apply plan_object_state_invariant; [constructor|].
    intros s w os d Hd Hw Hos. apply Forall_upd; [|exact Hos].
    cbn [fst snd]. split; [exact Hw | exists d; exact Hd]. }
  rewrite Forall_forall in Hall. apply (Hall _ Hin).
Qed.

(** the state of snapshot 20 over a zeroed object of a cloned source *)
Lemma object_states_recorded_witness :
  (3 = OBJECT_EXISTS \/
   (3 = OBJECT_EXISTS_CLEAN /\
    feature_fast_diff (m_dst_image_ctx ex_req_hide_parent) = true)) /\
  exists dst_snap_id,
    front_of (m_snap_map ex_req_hide_parent) 20 = Some dst_snap_id.
Proof.
  eapply (object_states_recorded ex_req_hide_parent ex_may_exist
            ex_delta_zeroed [] _ 20 3).
  - vm_compute. reflexivity.
  - right. left. reflexivity.
Defined.

(** ** The write and object-map phases *)

Lemma update_object_maps_app (req : Request) (env : Env)
    (done rest : omap snap_t Z) :
  Forall (update_completes req env) done ->
  forall trace,
    update_object_maps req env (done ++ rest) trace
    = update_object_maps req env rest
        (trace ++ flat_map (update_event req) done).
Proof.
  induction 1 as [|[s v] done (Hmap & Hlock & d & Hd & Hr) _ IH];
    intros trace; simpl.
  - rewrite app_nil_r. reflexivity.
  - cbn [fst snd] in *. rewrite Hmap; cbn [negb]. unfold update_event at 1.
    cbn [fst snd]. rewrite Hd; cbn [bind]. rewrite Hlock.
    destruct (env_aio_update env d (m_dst_object_number req) v) as [r|].
    + unfold handle_update_object_map.
      destruct (Z.ltb_spec r 0) as [Hlt|Hge]; [lia|].
      rewrite IH, <- app_assoc. reflexivity.
    + subst d. rewrite Z.eqb_refl. cbn [ceph_assert bind].
      unfold handle_update_object_map. cbn [Z.ltb Z.compare].
      rewrite IH, <- app_assoc. reflexivity.
Qed.

Lemma send_update_object_map_complete (req : Request) (env : Env)
    (object_state : omap snap_t Z) (trace : list Event) :
  (feature_object_map (m_dst_image_ctx req) = true ->
   Forall (update_completes req env) object_state) ->
  send_update_object_map req env object_state trace
  = finish (trace ++
            (if feature_object_map (m_dst_image_ctx req)
             then flat_map (update_event req) object_state else [])) 0.
Proof.
  intros Hall. unfold send_update_object_map.
  destruct (feature_object_map (m_dst_image_ctx req)); cbn [negb orb].
  - destruct (is_empty object_state) eqn:He.
    + destruct object_state; [|discriminate]. simpl.
      rewrite app_nil_r. reflexivity.
    + rewrite <- (app_nil_r object_state) at 1.
      rewrite (update_object_maps_app _ _ _ _ (Hall eq_refl)). reflexivity.
  - rewrite app_nil_r. reflexivity.
Qed.

Lemma write_objects_app (req : Request) (env : Env)
    (may_exist : omap snap_t bool) (object_state : omap snap_t Z)
    (done rest : omap snap_t WriteOps) :
  Forall (batch_completes req env may_exist) done ->
  forall trace,
    write_objects req env may_exist object_state (done ++ rest) trace
    = write_objects req env may_exist object_state rest
        (trace ++ flat_map (operate_event req may_exist) done).
Proof.
  induction 1 as [|[s ops] done (ids & dseq & Hctx & Hop) _ IH];
    intros trace.
  - simpl. rewrite app_nil_r. reflexivity.
  - cbn [fst snd] in *.
    change (((s, ops) :: done) ++ rest) with ((s, ops) :: (done ++ rest)).
    cbn [write_objects flat_map]. unfold operate_event at 1. cbn [fst snd].
    rewrite Hctx; cbn [bind fst snd].
    destruct (Nat.eqb (length (build_op req dseq ops)) _) eqn:Hlen.
    + unfold handle_write_object, normalize_write_result. simpl.
      apply IH.
    + destruct Hop as [Hbase|[Hlock Hres]].
      * apply Nat.eqb_neq in Hlen. contradiction.
      * rewrite Hlock. unfold handle_write_object.
        destruct (Z.ltb_spec (normalize_write_result
                    (env_aio_operate env dseq ids (build_op req dseq ops))) 0)
          as [Hlt|Hge]; [lia|].
        rewrite IH, <- app_assoc. reflexivity.
Qed.

(** X14. When every batch and every object-map update goes through, the request
    finishes with 0 after exactly one [aio_operate] per batch, in the order
    of the plan, followed by one [aio_update] per object state, in order
    (none without the object-map feature); positive completion results are
    not passed on. *)
Theorem writes_then_object_map (req : Request) (env : Env)
    (may_exist : omap snap_t bool) (object_state : omap snap_t Z)
    (write_ops : omap snap_t WriteOps) (trace : list Event) :
  write_ops <> [] ->
  Forall (batch_completes req env may_exist) write_ops ->
  (feature_object_map (m_dst_image_ctx req) = true ->
   Forall (update_completes req env) object_state) ->
  send_write_object req env may_exist object_state write_ops trace
  = Some (trace ++ flat_map (operate_event req may_exist) write_ops ++
          (if feature_object_map (m_dst_image_ctx req)
           then flat_map (update_event req) object_state else []), 0).
Proof.
  intros Hne Hwrites Hupdates. unfold send_write_object.
  destruct write_ops as [|b rest]; [contradiction Hne; reflexivity|].
  cbn [is_empty negb ceph_assert bind].
  rewrite <- (app_nil_r (b :: rest)) at 1.
  rewrite (write_objects_app _ _ _ _ _ _ Hwrites).
  cbn [write_objects].
  rewrite (send_update_object_map_complete _ _ _ _ Hupdates).
  unfold finish. rewrite <- app_assoc. reflexivity.
Qed.

(** one batch for snapshot 10 and its object state *)
Lemma writes_then_object_map_witness :
  send_write_object ex_req (ex_env []) ex_may_exist [(10, OBJECT_EXISTS)]
    [(10, [mkWriteOp WRITE_OP_TYPE_ZERO 0 4])] []
  = Some ([EvOperate 0 [] [OpZero 0 4];
           EvObjectMapUpdate 110 0 OBJECT_EXISTS], 0).
Proof.
  apply (writes_then_object_map ex_req (ex_env []) ex_may_exist
           [(10, OBJECT_EXISTS)] [(10, [mkWriteOp WRITE_OP_TYPE_ZERO 0 4])]
           []).
  - discriminate.
  - constructor; [|constructor].
    exists [], 0. split; [reflexivity|].
    right. split; [reflexivity | vm_compute; discriminate].
  - intros _. constructor; [|constructor].
    split; [reflexivity|]. split; [reflexivity|].
    exists 110. split; [reflexivity | vm_compute; discriminate].
Defined.

(** X15. The object-map phase stops at the first entry that does not go
    through, after the updates of the entries before it: with -EINVAL and
    no further update when the object map is gone, with the lock's result
    and no further update when the lock is lost, with the negative result
    of the update otherwise.  The entries behind it are never looked at. *)
Theorem object_map_update_stops (req : Request) (env : Env)
    (done rest : omap snap_t Z) (src_snap : snap_t) (state : Z)
    (trace : list Event) :
  feature_object_map (m_dst_image_ctx req) = true ->
  Forall (update_completes req env) done ->
  let run := send_update_object_map req env
               (done ++ (src_snap, state) :: rest) trace in
  let updated := trace ++ flat_map (update_event req) done in
  (env_object_map env src_snap = false ->
   run = Some (updated, - EINVAL)) /\
  (forall dst_snap_id r,
      env_object_map env src_snap = true ->
      front_of (m_snap_map req) src_snap = Some dst_snap_id ->
      start_lock_op env true src_snap = Some r ->
      run = Some (updated, r)) /\
  (forall dst_snap_id r,
      env_object_map env src_snap = true ->
      front_of (m_snap_map req) src_snap = Some dst_snap_id ->
      start_lock_op env true src_snap = None ->
      env_aio_update env dst_snap_id (m_dst_object_number req) state
        = Some r ->
      r < 0 ->
      run = Some (updated ++
                  [EvObjectMapUpdate dst_snap_id (m_dst_object_number req)
                                     state], r)).
Proof.
  intros Hfeature Hdone run updated.
  assert (Hrun : run = update_object_maps req env ((src_snap, state) :: rest)
                         updated).
  { unfold run, send_update_object_map. rewrite Hfeature. cbn [negb orb].
    destruct (is_empty (done ++ (src_snap, state) :: rest)) eqn:He.
    - destruct done; discriminate.
    - apply (update_object_maps_app _ _ _ _ Hdone). }
  rewrite Hrun. cbn [update_object_maps].
  split; [|split].
  - intros ->. reflexivity.
  - intros d r Hmap Hd Hlock. rewrite Hmap, Hd. cbn [negb bind].
    rewrite Hlock. reflexivity.
  - intros d r Hmap Hd Hlock Hupdate Hr. rewrite Hmap, Hd. cbn [negb bind].
    rewrite Hlock, Hupdate. unfold handle_update_object_map.
    destruct (Z.ltb_spec r 0) as [Hlt|Hge]; [reflexivity | lia].
Qed.

(** the object map is gone after the update for snapshot 10 *)
Lemma object_map_update_stops_witness :
  send_update_object_map ex_req ex_env_object_map_lost
    ([(10, OBJECT_EXISTS)] ++ (20, OBJECT_EXISTS) :: [(CEPH_NOSNAP, 3)]) []
  = Some ([] ++ flat_map (update_event ex_req) [(10, OBJECT_EXISTS)],
          - EINVAL).
Proof.
  apply (object_map_update_stops ex_req ex_env_object_map_lost
           [(10, OBJECT_EXISTS)] [(CEPH_NOSNAP, 3)] 20 OBJECT_EXISTS []).
  - reflexivity.
  - constructor; [|constructor].
    split; [reflexivity|]. split; [reflexivity|].
    exists 110. split; [reflexivity | vm_compute; discriminate].
  - reflexivity.
Defined.

(** X16. When the exclusive lock is lost before a batch, the request finishes
    with the lock's result after the [aio_operate] calls of the batches
    before it: the batch is not issued, nor is any later one, and the
    object map is not updated. *)
Theorem lost_lock_stops_writes (req : Request) (env : Env)
    (may_exist : omap snap_t bool) (object_state : omap snap_t Z)
    (done rest : omap snap_t WriteOps) (src_snap_seq : snap_t)
    (ops : WriteOps) (dst_snap_ids : SnapIds) (dst_snap_seq : snap_t)
    (trace : list Event) (r : Z) :
  Forall (batch_completes req env may_exist) done ->
  dst_snap_context (m_snap_map req) may_exist src_snap_seq ops
    = Some (dst_snap_ids, dst_snap_seq) ->
  ops <> [] ->
  start_lock_op env false src_snap_seq = Some r ->
  send_write_object req env may_exist object_state
    (done ++ (src_snap_seq, ops) :: rest) trace
  = Some (trace ++ flat_map (operate_event req may_exist) done, r).
Proof.
  intros Hdone Hctx Hops Hlock. unfold send_write_object.
  assert (He : is_empty (done ++ (src_snap_seq, ops) :: rest) = false)
    by (destruct done; reflexivity).
  rewrite He. cbn [negb ceph_assert bind].
  rewrite (write_objects_app _ _ _ _ _ _ Hdone).
  cbn [write_objects]. rewrite Hctx. cbn [bind fst snd].
  assert (Hlen : Nat.eqb (length (build_op req dst_snap_seq ops))
                   (if migration_info_empty (m_dst_image_ctx req)
                    then 0%nat else 1%nat) = false).
  { apply rados_ops_nonempty in Hops. unfold build_op. rewrite length_app.
    destruct (flat_map rados_ops_of ops) as [|o l];
      [contradiction Hops; reflexivity|].
    apply Nat.eqb_neq.
    destruct (migration_info_empty (m_dst_image_ctx req)); simpl; lia. }
  rewrite Hlen, Hlock. reflexivity.
Qed.

(** the lock is lost (-ESHUTDOWN) between the batches of snapshots 10
    and 20 *)
Lemma lost_lock_stops_writes_witness :
  send_write_object ex_req ex_env_lock_lost ex_may_exist
    [(10, OBJECT_EXISTS); (20, OBJECT_EXISTS)]
    ([(10, [mkWriteOp WRITE_OP_TYPE_ZERO 0 4])] ++
     (20, [mkWriteOp WRITE_OP_TYPE_ZERO 4 4]) :: []) []
  = Some ([EvOperate 0 [] [OpZero 0 4]], -108).
Proof.
  apply (lost_lock_stops_writes ex_req ex_env_lock_lost ex_may_exist
           [(10, OBJECT_EXISTS); (20, OBJECT_EXISTS)]
           [(10, [mkWriteOp WRITE_OP_TYPE_ZERO 0 4])] [] 20
           [mkWriteOp WRITE_OP_TYPE_ZERO 4 4] [] 0 [] (-108)).
  - constructor; [|constructor].
    exists [], 0. split; [reflexivity|].
    right. split; [reflexivity | vm_compute; discriminate].
  - reflexivity.
  - discriminate.
  - reflexivity.
Defined.

(** ** The order of the phases *)

Lemma update_object_maps_trace (req : Request) (env : Env)
    (object_state : omap snap_t Z) :
  forall trace t r,
    update_object_maps req env object_state trace = Some (t, r) ->
    exists updates,
      t = trace ++ updates /\
      forallb is_update_event updates = true /\
      (length updates <= length object_state)%nat.
Proof.
  induction object_state as [|[s v] rest IH]; intros trace t r; simpl.
  - intros [= <- _]. exists []. rewrite app_nil_r. auto.
  - assert (Hstop : forall r0, finish trace r0 = Some (t, r) ->
              exists updates,
                t = trace ++ updates /\
                forallb is_update_event updates = true /\
                (length updates <= S (length rest))%nat).
    { intros r0 [= <- _]. exists []. rewrite app_nil_r.
      split_conj; [reflexivity | reflexivity | simpl; lia]. }
    assert (Hnext : forall d r0,
              handle_update_object_map (update_object_maps req env rest)
                (trace ++ [EvObjectMapUpdate d (m_dst_object_number req) v])
                r0 = Some (t, r) ->
              exists updates,
                t = trace ++ updates /\
                forallb is_update_event updates = true /\
                (length updates <= S (length rest))%nat).
    { intros d r0. unfold handle_update_object_map.
      destruct (r0 <? 0).
      - intros [= <- _]. eexists. split_conj; [reflexivity | reflexivity|].
        simpl; lia.
      - intros Hrest. apply IH in Hrest as (u & -> & Hu & Hlen).
        exists (EvObjectMapUpdate d (m_dst_object_number req) v :: u).
        rewrite <- app_assoc. split_conj; [reflexivity | exact Hu|].
        simpl; lia. }
    destruct (negb (env_object_map env s)); [apply Hstop|].
    destruct (front_of (m_snap_map req) s) as [d|]; cbn [bind];
      [|discriminate].
    destruct (start_lock_op env true s) as [r0|]; [apply Hstop|].
    destruct (env_aio_update env d (m_dst_object_number req) v) as [r0|];
      [apply Hnext|].
    destruct (d =? CEPH_NOSNAP); cbn [ceph_assert bind];
      [apply Hnext | discriminate].
Qed.

Lemma write_objects_trace (req : Request) (env : Env)
    (may_exist : omap snap_t bool) (object_state : omap snap_t Z)
    (write_ops : omap snap_t WriteOps) :
  forall trace t r,
    write_objects req env may_exist object_state write_ops trace
      = Some (t, r) ->
    exists writes updates,
      t = trace ++ writes ++ updates /\
      forallb is_operate_event writes = true /\
      forallb is_update_event updates = true /\
      (length writes <= length write_ops)%nat /\
      (length updates <= length object_state)%nat /\
      (feature_object_map (m_dst_image_ctx req) = false -> updates = []).
Proof.
  induction write_ops as [|[s ops] rest IH]; intros trace t r.
  - cbn [write_objects]. unfold send_update_object_map.
    destruct (negb (feature_object_map (m_dst_image_ctx req))) eqn:Hf;
      cbn [orb].
    + intros [= <- _]. exists [], []. rewrite app_nil_r.
      split_conj; auto. simpl; lia.
    + destruct (is_empty object_state).
      * intros [= <- _]. exists [], []. rewrite app_nil_r.
        split_conj; auto. simpl; lia.
      * intros Hu. apply update_object_maps_trace in Hu as (u & -> & Hu & Hl).
        exists [], u. split_conj; auto.
        intros Hoff. rewrite Hoff in Hf. discriminate.
  - cbn [write_objects].
    destruct (dst_snap_context (m_snap_map req) may_exist s ops)
      as [[ids dseq]|]; cbn [bind fst snd]; [|discriminate].
    assert (Hnext : forall tr r0 issued,
              tr = trace ++ issued ->
              forallb is_operate_event issued = true ->
              (length issued <= 1)%nat ->
              handle_write_object
                (write_objects req env may_exist object_state rest) tr r0
                = Some (t, r) ->
              exists writes updates,
                t = trace ++ writes ++ updates /\
                forallb is_operate_event writes = true /\
                forallb is_update_event updates = true /\
                (length writes <= S (length rest))%nat /\
                (length updates <= length object_state)%nat /\
                (feature_object_map (m_dst_image_ctx req) = false ->
                 updates = [])).
    { intros tr r0 issued -> Hissued Hlen. unfold handle_write_object.
      destruct (normalize_write_result r0 <? 0).
      - intros [= <- _]. exists issued, []. rewrite app_nil_r.
        split_conj; auto; simpl; lia.
      - intros Hrest.
        apply IH in Hrest as (w & u & -> & Hw & Hu & Hlw & Hlu & Hoff).
        exists (issued ++ w), u. rewrite <- !app_assoc.
        split_conj; auto.
        + rewrite forallb_app, Hissued, Hw. reflexivity.
        + rewrite length_app. lia. }
    destruct (Nat.eqb _ _).
    + apply (Hnext trace 0 []); [rewrite app_nil_r|..]; auto.
    + destruct (start_lock_op env false s) as [r0|].
      * intros [= <- _]. exists [], []. rewrite app_nil_r.
        split_conj; auto; simpl; lia.
      * apply (Hnext _ _ [EvOperate dseq ids (build_op req dseq ops)]);
          auto.
Qed.

Lemma send_read_trace (req : Request) (env : Env)
    (done : ReadOps -> list Event -> Outcome) (P : list Event -> Prop) :
  (forall read_ops tr t r,
      done read_ops tr = Some (t, r) -> exists rest, t = tr ++ rest /\ P rest) ->
  P [] ->
  forall (read_snaps : list WriteReadSnapIds) (read_ops : ReadOps)
         (trace t : list Event) (r : Z),
    send_read req env done read_snaps read_ops trace = Some (t, r) ->
    exists reads rest,
      t = trace ++ reads ++ rest /\
      forallb is_read_event reads = true /\ P rest.
Proof.
  intros Hdone Hnil.
  induction read_snaps as [|index snaps IH]; intros read_ops trace t r.
  - cbn [send_read]. intros Hd. apply Hdone in Hd as (rest & -> & Hrest).
    exists [], rest. auto.
  - cbn [send_read]. unfold handle_read.
    set (res := issue_read req env index
                  (find_or ReadOp_default index read_ops)).
    assert (Hres : forallb is_read_event (snd (fst res)) = true).
    { unfold res, issue_read. destruct (iset_empty _); reflexivity. }
    destruct (snd res <? 0).
    + intros [= <- _]. exists (snd (fst res)), []. rewrite app_nil_r.
      auto.
    + destruct (m_handler req); intros Hn;
        apply IH in Hn as (rd & rest & -> & Hrd & Hrest).
      * eexists (snd (fst res) ++ [_] ++ rd), rest.
        rewrite <- !app_assoc. split_conj; [reflexivity| |exact Hrest].
        rewrite forallb_app, Hres. simpl. exact Hrd.
      * exists (snd (fst res) ++ rd), rest.
        rewrite <- !app_assoc. split_conj; [reflexivity| |exact Hrest].
        rewrite forallb_app, Hres. exact Hrd.
Qed.

(** X17. Whatever the collaborators answer, a request that finishes has first
    done all its reads and handler calls, then its [aio_operate] calls,
    then its object-map updates: no read follows a write, no object-map
    update precedes a write, and without the object-map feature there is
    no update at all. *)
Theorem phases_in_order (req : Request) (env : Env) (trace : list Event)
    (r : Z) :
  send req env = Some (trace, r) ->
  exists reads writes updates,
    trace = reads ++ writes ++ updates /\
    forallb is_read_event reads = true /\
    forallb is_operate_event writes = true /\
    forallb is_update_event updates = true /\
    (feature_object_map (m_dst_image_ctx req) = false -> updates = []).
Proof.
  unfold send, send_list_snaps, handle_list_snaps.
  destruct (negb (is_empty (m_snap_map req))); cbn [ceph_assert bind];
    [|discriminate].
  destruct (fst (env_list_snaps env (list_snap_ids req)) <? 0).
  - intros [= <- _]. exists [], [], []. auto.
  - destruct (compute_read_ops req (compute_dst_object_may_exist req)
                (snd (env_list_snaps env (list_snap_ids req))))
      as [read_ops|]; cbn [bind]; [|discriminate].
    intros Hrun.
    apply (send_read_trace req env _
             (fun rest => exists writes updates,
                  rest = writes ++ updates /\
                  forallb is_operate_event writes = true /\
                  forallb is_update_event updates = true /\
                  (feature_object_map (m_dst_image_ctx req) = false ->
                   updates = []))) in Hrun.
    + destruct Hrun as (reads & rest & -> & Hreads & w & u & -> & Hw & Hu & Hf).
      exists reads, w, u. auto.
    + intros ro tr t r0. unfold send_writes.
      destruct (plan_writes _ _ _ ro) as [p|]; cbn [bind]; [|discriminate].
      destruct (is_empty (m_write_ops p)) eqn:He.
      * intros [= <- _]. exists []. rewrite app_nil_r.
        split; [reflexivity|]. exists [], []. auto.
      * unfold send_write_object. rewrite He. cbn [negb ceph_assert bind].
        intros Hw.
        apply write_objects_trace in Hw
          as (w & u & -> & Hw & Hu & _ & _ & Hf).
        exists (w ++ u). split; [reflexivity|]. exists w, u. auto.
    + exists [], []. auto.
Qed.

(** the run that reads and writes the data of snapshots 10 and 20 *)
Lemma phases_in_order_witness :
  exists reads writes updates,
    [EvRead 10 [(0, 8)] true; EvHandlerRead 8;
     EvRead 20 [(0, 4)] true; EvHandlerRead 4;
     EvOperate 0 [] [OpWrite 0 (repeat Byte.xaa 8)];
     EvOperate 0 [] [OpWrite 0 (repeat Byte.xaa 4)];
     EvObjectMapUpdate 110 0 1; EvObjectMapUpdate 120 0 1;
     EvObjectMapUpdate CEPH_NOSNAP 0 3]
    = reads ++ writes ++ updates /\
    forallb is_read_event reads = true /\
    forallb is_operate_event writes = true /\
    forallb is_update_event updates = true /\
    (feature_object_map (m_dst_image_ctx ex_req) = false -> updates = []).
Proof.
  apply (phases_in_order ex_req (ex_env ex_delta_two_reads) _ 0).
  vm_compute. reflexivity.
Defined.

(** ** Nothing to copy *)

Lemma foreach_total {A S : Type} (I : S -> Prop) (body : S -> A -> option S)
    (xs : list A) :
  (forall s x, In x xs -> I s -> exists s', body s x = Some s' /\ I s') ->
  forall s, I s -> exists s', foreach body xs s = Some s' /\ I s'.
Proof.
  induction xs as [|x xs IH]; intros Hbody s Hs; simpl.
  - exists s. auto.
  - destruct (Hbody s x (or_introl eq_refl) Hs) as (s1 & -> & Hs1).
    cbn [bind]. apply IH; [|exact Hs1].
    intros s0 y Hy. apply Hbody. right. exact Hy.
Qed.

Lemma zero_map_keys (snap_map : SnapMap) (first : snap_t)
    (snapshot_delta : SnapshotDelta) (k : snap_t) :
  In k (keys (ensure_zero_intervals snap_map
                (collect_zeroed false first snapshot_delta []))) ->
  In k (keys snap_map) \/
  exists key, In key (keys snapshot_delta) /\
              key <> INITIAL_WRITE_READ_SNAP_IDS /\ k = fst key.
Proof.
  set (J := fun m : omap snap_t interval_set =>
              forall k, In k (keys m) ->
                exists key, In key (keys snapshot_delta) /\
                            key <> INITIAL_WRITE_READ_SNAP_IDS /\
                            k = fst key).
  assert (Hzeroed : J (collect_zeroed false first snapshot_delta [])).
  { unfold collect_zeroed.
    assert (Hgen : forall l m,
               (forall x, In x l -> In x snapshot_delta) -> J m ->
               J (fold_left
                    (fun m entry =>
                       fold_left (collect_zeroed_extent false first
                                                        (fst entry))
                                 (snd entry) m) l m)).
    { intros l m Hl. revert m.
      induction l as [|entry l IH]; intros m Hm; [exact Hm|].
      simpl. apply IH; [intros x Hx; apply Hl; right; exact Hx|].
      apply (fold_left_invariant J); [|exact Hm].
      intros m0 e _ Hm0. unfold collect_zeroed_extent.
      destruct (get_state e); try exact Hm0.
      destruct (key_eqb (fst entry) (0, 0)) eqn:E; cbn [negb];
        [exact Hm0|].
      intros k0 Hk0. unfold zero_union_insert in Hk0.
      apply in_keys_upd in Hk0 as [->|Hk0]; [|apply Hm0; exact Hk0].
      exists (fst entry). split_conj; [| |reflexivity].
      - unfold keys. apply in_map. apply Hl. left. reflexivity.
      - intros Hc. rewrite Hc in E.
        unfold INITIAL_WRITE_READ_SNAP_IDS in E.
        rewrite key_eqb_refl in E. discriminate. }
    apply Hgen; [auto | intros k0 []]. }
  unfold ensure_zero_intervals. revert k.
  apply (fold_left_invariant
           (fun m => forall k, In k (keys m) ->
              In k (keys snap_map) \/
              exists key, In key (keys snapshot_delta) /\
                          key <> INITIAL_WRITE_READ_SNAP_IDS /\
                          k = fst key));
    [|intros k Hk; right; apply Hzeroed; exact Hk].
  intros m entry Hentry Hm k.
  destruct (find (fst entry) m); [apply Hm|].
  intros Hk. apply in_keys_upd in Hk as [->|Hk]; [|apply Hm; exact Hk].
  left. unfold keys. apply in_map. exact Hentry.
Qed.

Lemma snap_resolves_may_exist (req : Request) (src_snap : snap_t) :
  snap_resolves req src_snap ->
  exists d e,
    front_of (m_snap_map req) src_snap = Some d /\
    find d (compute_dst_object_may_exist req) = Some e.
Proof.
  intros (d & Hd & Hin). exists d. unfold compute_dst_object_may_exist.
  rewrite may_exist_fold.
  assert (Hex : existsb (Z.eqb d) (snaps (m_dst_image_ctx req) ++
                                   [CEPH_NOSNAP]) = true).
  { apply existsb_exists. exists d. split; [exact Hin | apply Z.eqb_refl]. }
  rewrite Hex. eexists. split; [exact Hd | reflexivity].
Qed.

(** X18. When the source reports nothing to copy (no DATA extent under a key
    that is read) and there is no parent to hide, the request issues
    nothing at all (no read, no write, no object-map update) and finishes
    with -ENOENT. *)
Theorem nothing_to_copy (req : Request) (env : Env) :
  let snapshot_delta := snd (env_list_snaps env (list_snap_ids req)) in
  m_snap_map req <> [] ->
  (forall s, In s (keys (m_snap_map req)) -> snap_resolves req s) ->
  (forall key, In key (keys snapshot_delta) ->
               key <> INITIAL_WRITE_READ_SNAP_IDS ->
               In (fst key) (keys (m_snap_map req))) ->
  hide_parent_init req = false ->
  (forall off len b oe,
      In oe (file_to_extents (m_striper req) off len b) ->
      0 <= oe_offset oe) ->
  0 <= fst (env_list_snaps env (list_snap_ids req)) ->
  nothing_to_read req (compute_dst_object_may_exist req) snapshot_delta ->
  send req env = Some ([], - ENOENT).
Proof.
  intros delta Hmap Hresolves Hkeys Hhide Hoffsets Hr Hnothing.
  unfold send, send_list_snaps, handle_list_snaps.
  assert (Hne_map : is_empty (m_snap_map req) = false).
  { destruct (m_snap_map req); [contradiction Hmap|]; reflexivity. }
  rewrite Hne_map. cbn [negb ceph_assert bind].
  destruct (Z.ltb_spec (fst (env_list_snaps env (list_snap_ids req))) 0)
    as [Hlt|_]; [lia|].
  fold delta.
  set (may_exist := compute_dst_object_may_exist req) in *.
  assert (Hread : compute_read_ops req may_exist delta = Some []).
  { unfold compute_read_ops.
    destruct (foreach_total
                (fun s => rp_read_ops s = [] /\ rp_dne_image_interval s = [])
                (read_ops_for_key req may_exist) delta) with (s := ReadPlan_init)
      as (st & -> & Hops & Hdne); [|split; reflexivity|].
    - intros s [key extents] Hentry Hs.
      unfold read_ops_for_key; cbn [fst snd].
      assert (Hinner : key_is_read req may_exist key ->
                exists s', foreach (classify_extent req key) extents s
                           = Some s' /\
                           rp_read_ops s' = [] /\
                           rp_dne_image_interval s' = []).
      { intros Hisread.
        apply (foreach_total
                 (fun s => rp_read_ops s = [] /\
                           rp_dne_image_interval s = [])); [|exact Hs].
        intros s0 e He Hs0. unfold classify_extent.
        destruct (Hnothing key extents e Hentry He Hisread)
          as [->|[-> ->]].
        - eexists. split; [reflexivity | exact Hs0].
        - change (read_from_parent req) with (hide_parent_init req).
          rewrite Hhide. exists s0. split; [reflexivity | exact Hs0]. }
      destruct (key_eqb key INITIAL_WRITE_READ_SNAP_IDS) eqn:E; cbn [negb].
      + apply key_eqb_eq in E. apply Hinner. left. exact E.
      + assert (Hne : key <> INITIAL_WRITE_READ_SNAP_IDS).
        { intros ->. rewrite key_eqb_refl in E. discriminate. }
        assert (Hin : In key (keys delta)).
        { unfold keys. apply (in_map fst _ _ Hentry). }
        destruct (snap_resolves_may_exist req (fst key)
                    (Hresolves _ (Hkeys key Hin Hne)))
          as (d & e & Hd & He).
        assert (Hexists : dst_may_exist (m_snap_map req) may_exist
                            (fst key) = Some e).
        { unfold dst_may_exist. rewrite Hd. exact He. }
        rewrite Hexists. cbn [bind].
        destruct e; cbn [negb].
        * apply Hinner. right. exact Hexists.
        * exists s. auto.
    - cbn [bind]. unfold parent_read_ops. rewrite Hdne, Hops. reflexivity. }
  rewrite Hread. cbn [bind read_snaps_of keys map send_read].
  unfold send_writes, plan_writes.
  cbn [merge_write_ops foreach bind].
  assert (Hplan : exists p,
             compute_zero_ops req may_exist delta Plan_init = Some p /\
             m_write_ops p = []).
  { unfold compute_zero_ops.
    destruct (m_snap_map req) as [|[first ids] rest] eqn:Emap;
      [discriminate|].
    rewrite <- Emap in *.
    cbn [Plan_init m_dst_zero_interval m_dst_data_interval m_write_ops
         m_dst_object_state]. rewrite Hhide.
    set (zero_map := ensure_zero_intervals (m_snap_map req)
                       (collect_zeroed false first delta [])).
    set (first_key := match zero_map with
                      | [] => first
                      | (k, _) :: _ => k
                      end).
    destruct (foreach_total
                (fun st => m_write_ops (zs_plan st) = [] /\
                           zs_hide_parent st = false /\
                           zs_prev_end_size st = 0)
                (zero_ops_for_snap req may_exist first_key)
                (keys zero_map))
      with (s := {| zs_plan :=
                      {| m_dst_data_interval := [];
                         m_dst_zero_interval := zero_map;
                         m_write_ops := [];
                         m_dst_object_state := [] |};
                    zs_hide_parent := false;
                    zs_prev_end_size := 0 |})
      as (st & -> & Hw & _); [|split_conj; reflexivity|].
    - intros st S HS (Hw & Hhp & Hprev).
      assert (Hres : snap_resolves req S).
      { apply zero_map_keys in HS as [HS|(key & Hkey & Hne & ->)].
        - apply Hresolves. exact HS.
        - apply Hresolves. apply Hkeys; assumption. }
      destruct (snap_resolves_may_exist req S Hres) as (d & e & Hd & He).
      unfold zero_ops_for_snap. rewrite Hd. cbn [bind].
      fold may_exist in He. rewrite He. cbn [bind].
      rewrite Hprev, Hhp. cbn [Z.ltb Z.compare]. rewrite andb_false_r.
      unfold update_hide_parent. cbn [bind fst snd].
      eexists. split; [reflexivity|].
      cbn [zs_plan m_write_ops zs_hide_parent zs_prev_end_size].
      unfold end_size_of_writes. rewrite Hw. cbn [find].
      assert (Hidle : forall zi,
                 zero_ops_of_interval (m_striper req) S false 0 zi ([], 0)
                 = ([], 0)).
      { intros zi. unfold zero_ops_of_interval.
        apply (fold_left_invariant (fun a => a = ([], 0))); [|reflexivity].
        intros a z _ ->.
        apply (fold_left_invariant (fun a => a = ([], 0))); [|reflexivity].
        intros b oe Hoe ->. unfold zero_object_extent. cbn [fst snd].
        pose proof (Hoffsets _ _ _ _ Hoe) as Hnonneg.
        assert (Hsum : 0 <= add64 (oe_offset oe) (oe_length oe)).
        { unfold add64. apply Z.mod_pos_bound. reflexivity. }
        destruct (Z.leb_spec 0 (add64 (oe_offset oe) (oe_length oe)));
          [|lia].
        rewrite andb_false_r.
        destruct (Z.ltb_spec (oe_offset oe) 0); [lia|].
        f_equal. lia. }
      rewrite Hidle. cbn [fst snd]. auto.
    - cbn [bind]. eexists. split; [reflexivity | exact Hw]. }
  destruct Hplan as (p & -> & Hw). cbn [bind]. rewrite Hw. reflexivity.
Qed.

(** an object that never existed in the source and was zeroed before
    snapshot 10 *)
Lemma nothing_to_copy_witness :
  send ex_req_u64 (ex_env ex_delta_nothing) = Some ([], - ENOENT).
Proof.
  apply (nothing_to_copy ex_req_u64 (ex_env ex_delta_nothing)).
  - discriminate.
  - intros s [<-|[<-|[<-|[]]]]; eexists; (split; [reflexivity|]).
    + left. reflexivity.
    + right. left. reflexivity.
    + right. right. left. reflexivity.
  - intros key [<-|[<-|[]]] Hne.
    + contradiction Hne. reflexivity.
    + left. reflexivity.
  - reflexivity.
  - intros off len b oe [<-|[]]. cbn [oe_offset].
    apply Z.mod_pos_bound. reflexivity.
  - simpl. lia.
  - intros key extents e Hin He Hread.
    destruct Hin as [[= <- <-]|[[= <- <-]|[]]]; destruct He as [<-|[]].
    + right. split; reflexivity.
    + left. reflexivity.
Defined.

(** ** Data wins over zeroes *)

Lemma zero_loop_disjoint (req : Request) (may_exist : omap snap_t bool)
    (first_key : snap_t) (l : list snap_t) :
  forall st st',
    foreach (zero_ops_for_snap req may_exist first_key) l st = Some st' ->
    (forall S x,
        In S l ->
        covers (find_or [] S (m_dst_zero_interval (zs_plan st'))) x ->
        ~ covers (find_or [] S (m_dst_data_interval (zs_plan st'))) x) /\
    (forall S,
        ~ In S l ->
        find S (m_dst_zero_interval (zs_plan st'))
        = find S (m_dst_zero_interval (zs_plan st)) /\
        find S (m_dst_data_interval (zs_plan st'))
        = find S (m_dst_data_interval (zs_plan st))).
Proof.
  induction l as [|S0 l IH]; intros st st'.
  - simpl. intros [= <-]. split; [intros S x []|auto].
  - simpl. intros Hrun. apply bind_some in Hrun as (st1 & Hstep & Hrest).
    destruct (IH _ _ Hrest) as [Hin Hout].
    destruct (zero_ops_for_snap_intervals _ _ _ _ _ _ Hstep) as [Hz Hd].
    cbv zeta in Hz, Hd. split.
    + intros S x HS.
      destruct (in_dec Z.eq_dec S l) as [Hl|Hl]; [apply Hin; exact Hl|].
      destruct HS as [<-|HS]; [|contradiction].
      destruct (Hout S0 Hl) as [Ez Ed].
      unfold find_or. rewrite Ez, Ed, Hz, Hd.
      rewrite !find_upd_same. intros Hc. apply covers_difference in Hc.
      apply Hc.
    + intros S HS.
      assert (Hne : S <> S0) by (intros ->; apply HS; left; reflexivity).
      assert (Hl : ~ In S l) by (intros Hc; apply HS; right; exact Hc).
      destruct (Hout S Hl) as [Ez Ed]. rewrite Ez, Ed, Hz, Hd.
      split; apply find_upd_other; exact Hne.
Qed.

(** X19. In the finished plan no byte is both data and zero for the same
    snapshot: where a snapshot has data, a zeroed extent reported for it
    gives way. *)
Theorem zero_and_data_disjoint (req : Request)
    (may_exist : omap snap_t bool) (snapshot_delta : SnapshotDelta)
    (read_ops : ReadOps) (p : Plan) (S : snap_t) (x : Z) :
  plan_writes req may_exist snapshot_delta read_ops = Some p ->
  covers (find_or [] S (m_dst_zero_interval p)) x ->
  ~ covers (find_or [] S (m_dst_data_interval p)) x.
Proof.
  unfold plan_writes. intros Hrun.
  apply bind_some in Hrun as (merged & _ & Hzero).
  unfold compute_zero_ops in Hzero.
  destruct (m_snap_map req) as [|[first ids] rest]; [discriminate|].
  apply bind_some in Hzero as (st & Hloop & Hp). injection Hp as <-.
  apply zero_loop_disjoint in Hloop as [Hin Hout].
  match type of Hin with
  | forall S x, In S (keys ?m) -> _ => set (zero_map := m) in *
  end.
  destruct (in_dec Z.eq_dec S (keys zero_map)) as [HS|HS];
    [apply Hin; exact HS|].
  destruct (Hout S HS) as [Ez _]. cbn [zs_plan m_dst_zero_interval] in Ez.
  assert (Hnone : find S zero_map = None).
  { destruct (find S zero_map) eqn:E; [|reflexivity].
    apply find_some_in_keys in E. contradiction. }
  unfold find_or at 1. rewrite Ez, Hnone.
  intros Hc. apply covers_nil in Hc. contradiction.
Qed.

(** bytes 2..7 of snapshot 10 are reported zeroed and bytes 0..3 data:
    byte 5 is zero in the plan and not data *)
Lemma zero_and_data_disjoint_witness :
  ~ covers (find_or [] 10 (m_dst_data_interval ex_plan_overlap)) 5.
Proof.
  apply (zero_and_data_disjoint ex_req ex_may_exist ex_delta_overlap
           ex_read_ops_overlap ex_plan_overlap 10 5).
  - vm_compute. reflexivity.
  - exists (4, 4). split; [left; reflexivity|].
    unfold in_extent. simpl. lia.
Defined.

(** ** The result of the request *)

Lemma update_object_maps_result (req : Request) (env : Env)
    (object_state : omap snap_t Z) :
  (forall s r0, start_lock_op env true s = Some r0 -> r0 <= 0) ->
  forall trace t r,
    update_object_maps req env object_state trace = Some (t, r) -> r <= 0.
Proof.
  intros Hlock.
  induction object_state as [|[s v] rest IH]; intros trace t r; simpl.
  - intros [= _ <-]. lia.
  - destruct (negb (env_object_map env s));
      [intros [= _ <-]; unfold EINVAL; lia|].
    destruct (front_of (m_snap_map req) s) as [d|]; cbn [bind];
      [|discriminate].
    destruct (start_lock_op env true s) as [r0|] eqn:El;
      [intros [= _ <-]; apply (Hlock _ _ El)|].
    assert (Hnext : forall tr r0,
              handle_update_object_map (update_object_maps req env rest)
                tr r0 = Some (t, r) -> r <= 0).
    { intros tr r0. unfold handle_update_object_map.
      destruct (Z.ltb_spec r0 0); [intros [= _ <-]; lia | apply IH]. }
    destruct (env_aio_update env d (m_dst_object_number req) v) as [r0|];
      [apply Hnext|].
    destruct (d =? CEPH_NOSNAP); cbn [ceph_assert bind];
      [apply Hnext | discriminate].
Qed.

Lemma write_objects_result (req : Request) (env : Env)
    (may_exist : omap snap_t bool) (object_state : omap snap_t Z)
    (write_ops : omap snap_t WriteOps) :
  (forall u s r0, start_lock_op env u s = Some r0 -> r0 <= 0) ->
  forall trace t r,
    write_objects req env may_exist object_state write_ops trace
      = Some (t, r) -> r <= 0.
Proof.
  intros Hlock.
  induction write_ops as [|[s ops] rest IH]; intros trace t r.
  - cbn [write_objects]. unfold send_update_object_map.
    destruct (_ || _); [intros [= _ <-]; lia|].
    apply update_object_maps_result. intros s r0. apply Hlock.
  - cbn [write_objects].
    destruct (dst_snap_context (m_snap_map req) may_exist s ops)
      as [[ids dseq]|]; cbn [bind fst snd]; [|discriminate].
    assert (Hnext : forall tr r0,
              handle_write_object
                (write_objects req env may_exist object_state rest) tr r0
                = Some (t, r) -> r <= 0).
    { intros tr r0. unfold handle_write_object.
      destruct (Z.ltb_spec (normalize_write_result r0) 0);
        [intros [= _ <-]; lia | apply IH]. }
    destruct (Nat.eqb _ _); [apply Hnext|].
    destruct (start_lock_op env false s) as [r0|] eqn:El;
      [intros [= _ <-]; apply (Hlock _ _ _ El) | apply Hnext].
Qed.

Lemma send_read_result (req : Request) (env : Env)
    (done : ReadOps -> list Event -> Outcome) :
  (forall read_ops tr t r, done read_ops tr = Some (t, r) -> r <= 0) ->
  forall (read_snaps : list WriteReadSnapIds) (read_ops : ReadOps)
         (trace t : list Event) (r : Z),
    send_read req env done read_snaps read_ops trace = Some (t, r) ->
    r <= 0.
Proof.
  intros Hdone.
  induction read_snaps as [|index snaps IH]; intros read_ops trace t r.
  - cbn [send_read]. apply Hdone.
  - cbn [send_read]. unfold handle_read.
    destruct (Z.ltb_spec (snd (issue_read req env index
                (find_or ReadOp_default index read_ops))) 0);
      [intros [= _ <-]; lia | apply IH].
Qed.

(** X20. A request never reports a positive result: when the exclusive lock
    fails only with error codes, the value passed to the completion is 0
    or negative, whatever positive values the list-snaps, read, write and
    object-map completions deliver. *)
Theorem result_never_positive (req : Request) (env : Env)
    (trace : list Event) (r : Z) :
  (forall update s r0, start_lock_op env update s = Some r0 -> r0 <= 0) ->
  send req env = Some (trace, r) ->
  r <= 0.
Proof.
  intros Hlock.
  unfold send, send_list_snaps, handle_list_snaps.
  destruct (negb (is_empty (m_snap_map req))); cbn [ceph_assert bind];
    [|discriminate].
  destruct (Z.ltb_spec (fst (env_list_snaps env (list_snap_ids req))) 0).
  - intros [= _ <-]. lia.
  - destruct (compute_read_ops req (compute_dst_object_may_exist req)
                (snd (env_list_snaps env (list_snap_ids req))))
      as [read_ops|]; cbn [bind]; [|discriminate].
    apply send_read_result.
    intros ro tr t r0. unfold send_writes.
    destruct (plan_writes _ _ _ ro) as [p|]; cbn [bind]; [|discriminate].
    destruct (is_empty (m_write_ops p)) eqn:He.
    + intros [= _ <-]. unfold ENOENT. lia.
    + unfold send_write_object. rewrite He. cbn [negb ceph_assert bind].
      apply write_objects_result. exact Hlock.
Qed.

(** every completion of the run delivers a positive result *)
Lemma result_never_positive_witness : 0 <= 0.
Proof.
  apply (result_never_positive ex_req (ex_env_positive ex_delta_two_reads)
           (match send ex_req (ex_env_positive ex_delta_two_reads) with
            | Some (t, _) => t
            | None => []
            end) 0).
  - intros update s r0. discriminate.
  - vm_compute. reflexivity.
Defined.

(** ** Snapshots at which the object cannot exist *)

Lemma zero_ops_for_snap_state_disallowed (req : Request)
    (may_exist : omap snap_t bool) (first_key : snap_t) (st st' : ZeroState)
    (S : snap_t) :
  (forall off len b oe,
      In oe (file_to_extents (m_striper req) off len b) -> 0 <= oe_offset oe) ->
  dst_may_exist (m_snap_map req) may_exist S = Some false ->
  zs_hide_parent st = false ->
  find S (m_write_ops (zs_plan st)) = None ->
  zero_ops_for_snap req may_exist first_key st S = Some st' ->
  m_dst_object_state (zs_plan st') = m_dst_object_state (zs_plan st).
Proof.
  intros Hoffsets Hexists Hoff Hempty. unfold zero_ops_for_snap.
  unfold dst_may_exist in Hexists.
  destruct (front_of (m_snap_map req) S) as [d|]; cbn [bind] in *;
    [|discriminate].
  rewrite Hexists; cbn [bind negb andb].
  destruct (Z.ltb_spec 0 (zs_prev_end_size st)) as [Hpos|Hle].
  - intros [= <-]. reflexivity.
  - unfold update_hide_parent. rewrite Hoff; cbn [bind fst snd].
    intros [= <-]; cbn [zs_plan m_dst_object_state].
    unfold end_size_of_writes. rewrite Hempty.
    unfold zero_ops_of_interval, record_object_state.
    match goal with
    | |- context [0 <? snd ?w] =>
        assert (Hend : snd w <= 0); [|destruct (Z.ltb_spec 0 (snd w)); [lia|]]
    end.
    + apply (fold_left_invariant (fun a => snd a <= 0)); [|exact Hle].
      intros a z _ Ha.
      apply (fold_left_invariant (fun a => snd a <= 0)); [|exact Ha].
      intros b oe Hoe Hb. unfold zero_object_extent.
      destruct (_ <=? _); cbn [snd]; lia.
    + reflexivity.
Qed.

Lemma zero_loop_state_disallowed (req : Request)
    (may_exist : omap snap_t bool) (first_key S : snap_t)
    (snaps : list snap_t) :
  (forall off len b oe,
      In oe (file_to_extents (m_striper req) off len b) -> 0 <= oe_offset oe) ->
  dst_may_exist (m_snap_map req) may_exist S = Some false ->
  NoDup snaps ->
  forall st st',
    zs_hide_parent st = false ->
    find S (m_write_ops (zs_plan st)) = None ->
    foreach (zero_ops_for_snap req may_exist first_key) snaps st = Some st' ->
    find S (m_dst_object_state (zs_plan st'))
    = find S (m_dst_object_state (zs_plan st)).
Proof.
  intros Hoffsets Hexists.
  induction 1 as [|k rest Hnotin _ IH]; intros st st' Hoff Hempty; simpl.
  - intros [= <-]. reflexivity.
  - intros Hrun. apply bind_some in Hrun as (s1 & Hstep & Hrest).
    destruct (zero_ops_for_snap_other _ _ _ _ _ _ S Hstep) as [Hhide Hother].
    destruct (Z.eq_dec S k) as [->|Hne].
    + rewrite <- (zero_ops_for_snap_state_disallowed _ _ _ _ _ _ Hoffsets
                    Hexists Hoff Hempty Hstep).
      revert Hrest.
      apply (foreach_invariant
               (fun s => find k (m_dst_object_state (zs_plan s))
                         = find k (m_dst_object_state (zs_plan s1))));
        [|reflexivity].
      intros s x s' Hx Hs Hsx. rewrite <- Hs.
      apply (zero_ops_for_snap_state_other _ _ _ _ _ _ k Hsx).
      intros ->; contradiction.
    + rewrite <- (zero_ops_for_snap_state_other _ _ _ _ _ _ S Hstep Hne).
      apply (IH s1 st'); [auto | | exact Hrest].
      rewrite (Hother Hne). exact Hempty.
Qed.

(** X21. When there is no parent to hide, a snapshot at which the destination
    object cannot exist gets no object-map state: the object-map phase
    never marks the object as existing there. *)
Theorem disallowed_snapshot_has_no_state (req : Request)
    (may_exist : omap snap_t bool) (snapshot_delta : SnapshotDelta)
    (planned read_ops : ReadOps) (p : Plan) (S : snap_t) :
  hide_parent_init req = false ->
  (forall off len b oe,
      In oe (file_to_extents (m_striper req) off len b) -> 0 <= oe_offset oe) ->
  S <> 0 ->
  dst_may_exist (m_snap_map req) may_exist S = Some false ->
  compute_read_ops req may_exist snapshot_delta = Some planned ->
  Forall2 same_request planned read_ops ->
  plan_writes req may_exist snapshot_delta read_ops = Some p ->
  find S (m_dst_object_state p) = None.
Proof.
  intros Hhide Hoffsets Hne Hexists Hplan Hsame Hwrites.
  unfold compute_read_ops in Hplan.
  apply bind_some in Hplan as (st & Hloop & Hparent).
  destruct (read_loop_no_parent _ _ _ _ Hhide Hloop) as [Hdne Hkeys].
  unfold parent_read_ops in Hparent. rewrite Hdne in Hparent.
  simpl in Hparent. injection Hparent as <-.
  unfold plan_writes in Hwrites.
  apply bind_some in Hwrites as (merged & Hmerge & Hzero).
  assert (Hempty : find S (m_write_ops merged) = None).
  { destruct (find S (m_write_ops merged)) as [ops|] eqn:E; [|reflexivity].
    exfalso. apply find_some_in_keys in E.
    destruct (merge_write_ops_keys _ _ _ S Hmerge E) as (key & Hkey & <-).
    rewrite (Forall2_same_request_keys _ _ Hsame) in Hkey.
    destruct (Hkeys key Hkey) as [->|Hread]; [apply Hne; reflexivity|].
    congruence. }
  assert (Hstate : m_dst_object_state merged = []).
  { revert Hmerge. unfold merge_write_ops.
    apply (foreach_invariant (fun q => m_dst_object_state q = []));
      [|reflexivity].
    intros q [key ro] q' _ Hq. unfold merge_read_op; cbn [fst snd].
    intros Hstep. apply bind_some in Hstep as (w & _ & Hq').
    injection Hq' as <-. exact Hq. }
  pose proof (merge_write_ops_sorted _ _ _ Hmerge) as Hsorted.
  unfold compute_zero_ops in Hzero.
  destruct (m_snap_map req) as [|[first ids] rest] eqn:Hmap; [discriminate|].
  rewrite <- Hmap in *.
  apply bind_some in Hzero as (zst & Hzloop & Hp). injection Hp as <-.
  apply (zero_loop_state_disallowed _ _ _ S _ Hoffsets Hexists) in Hzloop.
  - rewrite Hzloop. cbn [zs_plan m_dst_object_state]. rewrite Hstate.
    reflexivity.
  - apply sorted_keys_nodup. apply zero_map_sorted. exact Hsorted.
  - exact Hhide.
  - exact Hempty.
Qed.

(** the object holds data at snapshot 10 and is gone at snapshot 20: the
    plan removes it there and records no state *)
Lemma disallowed_snapshot_has_no_state_witness :
  find 20 (m_dst_object_state ex_plan_removed) = None.
Proof.
  apply (disallowed_snapshot_has_no_state ex_req_removed_u64
           ex_may_exist_not_120 ex_delta_data_10
           [((10, 10), {| image_interval := [(0, 8)];
                          image_extent_map := []; out_bl := [] |})]
           ex_read_ops_data_10 ex_plan_removed 20).
  - reflexivity.
  - intros off len b oe [<-|[]]. cbn [oe_offset].
    apply Z.mod_pos_bound. reflexivity.
  - discriminate.
  - reflexivity.
  - vm_compute. reflexivity.
  - constructor; [split; reflexivity | constructor].
  - vm_compute. reflexivity.
Defined.
